(** * ProGearSDK resource compiler (tools/ngres.py): a shallow embedding

    The encoders of [tools/ngres.py] are translated function by function.
    Python integers are [Z]; [>>], [<<], [&], [|] are [Z.shiftr], [Z.shiftl],
    [Z.land], [Z.lor]; [//] is [Z.div] (both round towards minus infinity).
    Python exceptions are the [Err] results of a small error monad; a method
    that mutates [self] takes the state and returns the new one. *)

From stdpp Require Import base option list list_numbers gmap strings fin_maps
  sorting.
From Stdlib Require Import ZArith Lia.

#[local] Open Scope Z_scope.

(** ** Exceptions as results *)

Inductive exn : Type :=
  | NGResError
  | IndexError
  | ValueError
  | TypeError
  | KeyError
  | ZeroDivisionError.

Inductive result (A : Type) : Type :=
  | Ok (a : A)
  | Err (e : exn).
Arguments Ok {A} a.
Arguments Err {A} e.

#[global] Instance result_ret : MRet result := fun A a => Ok a.
#[global] Instance result_bind : MBind result := fun A B f m =>
  match m with
  | Ok a => f a
  | Err e => Err e
  end.

(** [[f(x) for x in xs]] where [f] may raise. *)
Fixpoint list_comp {A B : Type} (f : A -> result B) (xs : list A) : result (list B) :=
  match xs with
  | [] => Ok []
  | x :: xs' => y ← f x; ys ← list_comp f xs'; Ok (y :: ys)
  end.

(** [[self.f(x) for x in xs]] where [f] updates the object and may raise. *)
Fixpoint list_comp_st {S A B : Type} (f : A -> S -> result (B * S))
    (xs : list A) (self : S) : result (list B * S) :=
  match xs with
  | [] => Ok ([], self)
  | x :: xs' =>
      '(y, self1) ← f x self;
      '(ys, self2) ← list_comp_st f xs' self1;
      Ok (y :: ys, self2)
  end.

(** [for x in xs: acc = body(acc, x)] where the body may raise. *)
Fixpoint for_each {S A : Type} (body : S -> A -> result S) (xs : list A) (acc : S)
    : result S :=
  match xs with
  | [] => Ok acc
  | x :: xs' => acc1 ← body acc x; for_each body xs' acc1
  end.

(** ** Python sequences *)

Definition len {A : Type} (l : list A) : Z := Z.of_nat (length l).

(** [l[i]]: negative indices count from the end, anything else raises. *)
Definition py_index {A : Type} (l : list A) (i : Z) : result A :=
  let j := if i <? 0 then len l + i else i in
  if j <? 0 then Err IndexError
  else match l !! Z.to_nat j with
       | Some x => Ok x
       | None => Err IndexError
       end.

Definition is_byte (v : Z) : bool := (0 <=? v) && (v <? 256).

(** [bytes(l)] raises ValueError unless every element is in range(256). *)
Definition py_bytes (l : list Z) : result (list Z) :=
  if forallb is_byte l then Ok l else Err ValueError.

(** [bytearray(n)] for a non-negative [n]. *)
Definition bytearray (n : nat) : list Z := replicate n 0.

(** [buf[i] = v] on a bytearray. *)
Definition bytearray_set (buf : list Z) (i v : Z) : result (list Z) :=
  let j := if i <? 0 then len buf + i else i in
  if (j <? 0) || (len buf <=? j) then Err IndexError
  else if is_byte v then Ok (<[Z.to_nat j := v]> buf)
  else Err ValueError.

(** [max(lo, min(v, hi))] *)
Definition clamp (lo v hi : Z) : Z := Z.max lo (Z.min v hi).

(** ** The padding shared by the two encoders *)

(** [pad_len = ((len(samples) + 511) // 512) * 512],
    [samples + [0] * (pad_len - len(samples))]. *)
Definition pad_len (samples : list Z) : Z := ((len samples + 511) / 512) * 512.

Definition pad512 (samples : list Z) : list Z :=
  samples ++ replicate (Z.to_nat (pad_len samples - len samples)) 0.

(** ** ADPCM-A: the fixed-rate codec (class ADPCM_A) *)

Module ADPCM_A.

Definition STEP_SIZE : list Z :=
  [  16;   17;   19;   21;   23;   25;   28;
     31;   34;   37;   41;   45;   50;   55;
     60;   66;   73;   80;   88;   97;  107;
    118;  130;  143;  157;  173;  190;  209;
    230;  253;  279;  307;  337;  371;  408;
    449;  494;  544;  598;  658;  724;  796;
    876;  963; 1060; 1166; 1282; 1411; 1552 ].

Definition STEP_ADJ : list Z := [-1; -1; -1; -1; 2; 5; 7; 9].

Record state : Type := State { step_index : Z; sample12 : Z }.

Definition reset : state := {| step_index := 0; sample12 := 0 |}.

Definition _decode_sample (adpcm4 : Z) (self : state) : result (Z * state) :=
  step_size ← py_index STEP_SIZE (step_index self);
  let sign := Z.land adpcm4 8 in
  let magnitude := Z.land adpcm4 7 in
  let quantized_diff := Z.shiftr ((2 * magnitude + 1) * step_size) 3 in
  let quantized_diff := if sign =? 0 then quantized_diff else - quantized_diff in
  let decoded := sample12 self + quantized_diff in
  let decoded := Z.max (-2048) (Z.min decoded 2047) in
  adj ← py_index STEP_ADJ magnitude;
  let new_index := step_index self + adj in
  let new_index := Z.max 0 (Z.min new_index 48) in
  Ok (decoded, {| step_index := new_index; sample12 := decoded |}).

Definition _encode_sample (s12 : Z) (self : state) : result (Z * state) :=
  let diff := s12 - sample12 self in
  let sign := if diff <? 0 then 8 else 0 in
  let diff := Z.abs diff in
  let magnitude := 0 in
  threshold ← py_index STEP_SIZE (step_index self);
  let '(magnitude, diff) :=
    if diff >=? threshold then (Z.lor magnitude 4, diff - threshold)
    else (magnitude, diff) in
  let threshold := Z.shiftr threshold 1 in
  let '(magnitude, diff) :=
    if diff >=? threshold then (Z.lor magnitude 2, diff - threshold)
    else (magnitude, diff) in
  let threshold := Z.shiftr threshold 1 in
  let magnitude :=
    if diff >=? threshold then Z.lor magnitude 1 else magnitude in
  let adpcm4 := Z.lor sign magnitude in
  '(_, self1) ← _decode_sample adpcm4 self;
  Ok (adpcm4, self1).

(** [encode]: reset, pad, then encode sample by sample. *)
Definition encode (samples12 : list Z) : result (list Z) :=
  '(adpcms, _) ← list_comp_st _encode_sample (pad512 samples12) reset;
  Ok adpcms.

Definition encode_s16 (samples : list Z) : result (list Z) :=
  let samples12 := (fun s => Z.shiftr s 4) <$> samples in
  encode samples12.

End ADPCM_A.

(** ** ADPCM-B: the variable-rate codec (class ADPCM_B) *)

Module ADPCM_B.

Definition STEP_TABLE : list Z := [57; 57; 57; 57; 77; 102; 128; 153].

Record state : Type := State { step_size : Z; sample16 : Z }.

Definition reset : state := {| step_size := 127; sample16 := 0 |}.

Definition _decode_sample (adpcm4 : Z) (self : state) : result (Z * state) :=
  let sign := Z.land adpcm4 8 in
  let magnitude := Z.land adpcm4 7 in
  let quantized_diff := Z.shiftr ((2 * magnitude + 1) * step_size self) 3 in
  let quantized_diff := if sign =? 0 then quantized_diff else - quantized_diff in
  let decoded := sample16 self + quantized_diff in
  let decoded := Z.max (-32768) (Z.min decoded 32767) in
  factor ← py_index STEP_TABLE magnitude;
  let new_step := Z.shiftr (step_size self * factor) 6 in
  let new_step := Z.max 127 (Z.min new_step 24576) in
  Ok (decoded, {| step_size := new_step; sample16 := decoded |}).

Definition _encode_sample (s16 : Z) (self : state) : result (Z * state) :=
  let diff := s16 - sample16 self in
  let divisor := Z.shiftl (step_size self) 14 in
  if divisor =? 0 then Err ZeroDivisionError
  else
    let magnitude := Z.shiftl (Z.abs diff) 16 / divisor in
    let magnitude := Z.min magnitude 7 in
    let sign := if diff <? 0 then 8 else 0 in
    let adpcm4 := Z.lor sign magnitude in
    '(_, self1) ← _decode_sample adpcm4 self;
    Ok (adpcm4, self1).

Definition encode (samples16 : list Z) : result (list Z) :=
  '(adpcms, _) ← list_comp_st _encode_sample (pad512 samples16) reset;
  Ok adpcms.

Definition encode_s16 (samples : list Z) : result (list Z) := encode samples.

End ADPCM_B.

(** ** Nibble packing *)

(** [for i in range(0, len(nibbles), 2): (nibbles[i] << 4) | nibbles[i + 1]];
    an odd-length list raises IndexError at its last nibble. *)
Fixpoint pack_pairs (nibbles : list Z) : result (list Z) :=
  match nibbles with
  | [] => Ok []
  | [_] => Err IndexError
  | hi :: lo :: rest =>
      packed ← pack_pairs rest;
      Ok (Z.lor (Z.shiftl hi 4) lo :: packed)
  end.

Definition pack_adpcm (adpcm_nibbles : list Z) : result (list Z) :=
  packed ← pack_pairs adpcm_nibbles;
  py_bytes packed.

(** ** Sprite tiles: tile_to_crom *)

Definition blocks : list (Z * Z) := [(0, 0); (0, 8); (8, 0); (8, 8)].

(** [enumerate(l)] *)
Definition enumerate {A : Type} (l : list A) : list (Z * A) :=
  imap (fun i x => (Z.of_nat i, x)) l.

(** The eight pixels of one row of a block, collected right to left. *)
Definition row_pixels (tile : list (list Z)) (block_x block_y row : Z)
    : result (list Z) :=
  list_comp (fun col =>
      let x := block_x + (7 - col) in
      let y := block_y + row in
      tile_row ← py_index tile y;
      py_index tile_row x)
    (seqZ 0 8).

(** [bp_k |= ((px >> k) & 1) << i] for the four planes at once. *)
Definition bitplane_step (bps : Z * Z * Z * Z) (ipx : Z * Z) : Z * Z * Z * Z :=
  let '(bp0, bp1, bp2, bp3) := bps in
  let '(i, px) := ipx in
  (Z.lor bp0 (Z.shiftl (Z.land (Z.shiftr px 0) 1) i),
   Z.lor bp1 (Z.shiftl (Z.land (Z.shiftr px 1) 1) i),
   Z.lor bp2 (Z.shiftl (Z.land (Z.shiftr px 2) 1) i),
   Z.lor bp3 (Z.shiftl (Z.land (Z.shiftr px 3) 1) i)).

Definition bitplanes (pixels : list Z) : Z * Z * Z * Z :=
  fold_left bitplane_step (enumerate pixels) (0, 0, 0, 0).

Record crom_buffers : Type := Crom {
  c1_data : list Z;
  c2_data : list Z;
  byte_idx : Z
}.

Definition crom_row (tile : list (list Z)) (block_x block_y : Z)
    (st : crom_buffers) (row : Z) : result crom_buffers :=
  pixels ← row_pixels tile block_x block_y row;
  let '(bp0, bp1, bp2, bp3) := bitplanes pixels in
  c1 ← bytearray_set (c1_data st) (byte_idx st) bp0;
  c1 ← bytearray_set c1 (byte_idx st + 1) bp1;
  c2 ← bytearray_set (c2_data st) (byte_idx st) bp2;
  c2 ← bytearray_set c2 (byte_idx st + 1) bp3;
  Ok {| c1_data := c1; c2_data := c2; byte_idx := byte_idx st + 2 |}.

Definition crom_block (tile : list (list Z)) (st : crom_buffers) (blk : Z * Z)
    : result crom_buffers :=
  let '(block_x, block_y) := blk in
  for_each (crom_row tile block_x block_y) (seqZ 0 8) st.

Definition tile_to_crom (tile : list (list Z)) : result (list Z * list Z) :=
  st ← for_each (crom_block tile) blocks
         {| c1_data := bytearray 64; c2_data := bytearray 64; byte_idx := 0 |};
  c1 ← py_bytes (c1_data st);
  c2 ← py_bytes (c2_data st);
  Ok (c1, c2).

(** The tile of tools/gen_solid_tile.py: every pixel is colour index 1. *)
Definition solid_tile : list (list Z) := replicate 16 (replicate 16 1).

(** The layout in the words of the specification: the byte of bitplane [k]
    for the row [y] of the 8-pixel strip starting at column [bx] has the
    pixel of column [bx + c] at bit [7 - c]. *)
Definition pixel_at (tile : list (list Z)) (x y : Z) : Z :=
  (tile !!! Z.to_nat y) !!! Z.to_nat x.

Definition plane_bit (px k : Z) : Z := (px / 2 ^ k) mod 2.

Definition spec_row_byte (tile : list (list Z)) (bx y k : Z) : Z :=
  foldr Z.add 0
    ((fun c => plane_bit (pixel_at tile (bx + c) y) k * 2 ^ (7 - c)) <$> seqZ 0 8).

Definition spec_plane (tile : list (list Z)) (k_even k_odd : Z) : list Z :=
  mjoin ((fun '(bx, by_) =>
      mjoin ((fun r => [spec_row_byte tile bx (by_ + r) k_even;
                        spec_row_byte tile bx (by_ + r) k_odd]) <$> seqZ 0 8))
    <$> [(0, 0); (0, 8); (8, 0); (8, 8)]).

(** ** Audio assets *)

Record sfx_info : Type := SfxInfo {
  sfx_index : Z;
  sfx_start_addr_l : Z;
  sfx_start_addr_h : Z;
  sfx_stop_addr_l : Z;
  sfx_stop_addr_h : Z;
  sfx_size : Z
}.

Record music_info : Type := MusicInfo {
  music_index : Z;
  music_start_addr_l : Z;
  music_start_addr_h : Z;
  music_stop_addr_l : Z;
  music_stop_addr_h : Z;
  music_delta_n_l : Z;
  music_delta_n_h : Z;
  music_size : Z;
  music_sample_rate : Z
}.

(** A music definition once its WAV file is loaded: the samples and the
    target rate. *)
Record music_def : Type := MusicDef {
  music_samples : list Z;
  music_target_rate : Z
}.

(** [process_sound_effect] from the loaded samples on (the name and source
    checks and the WAV loader come before and are not modelled). *)
Definition process_sound_effect (samples : list Z) (index current_offset : Z)
    : result (list Z * sfx_info) :=
  adpcm_nibbles ← ADPCM_A.encode_s16 samples;
  adpcm_data ← pack_adpcm adpcm_nibbles;
  let start_addr := current_offset / 256 in
  let stop_addr := (current_offset + len adpcm_data - 1) / 256 in
  if 0xFFFF <? stop_addr then Err NGResError
  else Ok (adpcm_data,
           {| sfx_index := index;
              sfx_start_addr_l := Z.land start_addr 0xFF;
              sfx_start_addr_h := Z.land (Z.shiftr start_addr 8) 0xFF;
              sfx_stop_addr_l := Z.land stop_addr 0xFF;
              sfx_stop_addr_h := Z.land (Z.shiftr stop_addr 8) 0xFF;
              sfx_size := len adpcm_data |}).

Record audio_state : Type := Audio {
  all_v1_data : list Z;
  sfx_info_list : list sfx_info;
  music_info_list : list music_info;
  audio_offset : Z
}.

Section Audio.

(** [calculate_delta_n] works in floating point; it is a parameter here. *)
Variable calculate_delta_n : Z -> Z.

Definition process_music (def : music_def) (index current_offset : Z)
    : result (list Z * music_info) :=
  let target_rate := music_target_rate def in
  adpcm_nibbles ← ADPCM_B.encode_s16 (music_samples def);
  adpcm_data ← pack_adpcm adpcm_nibbles;
  let delta_n := calculate_delta_n target_rate in
  let start_addr := current_offset / 256 in
  let stop_addr := (current_offset + len adpcm_data - 1) / 256 in
  if 0xFFFF <? stop_addr then Err NGResError
  else Ok (adpcm_data,
           {| music_index := index;
              music_start_addr_l := Z.land start_addr 0xFF;
              music_start_addr_h := Z.land (Z.shiftr start_addr 8) 0xFF;
              music_stop_addr_l := Z.land stop_addr 0xFF;
              music_stop_addr_h := Z.land (Z.shiftr stop_addr 8) 0xFF;
              music_delta_n_l := Z.land delta_n 0xFF;
              music_delta_n_h := Z.land (Z.shiftr delta_n 8) 0xFF;
              music_size := len adpcm_data;
              music_sample_rate := target_rate |}).

(** [for i, sfx_def in enumerate(sound_effects_config)], with its [break]
    at the 33rd entry. *)
Fixpoint sfx_loop (i : Z) (defs : list (list Z)) (st : audio_state)
    : result audio_state :=
  match defs with
  | [] => Ok st
  | sfx_def :: rest =>
      if 32 <=? i then Ok st
      else
        '(adpcm_data, info) ← process_sound_effect sfx_def i (audio_offset st);
        sfx_loop (i + 1) rest
          {| all_v1_data := all_v1_data st ++ adpcm_data;
             sfx_info_list := sfx_info_list st ++ [info];
             music_info_list := music_info_list st;
             audio_offset := audio_offset st + len adpcm_data |}
  end.

Fixpoint music_loop (i : Z) (defs : list music_def) (st : audio_state)
    : result audio_state :=
  match defs with
  | [] => Ok st
  | def :: rest =>
      if 32 <=? i then Ok st
      else
        '(adpcm_data, info) ← process_music def i (audio_offset st);
        music_loop (i + 1) rest
          {| all_v1_data := all_v1_data st ++ adpcm_data;
             sfx_info_list := sfx_info_list st;
             music_info_list := music_info_list st ++ [info];
             audio_offset := audio_offset st + len adpcm_data |}
  end.

(** The audio part of [main]. *)
Definition process_audio (sound_effects_config : list (list Z))
    (music_config : list music_def) : result audio_state :=
  st ← sfx_loop 0 sound_effects_config
         {| all_v1_data := []; sfx_info_list := []; music_info_list := [];
            audio_offset := 0 |};
  music_loop 0 music_config st.

End Audio.









(** ** The palette registry *)

Definition palette : Type := list (Z * Z * Z).

(** The registry is one dict holding both the counter (an int under the key
    ['_next_index']) and the entries ([{'index': .., 'colors': ..}]). *)
Inductive regval : Type :=
  | RInt (n : Z)
  | REntry (index : Z) (colors : palette).

Definition NEXT_INDEX : string := "_next_index".

(** The [palette] field of an asset definition: omitted, a string, an int,
    or anything else. *)
Inductive palette_ref : Type :=
  | PalNone
  | PalStr (ref : string)
  | PalInt (n : Z)
  | PalOther.

(** [palette_registry['_next_index']] read as the index of a new entry. A
    non-int there makes the [+= 1] that follows raise TypeError. *)
Definition next_index (reg : gmap string regval) : result Z :=
  match reg !! NEXT_INDEX with
  | None => Err KeyError
  | Some (RInt n) => Ok n
  | Some (REntry _ _) => Err TypeError
  end.

(** [palette_registry['_next_index'] += 1] *)
Definition bump_next_index (reg : gmap string regval) : result (gmap string regval) :=
  n ← next_index reg;
  Ok (<[NEXT_INDEX := RInt (n + 1)]> reg).

(** [palette_registry[name]['index']] and [...['colors']] *)
Definition entry_index (reg : gmap string regval) (name : string) : result Z :=
  match reg !! name with
  | None => Err KeyError
  | Some (RInt _) => Err TypeError
  | Some (REntry i _) => Ok i
  end.

Definition entry_colors (reg : gmap string regval) (name : string) : result palette :=
  match reg !! name with
  | None => Err KeyError
  | Some (RInt _) => Err TypeError
  | Some (REntry _ c) => Ok c
  end.

(** The palette resolution of [process_visual_asset]; [built] is what
    [build_palette_from_frames] returns for the asset's frames. The result
    is the registry with [(palette_name, palette, palette_idx)]. *)
Definition resolve_palette (name : string) (pref : palette_ref) (built : palette)
    (reg : gmap string regval)
    : result (gmap string regval * (string * palette * Z)) :=
  match pref with
  | PalNone =>
      reg1 ← (if decide (is_Some (reg !! name)) then Ok reg
              else
                idx ← next_index reg;
                bump_next_index (<[name := REntry idx built]> reg));
      palette_idx ← entry_index reg1 name;
      Ok (reg1, (name, built, palette_idx))
  | PalStr ref =>
      if decide (is_Some (reg !! ref)) then
        colors ← entry_colors reg ref;
        palette_idx ← entry_index reg ref;
        Ok (reg, (ref, colors, palette_idx))
      else Err NGResError
  | PalInt n =>
      let reg1 := if decide (is_Some (reg !! name)) then reg
                  else <[name := REntry n built]> reg in
      Ok (reg1, (name, built, n))
  | PalOther => Err NGResError
  end.

(** The registry [main] starts from, and its loop over the explicit
    palette definitions ([colors] is what [process_palette_def] returns). *)
Definition initial_registry : gmap string regval := {[ NEXT_INDEX := RInt 2 ]}.

Definition register_explicit (reg : gmap string regval) (def : string * palette)
    : result (gmap string regval) :=
  let '(pal_name, colors) := def in
  idx ← next_index reg;
  bump_next_index (<[pal_name := REntry idx colors]> reg).

Record visual_def : Type := Visual {
  visual_name : string;
  visual_palette : palette_ref;
  visual_built : palette
}.

Definition register_visual (acc : gmap string regval * list Z) (a : visual_def)
    : result (gmap string regval * list Z) :=
  let '(reg, idxs) := acc in
  '(reg1, (_, _, palette_idx)) ←
     resolve_palette (visual_name a) (visual_palette a) (visual_built a) reg;
  Ok (reg1, idxs ++ [palette_idx]).

(** The palette part of [main]: the explicit palettes, then the visual
    assets in order. The second component lists each asset's palette_idx. *)
Definition main_palettes (palettes_config : list (string * palette))
    (visual_assets : list visual_def) : result (gmap string regval * list Z) :=
  reg ← for_each register_explicit palettes_config initial_registry;
  for_each register_visual visual_assets (reg, []).

(** What the specification says of the assignment: the names that take a
    counter value, in order of their first registration. A name already
    registered (by any path) takes none. *)
Fixpoint counter_names (seen : list string) (assets : list visual_def) : list string :=
  match assets with
  | [] => []
  | a :: rest =>
      match visual_palette a with
      | PalNone =>
          if decide (visual_name a ∈ seen) then counter_names seen rest
          else visual_name a :: counter_names (visual_name a :: seen) rest
      | PalInt _ => counter_names (visual_name a :: seen) rest
      | _ => counter_names seen rest
      end
  end.

(** ** Tile grids: parse_tmx_file and the collision overrides *)

(** A [<tile>] element of a tileset: its [id] attribute and, when it has a
    [<properties>] child, the (name, value) attributes of each property. *)
Record tile_elem : Type := TileElem {
  tile_elem_id : Z;
  tile_elem_props : option (list (string * string))
}.

(** What the XML reader hands to [parse_tmx_file] once the layer is
    selected: the layer's dimensions, the first tileset's firstgid, the
    integers of the CSV cells and the [<tile>] elements of every tileset. *)
Record tmx_file : Type := Tmx {
  layer_width : Z;
  layer_height : Z;
  tileset_firstgid : Z;
  cells : list Z;
  tilesets : list (list tile_elem)
}.

Definition FLAG_SOLID : Z := 0x01.
Definition FLAG_PLATFORM : Z := 0x02.
Definition FLAG_SLOPE_L : Z := 0x04.
Definition FLAG_SLOPE_R : Z := 0x08.
Definition FLAG_HAZARD : Z := 0x10.
Definition FLAG_TRIGGER : Z := 0x20.
Definition FLAG_LADDER : Z := 0x40.

(** The if/elif chain over the property or category name; 0 for a name
    outside the vocabulary. *)
Definition flag_of_name (name : string) : Z :=
  if decide (name = "solid") then 0x01
  else if decide (name = "platform") then 0x02
  else if decide (name = "slope_l") then 0x04
  else if decide (name = "slope_r") then 0x08
  else if decide (name = "hazard") then 0x10
  else if decide (name = "trigger") then 0x20
  else if decide (name = "ladder") then 0x40
  else 0.

Definition is_true_value (v : string) : bool :=
  bool_decide (v = "true") || bool_decide (v = "1") || bool_decide (v = "yes").

(** [collision_map.get(k, 0)] *)
Definition get0 (m : gmap Z Z) (k : Z) : Z := default 0 (m !! k).

Section Tmx.

(** [str.lower] is the library's; it is a parameter here. *)
Variable lower : string -> string.

Definition prop_flags (props : list (string * string)) : Z :=
  fold_left (fun flags '(name, value) =>
      if is_true_value (lower value) then Z.lor flags (flag_of_name (lower name))
      else flags)
    props 0.

Definition tile_collision (collision_map : gmap Z Z) (t : tile_elem) : gmap Z Z :=
  match tile_elem_props t with
  | None => collision_map
  | Some props =>
      let flags := prop_flags props in
      if flags =? 0 then collision_map
      else <[tile_elem_id t := flags]> collision_map
  end.

Definition tmx_collision_map (tss : list (list tile_elem)) : gmap Z Z :=
  fold_left (fun m ts => fold_left tile_collision ts m) tss ∅.

(** [parse_tmx_file] from the CSV cells on. *)
Definition parse_tmx_file (f : tmx_file)
    : result (Z * Z * list Z * option (list Z) * Z) :=
  let tile_ids :=
    (fun tile_id => if tile_id =? 0 then 0 else tile_id - tileset_firstgid f)
      <$> cells f in
  if negb (len tile_ids =? layer_width f * layer_height f) then Err NGResError
  else
    tile_data ← py_bytes ((fun t => Z.min 255 (Z.max 0 t)) <$> tile_ids);
    let collision_map := tmx_collision_map (tilesets f) in
    collision_data ←
      (if decide (collision_map = ∅) then Ok None
       else
         data ← py_bytes (get0 collision_map <$> tile_ids);
         Ok (Some data));
    Ok (layer_width f, layer_height f, tile_data, collision_data,
        tileset_firstgid f).

End Tmx.

(** The [collision] section of a tilemap definition: category name to the
    listed tile indices, in the order of the YAML mapping. *)
Definition override_entry (collision_map : gmap Z Z) (item : string * list Z)
    : gmap Z Z :=
  let '(coll_type, tile_indices) := item in
  let flag := flag_of_name coll_type in
  if (flag =? 0) || bool_decide (tile_indices = []) then collision_map
  else fold_left (fun m idx => <[idx := Z.lor (get0 m idx) flag]> m)
         tile_indices collision_map.

Definition override_map (collision_config : list (string * list Z)) : gmap Z Z :=
  fold_left override_entry collision_config ∅.

(** The collision part of [process_tilemap_asset]: [tile_data] and
    [collision_data] are what [parse_tmx_file] returned. *)
Definition apply_collision_config (tile_data : list Z)
    (collision_data : option (list Z))
    (collision_config : option (list (string * list Z)))
    : result (option (list Z)) :=
  match collision_config with
  | None | Some [] => Ok collision_data
  | Some config =>
      let collision_map := override_map config in
      if decide (collision_map = ∅) then Ok collision_data
      else
        data ← py_bytes (get0 collision_map <$> tile_data);
        Ok (Some data)
  end.

Section Tilemap.

Variable lower : string -> string.

(** [process_tilemap_asset], reduced to the grid and its collision flags. *)
Definition process_tilemap_asset (f : tmx_file)
    (collision_config : option (list (string * list Z)))
    : result (list Z * option (list Z)) :=
  '(_, _, tile_data, collision_data, _) ← parse_tmx_file lower f;
  collision_data ← apply_collision_config tile_data collision_data collision_config;
  Ok (tile_data, collision_data).

End Tilemap.

(** ** The codecs in the words of the specification *)

Definition in_range12 (v : Z) : Prop := -2048 <= v <= 2047.
Definition in_range16 (v : Z) : Prop := -32768 <= v <= 32767.

(** [STEP_SIZE[i]] for an index inside the table. *)
Definition step_of (i : Z) : Z := nth (Z.to_nat i) ADPCM_A.STEP_SIZE 0.

(** Successive thresholding: the step, then half of it, then a quarter,
    each matched threshold subtracted from what remains. *)
Definition spec_magnitude_A (d step : Z) : Z :=
  let b2 := if decide (step <= d) then 1 else 0 in
  let d1 := d - b2 * step in
  let b1 := if decide (step / 2 <= d1) then 1 else 0 in
  let d2 := d1 - b1 * (step / 2) in
  let b0 := if decide (step / 4 <= d2) then 1 else 0 in
  4 * b2 + 2 * b1 + b0.

Definition spec_adj_A (m : Z) : Z :=
  nth (Z.to_nat m) [-1; -1; -1; -1; 2; 5; 7; 9] 0.

Definition spec_sign (diff : Z) : Z := if decide (diff < 0) then 8 else 0.

Definition spec_apply_sign (diff q : Z) : Z := if decide (diff < 0) then - q else q.

Definition spec_encode_A (s : Z) (st : ADPCM_A.state) : Z * ADPCM_A.state :=
  let diff := s - ADPCM_A.sample12 st in
  let step := step_of (ADPCM_A.step_index st) in
  let m := spec_magnitude_A (Z.abs diff) step in
  let q := ((2 * m + 1) * step) / 8 in
  (spec_sign diff + m,
   {| ADPCM_A.step_index := clamp 0 (ADPCM_A.step_index st + spec_adj_A m) 48;
      ADPCM_A.sample12 :=
        clamp (-2048) (ADPCM_A.sample12 st + spec_apply_sign diff q) 2047 |}).

Definition spec_magnitude_B (d step : Z) : Z :=
  Z.min 7 ((d * 2 ^ 16) / (step * 2 ^ 14)).

Definition spec_factor_B (m : Z) : Z :=
  nth (Z.to_nat m) [57; 57; 57; 57; 77; 102; 128; 153] 0.

Definition spec_encode_B (s : Z) (st : ADPCM_B.state) : Z * ADPCM_B.state :=
  let diff := s - ADPCM_B.sample16 st in
  let step := ADPCM_B.step_size st in
  let m := spec_magnitude_B (Z.abs diff) step in
  let q := ((2 * m + 1) * step) / 8 in
  (spec_sign diff + m,
   {| ADPCM_B.step_size := clamp 127 ((step * spec_factor_B m) / 64) 24576;
      ADPCM_B.sample16 :=
        clamp (-32768) (ADPCM_B.sample16 st + spec_apply_sign diff q) 32767 |}).

(** Two codes per byte, the first in the high nibble. *)
Definition spec_pack (codes : list Z) : list Z :=
  (fun i => (codes !!! (2 * i)%nat) * 16 + (codes !!! (2 * i + 1)%nat))
    <$> seq 0 (length codes / 2).

(** ** Invariants of the codec states *)

Definition valid_A (st : ADPCM_A.state) : Prop := 0 <= ADPCM_A.step_index st <= 48.

Definition valid_B (st : ADPCM_B.state) : Prop := 0 < ADPCM_B.step_size st.

Definition is_code (c : Z) : Prop := 0 <= c <= 15.

(** ** Bitplane bytes as weighted sums *)

(** The bits of plane [k] of the pixels [l], the first pixel at bit [n]. *)
Fixpoint weigh (n : nat) (k : Z) (l : list Z) : Z :=
  match l with
  | [] => 0
  | px :: l' => plane_bit px k * 2 ^ Z.of_nat n + weigh (S n) k l'
  end.

(** A 16 by 16 grid. *)
Definition tile_grid (tile : list (list Z)) : Prop :=
  length tile = 16%nat /\ Forall (fun r => length r = 16%nat) tile.

(** The two bytes one row gives to a plane, and the bytes of a block. *)
Definition row_pair (tile : list (list Z)) (k_even k_odd bx by_ r : Z) : list Z :=
  [spec_row_byte tile bx (by_ + r) k_even; spec_row_byte tile bx (by_ + r) k_odd].

Definition block_bytes (tile : list (list Z)) (k_even k_odd : Z) (blk : Z * Z) : list Z :=
  mjoin (row_pair tile k_even k_odd blk.1 blk.2 <$> seqZ 0 8).

(** ** Address bookkeeping of the audio loop *)




(** ** The invariant of the palette registry

    [names] are the names that took a counter value, in order; [seen] are
    the names registered so far by any path. *)
Definition registry_inv (names seen : list string) (reg : gmap string regval) : Prop :=
  reg !! NEXT_INDEX = Some (RInt (2 + len names)) /\
  (forall (k : nat) (name : string), names !! k = Some name ->
     exists c, reg !! name = Some (REntry (2 + Z.of_nat k) c)) /\
  (forall name : string, is_Some (reg !! name) <-> name = NEXT_INDEX \/ name ∈ seen) /\
  (forall name : string, name ∈ names -> name ∈ seen).

(** ** The override flags in the words of the specification *)

(** The flags the overrides give to tile index [t]: the OR of the flags of
    every category that lists it. *)
Definition spec_override_flags (collision_config : list (string * list Z)) (t : Z) : Z :=
  fold_left (fun acc '(coll_type, tile_indices) =>
      if decide (t ∈ tile_indices) then Z.lor acc (flag_of_name coll_type) else acc)
    collision_config 0.

(** The tile index of a stored cell: 0 stays 0, any other id loses the
    first-id offset and is clamped to a byte. *)
Definition spec_tile_index (firstgid cell : Z) : Z :=
  if decide (cell = 0) then 0 else clamp 0 (cell - firstgid) 255.

Definition is_flags (v : Z) : Prop := 0 <= v < 128.

(** ** Sample inputs *)

(** A 3 by 2 layer whose tileset starts at id 5. *)
Definition sample_grid : tmx_file :=
  {| layer_width := 3; layer_height := 2; tileset_firstgid := 5;
     cells := [0; 5; 6; 300; 2; 0]; tilesets := [] |}.

(** A 2 by 1 layer whose two tiles carry properties: tile 0 is solid and
    tile 1 is a platform. *)
Definition flagged_grid : tmx_file :=
  {| layer_width := 2; layer_height := 1; tileset_firstgid := 1;
     cells := [1; 2];
     tilesets := [[ {| tile_elem_id := 0;
                       tile_elem_props := Some [("solid", "true")] |};
                    {| tile_elem_id := 1;
                       tile_elem_props := Some [("platform", "true")] |} ]] |}.

(** One explicit palette, then six visual assets: two registered through
    the counter, one with a manual index, and three that name a palette
    already registered. *)
Definition sample_palettes : list (string * palette) := [("shared", [])].

Definition sample_visuals : list visual_def :=
  [ Visual "ball" PalNone []; Visual "sky" (PalInt 7) []; Visual "ball" PalNone [];
    Visual "hud" (PalStr "shared") []; Visual "sky" PalNone []; Visual "orb" PalNone [] ].

Definition sample_registry : gmap string regval :=
  <[NEXT_INDEX := RInt 5]>
    (<["orb" := REntry 4 []]>
       (<["sky" := REntry 7 []]>
          (<["ball" := REntry 3 []]>
             (<["shared" := REntry 2 []]> initial_registry)))).

(** A tile whose pixel at column x is colour x. *)
Definition striped_tile : list (list Z) := replicate 16 (seqZ 0 16).

(** Some category of the vocabulary lists at least one tile index. *)
Definition has_override (collision_config : list (string * list Z)) : Prop :=
  Exists (fun item => flag_of_name item.1 <> 0 /\ item.2 <> []) collision_config.

(** Every bit of [f] is set in [a]. *)
Definition includes (a f : Z) : Prop := Z.land a f = f.

(** The reading under which unlisted cells would keep the flags taken from
    the tile properties when overrides are supplied. *)
Definition unlisted_keep_auto_flags : Prop :=
  forall (lower : string -> string) (f : tmx_file) (config : list (string * list Z))
         (tile_data auto flags : list Z),
    process_tilemap_asset lower f None = Ok (tile_data, Some auto) ->
    process_tilemap_asset lower f (Some config) = Ok (tile_data, Some flags) ->
    forall (i : nat) (t : Z),
      tile_data !! i = Some t ->
      (forall ty idxs, (ty, idxs) ∈ config -> t ∉ idxs) ->
      flags !! i = auto !! i.

(** Every value of a collision map is a flag byte. *)
Definition flags_map (m : gmap Z Z) : Prop :=
  forall k v, m !! k = Some v -> is_flags v.

(** ** Proof automation *)

(** [lia] with [/] and [mod] by constants turned into their equations. *)
Ltac div_lia := Z.to_euclidean_division_equations; lia.

(** Case analysis on a 3-bit magnitude. *)
Ltac magnitude_cases m :=
  let H := fresh "Hcases" in
  assert (H : m = 0 \/ m = 1 \/ m = 2 \/ m = 3 \/ m = 4 \/ m = 5 \/ m = 6 \/ m = 7)
    by lia;
  destruct H as [->|[->|[->|[->|[->|[->|[->| ->]]]]]]].

(** Evaluate the closed exponents and column offsets of an unrolled row. *)
Ltac fold_consts :=
  repeat match goal with
    | |- context [7 - ?c] => let v := eval compute in (7 - c) in change (7 - c) with v
    | |- context [2 ^ ?e] => let v := eval compute in (2 ^ e) in change (2 ^ e) with v
    end.

(** * More of the resource compiler *)

(** ** Hardware colours: rgb5_to_neogeo_color and its inverse *)

Definition rgb5_to_neogeo_color (r g b : Z) : Z :=
  let r_lsb := Z.land r 1 in
  let g_lsb := Z.land g 1 in
  let b_lsb := Z.land b 1 in
  let r_upper := Z.land (Z.shiftr r 1) 0xF in
  let g_upper := Z.land (Z.shiftr g 1) 0xF in
  let b_upper := Z.land (Z.shiftr b 1) 0xF in
  let color := Z.lor (Z.lor (Z.shiftl r_lsb 14) (Z.shiftl g_lsb 13)) (Z.shiftl b_lsb 12) in
  Z.lor color (Z.lor (Z.lor (Z.shiftl r_upper 8) (Z.shiftl g_upper 4)) b_upper).

(** The three expressions of [process_palette_def] that take a hardware
    colour back to 5-bit channels. *)
Definition neogeo_color_to_rgb5 (c : Z) : Z * Z * Z :=
  let r := Z.lor (Z.shiftl (Z.land (Z.shiftr c 8) 0xF) 1) (Z.land (Z.shiftr c 14) 1) in
  let g := Z.lor (Z.shiftl (Z.land (Z.shiftr c 4) 0xF) 1) (Z.land (Z.shiftr c 13) 1) in
  let b := Z.lor (Z.shiftl (Z.land c 0xF) 1) (Z.land (Z.shiftr c 12) 1) in
  (r, g, b).

(** The sentinel of palette slot 0. *)
Definition TRANSPARENT : Z * Z * Z := (-1, -1, -1).

(** The [colors] branch of [process_palette_def]: truncate to 16, slot 0
    becomes the sentinel, the others are decoded, then pad to 16. *)
Definition palette_from_colors (colors : list Z) : list (Z * Z * Z) :=
  let colors := if 16 <? len colors then take 16 colors else colors in
  let palette :=
    imap (fun i c => if decide (i = 0%nat) then TRANSPARENT else neogeo_color_to_rgb5 c)
      colors in
  palette ++ replicate (16 - length palette) (0, 0, 0).

Definition is_rgb5 (c : Z * Z * Z) : Prop :=
  0 <= c.1.1 < 32 /\ 0 <= c.1.2 < 32 /\ 0 <= c.2 < 32.

(** The palette words [generate_header] emits for a palette: slot 0 is
    the reference colour 0x8000, absent slots are 0. *)
Definition header_palette_words (colors : list (Z * Z * Z)) : list Z :=
  (fun i : nat =>
     match colors !! i with
     | Some (r, g, b) =>
         let color := rgb5_to_neogeo_color r g b in
         if decide (i = 0%nat) then 0x8000 else color
     | None => 0x0000
     end) <$> seq 0 16.

(** ** Palettes from images: build_palette_from_frames *)

(** A pixel of an RGBA frame: (r, g, b, a). *)
Definition pixel : Type := Z * Z * Z * Z.

Definition quantize (r g b : Z) : Z * Z * Z := (Z.shiftr r 3, Z.shiftr g 3, Z.shiftr b 3).

(** [colors[key] = colors.get(key, 0) + 1] on a dict, which keeps its keys
    in insertion order. *)
Fixpoint dict_bump (key : Z * Z * Z) (colors : list (Z * Z * Z * Z))
    : list (Z * Z * Z * Z) :=
  match colors with
  | [] => [(key, 0 + 1)]
  | (k, n) :: rest =>
      if decide (k = key) then (k, n + 1) :: rest else (k, n) :: dict_bump key rest
  end.

Definition count_pixel (colors : list (Z * Z * Z * Z)) (px : pixel) : list (Z * Z * Z * Z) :=
  let '(r, g, b, a) := px in
  if a <? 128 then colors else dict_bump (quantize r g b) colors.

Definition count_colors (frames : list (list pixel)) : list (Z * Z * Z * Z) :=
  fold_left (fun colors frame => fold_left count_pixel frame colors) frames [].

(** [sorted(items, key=...)]: a stable sort, an item going before the
    first one whose key is not smaller. *)
Fixpoint insert_by {A : Type} (key : A -> Z) (x : A) (l : list A) : list A :=
  match l with
  | [] => [x]
  | y :: l' => if key x <=? key y then x :: y :: l' else y :: insert_by key x l'
  end.

Definition sorted_by {A : Type} (key : A -> Z) (l : list A) : list A :=
  foldr (insert_by key) [] l.

(** [l[:k]], a negative [k] counting from the end. *)
Definition py_slice_to {A : Type} (l : list A) (k : Z) : list A :=
  if k <? 0 then take (Z.to_nat (len l + k)) l else take (Z.to_nat k) l.

Definition build_palette_from_frames (frames : list (list pixel)) (max_colors : Z)
    : list (Z * Z * Z) :=
  let colors := count_colors frames in
  let sorted_colors := sorted_by (fun x : Z * Z * Z * Z => - x.2) colors in
  TRANSPARENT :: (fst <$> py_slice_to sorted_colors (max_colors - 1)).

(** ** Indexing pixels: index_frame_with_palette *)

(** [enumerate(l, start)] *)
Definition enumerate_from {A : Type} (start : Z) (l : list A) : list (Z * A) :=
  imap (fun i x => (start + Z.of_nat i, x)) l.

(** [{color: idx for idx, color in enumerate(palette)}] *)
Definition palette_lookup (palette : list (Z * Z * Z)) : gmap (Z * Z * Z) Z :=
  fold_left (fun m '(idx, color) => <[color := idx]> m) (enumerate palette) ∅.

Definition color_dist (key p : Z * Z * Z) : Z :=
  let '(r5, g5, b5) := key in
  let '(pr, pg, pb) := p in
  (r5 - pr) ^ 2 + (g5 - pg) ^ 2 + (b5 - pb) ^ 2.

(** One round of the closest-colour loop; [None] is [float('inf')]. *)
Definition nearest_step (key : Z * Z * Z) (st : Z * option Z) (item : Z * (Z * Z * Z))
    : Z * option Z :=
  let '(idx, min_dist) := st in
  let '(i, p) := item in
  let dist := color_dist key p in
  match min_dist with
  | Some m => if dist <? m then (i, Some dist) else (idx, min_dist)
  | None => (i, Some dist)
  end.

Definition nearest_color (key : Z * Z * Z) (palette : list (Z * Z * Z)) : Z :=
  (fold_left (nearest_step key) (enumerate_from 1 (drop 1 palette)) (1, None)).1.

Definition index_pixel (palette : list (Z * Z * Z)) (lookup : gmap (Z * Z * Z) Z)
    (px : pixel) : Z :=
  let '(r, g, b, a) := px in
  if a <? 128 then 0
  else
    let key := quantize r g b in
    match lookup !! key with
    | Some idx => idx
    | None => nearest_color key palette
    end.

Definition index_frame_with_palette (frame : list pixel) (palette : list (Z * Z * Z))
    : list Z :=
  index_pixel palette (palette_lookup palette) <$> frame.

(** An opaque pixel and its quantized colour. *)
Definition opaque (px : pixel) : Prop := 128 <= px.2.

Definition pixel_key (px : pixel) : Z * Z * Z := quantize px.1.1.1 px.1.1.2 px.1.2.

(** Channels as an image decoder gives them. *)
Definition valid_pixel (px : pixel) : Prop :=
  0 <= px.1.1.1 <= 255 /\ 0 <= px.1.1.2 <= 255 /\ 0 <= px.1.2 <= 255 /\ 0 <= px.2 <= 255.

(** How many opaque pixels of the frames have the quantized colour [key]. *)
Definition color_count (frames : list (list pixel)) (key : Z * Z * Z) : Z :=
  len (filter (fun px => opaque px /\ pixel_key px = key) (mjoin frames)).

(** [colors.get(key)] on the insertion-ordered dict. *)
Fixpoint dict_get (colors : list (Z * Z * Z * Z)) (key : Z * Z * Z) : option Z :=
  match colors with
  | [] => None
  | (k, n) :: rest => if decide (k = key) then Some n else dict_get rest key
  end.

(** The number of pixels of a list that count for [key]. *)
Definition pixel_count (pixels : list pixel) (key : Z * Z * Z) : Z :=
  len (filter (fun px => opaque px /\ pixel_key px = key) pixels).

(** ** Fix-layer tiles (srom_utils.py) *)

Definition col_pairs : list (Z * Z) := [(4, 5); (6, 7); (0, 1); (2, 3)].

(** One round of the inner loop of [pixels_to_srom_tile]. *)
Definition srom_row (pixels_8x8 : list (list Z)) (pair_idx col_left col_right : Z)
    (tile : list Z) (row : Z) : result (list Z) :=
  let byte_idx := pair_idx * 8 + row in
  l_row ← py_index pixels_8x8 row;
  l_px ← py_index l_row col_left;
  let left_pixel := Z.land l_px 0xF in
  r_row ← py_index pixels_8x8 row;
  r_px ← py_index r_row col_right;
  let right_pixel := Z.land r_px 0xF in
  bytearray_set tile byte_idx (Z.lor left_pixel (Z.shiftl right_pixel 4)).

Definition srom_pair (pixels_8x8 : list (list Z)) (tile : list Z)
    (item : Z * (Z * Z)) : result (list Z) :=
  let '(pair_idx, (col_left, col_right)) := item in
  for_each (srom_row pixels_8x8 pair_idx col_left col_right) (seqZ 0 8) tile.

Definition pixels_to_srom_tile (pixels_8x8 : list (list Z)) : result (list Z) :=
  tile ← for_each (srom_pair pixels_8x8) (enumerate col_pairs) (bytearray 32);
  py_bytes tile.

(** [1 if (row_byte & (0x80 >> col)) else 0] for the eight columns. *)
Definition bitmap_to_pixels (bitmap_8x8 : list Z) : list (list Z) :=
  (fun row_byte =>
     (fun col => if Z.land row_byte (Z.shiftr 0x80 col) =? 0 then 0 else 1) <$> seqZ 0 8)
    <$> bitmap_8x8.

(** An 8 by 8 grid. *)
Definition fix_grid (pixels : list (list Z)) : Prop :=
  length pixels = 8%nat /\ Forall (fun r => length r = 8%nat) pixels.

(** Reading a pixel back from a tile as the module's header describes the
    format: byte HCLLL, H set for the columns 0-3, C for the inner pair, the
    left pixel of a pair in the low nibble. *)
Definition srom_offset (row col : Z) : Z := 16 * (1 - col / 4) + 8 * (col mod 4 / 2) + row.

Definition srom_nibble (tile : list Z) (row col : Z) : Z :=
  Z.land (Z.shiftr (tile !!! Z.to_nat (srom_offset row col)) (4 * (col mod 2))) 0xF.

(** The 32 bytes of a tile, pair by pair and row by row. *)
Definition spec_srom_tile (pixels : list (list Z)) : list Z :=
  mjoin ((fun '(cl, cr) =>
            (fun r => pixel_at pixels cl r mod 16 + 16 * (pixel_at pixels cr r mod 16))
              <$> seqZ 0 8)
           <$> col_pairs).

(** Case analysis on an index in 0..7, and evaluation of the closed byte
    offsets and shifts of a fix-layer tile. *)
Ltac octal_cases r :=
  let H := fresh "Hcases" in
  assert (H : r = 0 \/ r = 1 \/ r = 2 \/ r = 3 \/ r = 4 \/ r = 5 \/ r = 6 \/ r = 7)
    by lia;
  destruct H as [->|[->|[->|[->|[->|[->|[->| ->]]]]]]].

Ltac eval_srom_offsets :=
  repeat match goal with
    | |- context [Z.to_nat (srom_offset ?r ?c)] =>
        let n := eval vm_compute in (Z.to_nat (srom_offset r c)) in
        change (Z.to_nat (srom_offset r c)) with n
    | |- context [4 * (?c mod 2)] =>
        let n := eval vm_compute in (4 * (c mod 2)) in
        change (4 * (c mod 2)) with n
    end.

(** ** Flash-cartridge images (neo_rom.py) *)

Definition NEO_HEADER_MAGIC : list Z := [78; 69; 79].
Definition NEO_VERSION : Z := 1.
Definition HEADER_SIZE : Z := 4096.


(** [data.ljust(width, b'\x00')] *)
Definition ljust (data : list Z) (width : Z) : list Z :=
  data ++ replicate (Z.to_nat (width - len data)) 0.

(** One round of the loop of [interleave_c_roms]. *)
Definition interleave_step (c1_data c2_data : list Z) (res : list Z) (i : Z)
    : result (list Z) :=
  a ← py_index c1_data i;
  res1 ← bytearray_set res (i * 2) a;
  b ← py_index c2_data i;
  bytearray_set res1 (i * 2 + 1) b.

Definition interleave_c_roms (c1_data c2_data : list Z) : result (list Z) :=
  let max_len := Z.max (len c1_data) (len c2_data) in
  let c1_data := ljust c1_data max_len in
  let c2_data := ljust c2_data max_len in
  res ← for_each (interleave_step c1_data c2_data) (seqZ 0 max_len)
          (bytearray (Z.to_nat (max_len * 2)));
  py_bytes res.

(** [struct.pack('<I', v)]; [None] stands for struct.error. *)
Definition pack_u32 (v : Z) : option (list Z) :=
  if (0 <=? v) && (v <? 2 ^ 32)
  then Some [Z.land v 0xFF; Z.land (Z.shiftr v 8) 0xFF;
             Z.land (Z.shiftr v 16) 0xFF; Z.land (Z.shiftr v 24) 0xFF]
  else None.

(** [struct.pack_into('<I', buffer, offset, v)] *)
Definition pack_into (buffer : list Z) (offset v : Z) : option (list Z) :=
  bs ← pack_u32 v;
  let j := if offset <? 0 then len buffer + offset else offset in
  if (j <? 0) || (len buffer <? j + 4) then None
  else Some (take (Z.to_nat j) buffer ++ bs ++ drop (Z.to_nat (j + 4)) buffer).

(** [buf[lo:hi] = data] for bounds that are not negative. *)
Definition slice_assign (buf : list Z) (lo hi : Z) (data : list Z) : list Z :=
  let lo' := Z.min lo (len buf) in
  let hi' := Z.max lo' (Z.min hi (len buf)) in
  take (Z.to_nat lo') buf ++ data ++ drop (Z.to_nat hi') buf.

(** [s.encode('ascii', errors='replace')] on the code points of [s]. *)
Definition encode_ascii (s : list Z) : list Z :=
  (fun c => if c <? 128 then c else 63) <$> s.

(** The loop over the six sizes: the state is the header and the offset. *)
Fixpoint pack_sizes (sizes : list Z) (header : list Z) (offset : Z)
    : option (list Z * Z) :=
  match sizes with
  | [] => Some (header, offset)
  | size :: rest =>
      header1 ← pack_into header offset size;
      pack_sizes rest header1 (offset + 4)
  end.

Definition build_neo_header (p_size s_size m_size v1_size v2_size c_size : Z)
    (name manufacturer : list Z) (year genre screenshot ngh : Z) : option (list Z) :=
  let header := bytearray (Z.to_nat HEADER_SIZE) in
  let header := slice_assign header 0 3 NEO_HEADER_MAGIC in
  let header := <[3%nat := NEO_VERSION]> header in
  let offset := 4 in
  '(header, offset) ← pack_sizes [p_size; s_size; m_size; v1_size; v2_size; c_size]
                         header offset;
  header ← pack_into header offset year;
  let offset := offset + 4 in
  header ← pack_into header offset genre;
  let offset := offset + 4 in
  header ← pack_into header offset screenshot;
  let offset := offset + 4 in
  header ← pack_into header offset ngh;
  let offset := offset + 4 in
  let name_bytes := take 32 (encode_ascii name) in
  let header := slice_assign header offset (offset + len name_bytes) name_bytes in
  let offset := offset + 33 in
  let manu_bytes := take 16 (encode_ascii manufacturer) in
  let header := slice_assign header offset (offset + len manu_bytes) manu_bytes in
  Some header.


(** The little-endian 32-bit number at [offset]. *)
Definition read_u32 (data : list Z) (offset : Z) : Z :=
  let b k := data !!! Z.to_nat (offset + k) in
  b 0 + 256 * b 1 + 65536 * b 2 + 16777216 * b 3.

Definition is_u32 (v : Z) : Prop := 0 <= v < 2 ^ 32.

Definition le32 (v : Z) : list Z :=
  [v mod 256; v / 256 mod 256; v / 65536 mod 256; v / 16777216 mod 256].

(** The header as the struct of the docstring lays it out. *)
Definition spec_neo_header (fields : list Z) (name manufacturer : list Z) : list Z :=
  let name_bytes := take 32 (encode_ascii name) in
  let manu_bytes := take 16 (encode_ascii manufacturer) in
  [78; 69; 79; 1] ++ mjoin (le32 <$> fields)
  ++ name_bytes ++ replicate (33 - length name_bytes) 0
  ++ manu_bytes ++ replicate (4019 - length manu_bytes) 0.

Definition bytes_like (data : list Z) : Prop := Forall (fun v => is_byte v = true) data.

(** C1[0], C2[0], C1[1], C2[1], ... *)
Fixpoint interleaved (c1 c2 : list Z) : list Z :=
  match c1, c2 with
  | a :: c1', b :: c2' => a :: b :: interleaved c1' c2'
  | _, _ => []
  end.

(** ** The sample tables of the sound driver (generate_z80_sample_tables) *)

Definition sfx_table_step (sfx_table : list Z) (sfx : sfx_info) : result (list Z) :=
  let idx := sfx_index sfx in
  if idx <? 32 then
    let offset := idx * 4 in
    t ← bytearray_set sfx_table offset (sfx_start_addr_l sfx);
    t ← bytearray_set t (offset + 1) (sfx_start_addr_h sfx);
    t ← bytearray_set t (offset + 2) (sfx_stop_addr_l sfx);
    bytearray_set t (offset + 3) (sfx_stop_addr_h sfx)
  else Ok sfx_table.

Definition music_table_step (music_table : list Z) (music : music_info) : result (list Z) :=
  let idx := music_index music in
  if idx <? 32 then
    let offset := idx * 6 in
    t ← bytearray_set music_table offset (music_start_addr_l music);
    t ← bytearray_set t (offset + 1) (music_start_addr_h music);
    t ← bytearray_set t (offset + 2) (music_stop_addr_l music);
    t ← bytearray_set t (offset + 3) (music_stop_addr_h music);
    t ← bytearray_set t (offset + 4) (music_delta_n_l music);
    bytearray_set t (offset + 5) (music_delta_n_h music)
  else Ok music_table.

Definition generate_z80_sample_tables (sfx_info_list : list sfx_info)
    (music_info_list : list music_info) : result (list Z) :=
  sfx_table ← for_each sfx_table_step sfx_info_list (bytearray 128);
  music_table ← for_each music_table_step music_info_list (bytearray 192);
  py_bytes (sfx_table ++ music_table).

(** The bytes of one table entry. *)
Definition sfx_entry (sfx : sfx_info) : list Z :=
  [sfx_start_addr_l sfx; sfx_start_addr_h sfx; sfx_stop_addr_l sfx; sfx_stop_addr_h sfx].

Definition music_entry (music : music_info) : list Z :=
  [music_start_addr_l music; music_start_addr_h music;
   music_stop_addr_l music; music_stop_addr_h music;
   music_delta_n_l music; music_delta_n_h music].

(** What slot [i] of a table holds: the entry of the last record with that
    index, zeros when there is none. *)
Definition slot_of {A : Type} (index : A -> Z) (entry : A -> list Z) (width : nat)
    (records : list A) (i : Z) : list Z :=
  match last (filter (fun r => index r = i) records) with
  | Some r => entry r
  | None => replicate width 0
  end.

(** A record the table generator accepts: an index that is not negative and
    byte-sized fields. *)
Definition sfx_ok (sfx : sfx_info) : Prop :=
  0 <= sfx_index sfx /\ bytes_like (sfx_entry sfx).

Definition music_ok (music : music_info) : Prop :=
  0 <= music_index music /\ bytes_like (music_entry music).

(** A table of 32 slots of [width] bytes that holds [slot i] at slot [i]. *)
Definition table_inv (width : nat) (slot : Z -> list Z) (t : list Z) : Prop :=
  length t = (32 * width)%nat /\ bytes_like t /\
  forall i j : nat, (i < 32)%nat -> (j < width)%nat ->
    t !! (width * i + j)%nat = Some (slot (Z.of_nat i) !!! j).

(** ** The palette table of a tilemap (process_tilemap_asset) *)

(** One entry of [tileset_palettes]; [None] is a key that is absent. *)
Record pal_range : Type := PalRange {
  range_tiles : option (list Z);
  range_palette : option Z
}.

(** [l[i] = v] on a list. *)
Definition list_set (l : list Z) (i v : Z) : result (list Z) :=
  let j := if i <? 0 then len l + i else i in
  if (j <? 0) || (len l <=? j) then Err IndexError
  else Ok (<[Z.to_nat j := v]> l).

(** [range(start, stop)] *)
Definition py_range (start stop : Z) : list Z := seqZ start (stop - start).

(** One round of the loop over [tileset_palettes]. *)
Definition palette_range_step (default_palette : Z) (tile_to_palette : list Z)
    (pal_range : pal_range) : result (list Z) :=
  let tiles_range := default [0; 0] (range_tiles pal_range) in
  let palette := default default_palette (range_palette pal_range) in
  match tiles_range with
  | [start; end_] =>
      for_each (fun t i => list_set t i palette)
        (py_range start (Z.min (end_ + 1) 256)) tile_to_palette
  | _ => Ok tile_to_palette
  end.

(** The [tile_to_palette] entry of the result of [process_tilemap_asset]. *)
Definition tile_to_palette_table (tileset_palettes : list pal_range)
    (default_palette : Z) : result (list Z) :=
  tile_to_palette ← for_each (palette_range_step default_palette) tileset_palettes
                      (replicate 256 default_palette);
  py_bytes tile_to_palette.

(** Whether an entry names tile [i]. *)
Definition range_covers (r : pal_range) (i : Z) : bool :=
  match default [0; 0] (range_tiles r) with
  | [start; end_] => (start <=? i) && (i <=? end_) && (i <? 256)
  | _ => false
  end.

(** The palette of the last entry that names tile [i], the default palette
    when there is none. *)
Definition palette_for (ranges : list pal_range) (default_palette : Z) (i : Z) : Z :=
  fold_left (fun acc r =>
               if range_covers r i then default default_palette (range_palette r) else acc)
    ranges default_palette.

(** An entry whose range does not start below tile 0 and whose palette is a
    byte. *)
Definition range_ok (default_palette : Z) (r : pal_range) : Prop :=
  match default [0; 0] (range_tiles r) with
  | [start; _] => 0 <= start
  | _ => True
  end /\ is_byte (default default_palette (range_palette r)) = true.

(** ** WAV sample decoding (load_wav_file) *)

(** What [load_wav_file] can raise once the frames are read: struct.error
    beside the exceptions above. *)
Inductive wav_exn : Type := StructError | Raised (e : exn).

Inductive wav_result (A : Type) : Type :=
  | Loaded (a : A)
  | Failed (e : wav_exn).
Arguments Loaded {A} a.
Arguments Failed {A} e.

Definition byte_at (raw_data : list Z) (i : Z) : Z := raw_data !!! Z.to_nat i.

(** One ['<h'] item of [struct.unpack]. *)
Definition unpack_h (lo hi : Z) : Z :=
  let v := lo + 256 * hi in
  if v >=? 0x8000 then v - 0x10000 else v.

(** One ['<i'] item of [struct.unpack]. *)
Definition unpack_i (b0 b1 b2 b3 : Z) : Z :=
  let v := b0 + 256 * b1 + 65536 * b2 + 16777216 * b3 in
  if v >=? 0x80000000 then v - 0x100000000 else v.

(** The body of the 24-bit loop. *)
Definition sample24 (low mid high : Z) : Z :=
  let val := Z.lor (Z.lor low (Z.shiftl mid 8)) (Z.shiftl high 16) in
  let val := if val >=? 0x800000 then val - 0x1000000 else val in
  Z.shiftr val 8.

(** The conversion to 16-bit samples; in the 24-bit loop the indices are
    inside the data, whose length is a multiple of 3 there. *)
Definition decode_samples (sample_width : Z) (raw_data : list Z) : wav_result (list Z) :=
  if sample_width =? 1 then
    Loaded ((fun s => Z.shiftl (s - 128) 8) <$> raw_data)
  else if sample_width =? 2 then
    if len raw_data =? 2 * (len raw_data / 2) then
      Loaded ((fun i => unpack_h (byte_at raw_data (2 * i)) (byte_at raw_data (2 * i + 1)))
                <$> seqZ 0 (len raw_data / 2))
    else Failed StructError
  else if sample_width =? 3 then
    if negb (len raw_data mod 3 =? 0) then Failed (Raised NGResError)
    else
      let n_samples := len raw_data / 3 in
      Loaded ((fun i => sample24 (byte_at raw_data (i * 3)) (byte_at raw_data (i * 3 + 1))
                          (byte_at raw_data (i * 3 + 2)))
                <$> seqZ 0 n_samples)
  else if sample_width =? 4 then
    if len raw_data =? 4 * (len raw_data / 4) then
      Loaded ((fun i => Z.shiftr (unpack_i (byte_at raw_data (4 * i))
                                    (byte_at raw_data (4 * i + 1))
                                    (byte_at raw_data (4 * i + 2))
                                    (byte_at raw_data (4 * i + 3))) 16)
                <$> seqZ 0 (len raw_data / 4))
    else Failed StructError
  else Failed (Raised NGResError).

(** [range(0, n, 2)] *)
Definition even_range (n : Z) : list Z := (fun k => 2 * k) <$> seqZ 0 ((n + 1) / 2).

Definition stereo_to_mono (samples : list Z) : result (list Z) :=
  list_comp (fun i =>
               a ← py_index samples i;
               b ← py_index samples (i + 1);
               Ok ((a + b) / 2))
    (even_range (len samples)).


(** ** Frames to sprite tiles (process_visual_asset) *)









(** ** Sample inputs *)

(** Two frames: two red pixels, a green one and a transparent one, then a
    blue one. *)
Definition sample_frames : list (list pixel) :=
  [[(255, 0, 0, 255); (255, 0, 0, 255); (0, 255, 0, 255); (9, 9, 9, 0)];
   [(0, 0, 255, 200)]].

Definition sample_frame : list pixel :=
  [(255, 0, 0, 255); (255, 0, 0, 255); (0, 255, 0, 255); (9, 9, 9, 0)].

(** A palette that lists red twice. *)
Definition sample_palette : list (Z * Z * Z) := [TRANSPARENT; (31, 0, 0); (31, 0, 0)].

(** An 8 by 8 grid whose pixel at column [c] is [c]. *)
Definition sample_fix_tile : list (list Z) := replicate 8 (seqZ 0 8).

Definition sample_sfx_records : list sfx_info := [SfxInfo 0 1 2 3 4 256; SfxInfo 40 9 9 9 9 256].

Definition sample_music_records : list music_info := [MusicInfo 0 1 2 3 4 5 6 512 22050].

Definition sample_ranges : list pal_range :=
  [PalRange (Some [0; 31]) (Some 5); PalRange None None; PalRange (Some [40; 300]) (Some 9)].


(** A game name with one character outside ASCII, and a maker name. *)
Definition sample_name : list Z := [80; 111; 110; 103; 233].
Definition sample_maker : list Z := [77; 101].

(** * Proofs *)

(** ** The model on small inputs *)

(** From reset, 100 crosses the three thresholds 16, 8 and 4: code 7, the
    sample moves by (15 * 16) >> 3 = 30 and the index by 9. *)
Example encode_A_first_sample :
  ADPCM_A._encode_sample 100 ADPCM_A.reset
  = Ok (7, {| ADPCM_A.step_index := 9; ADPCM_A.sample12 := 30 |}).
Proof. reflexivity. Qed.

(** From reset, -1000 saturates the magnitude: code 8 + 7, the sample moves
    by -((15 * 127) >> 3) = -238 and the step becomes (127 * 153) >> 6. *)
Example encode_B_first_sample :
  ADPCM_B._encode_sample (-1000) ADPCM_B.reset
  = Ok (15, {| ADPCM_B.step_size := 303; ADPCM_B.sample16 := -238 |}).
Proof. reflexivity. Qed.

Example pack_adpcm_pairs : pack_adpcm [7; 15; 0; 1] = Ok [0x7F; 0x01].
Proof. reflexivity. Qed.

Example pack_adpcm_odd : pack_adpcm [7; 15; 0] = Err IndexError.
Proof. reflexivity. Qed.

Example py_index_negative : py_index [10; 20; 30] (-1) = Ok 30.
Proof. reflexivity. Qed.

Example encode_empty_stream : ADPCM_A.encode [] = Ok [] /\ ADPCM_B.encode [] = Ok [].
Proof. split; reflexivity. Qed.

(** A registered name is not registered again; the name of the counter's
    key cannot be an automatic palette name. *)
Example resolve_twice :
  (r1 ← resolve_palette "ball" PalNone [] initial_registry;
   resolve_palette "ball" PalNone [] r1.1)
  = resolve_palette "ball" PalNone [] initial_registry.
Proof. vm_compute. reflexivity. Qed.

Example resolve_counter_key :
  resolve_palette NEXT_INDEX PalNone [] initial_registry = Err TypeError.
Proof. vm_compute. reflexivity. Qed.

(** ** The error monad and Python sequences *)

Lemma bind_Ok {A B} (a : A) (f : A -> result B) : (Ok a ≫= f) = f a.
Proof. reflexivity. Qed.

Lemma bind_Err {A B} e (f : A -> result B) : (Err e ≫= f) = Err e.
Proof. reflexivity. Qed.

Lemma py_index_in_range {A} (l : list A) (i : Z) (d : A) :
  0 <= i < len l -> py_index l i = Ok (nth (Z.to_nat i) l d).
Proof.
  intros [Hlo Hhi]. unfold py_index, len in *.
  destruct (i <? 0) eqn:Hneg; [lia|]. rewrite Hneg.
  destruct (l !! Z.to_nat i) as [x|] eqn:Hx.
  - by rewrite (nth_lookup_Some _ _ _ _ Hx).
  - apply lookup_ge_None in Hx. lia.
Qed.

(** ** The fixed-rate codec against its specification *)

Lemma code_magnitude (sgn m : Z) :
  sgn = 0 \/ sgn = 8 -> 0 <= m <= 7 ->
  Z.land (Z.lor sgn m) 7 = m /\ Z.land (Z.lor sgn m) 8 = sgn /\ Z.lor sgn m = sgn + m.
Proof.
  intros [-> | ->] Hm; magnitude_cases m; repeat split; reflexivity.
Qed.

Lemma step_adj_lookup (m : Z) :
  0 <= m <= 7 -> py_index ADPCM_A.STEP_ADJ m = Ok (spec_adj_A m).
Proof. intros Hm; magnitude_cases m; reflexivity. Qed.

Lemma step_size_lookup (i : Z) :
  0 <= i <= 48 -> py_index ADPCM_A.STEP_SIZE i = Ok (step_of i).
Proof. intros Hi. apply py_index_in_range. unfold len. simpl. lia. Qed.

Lemma step_size_bounds : Forall (fun s => 16 <= s <= 1552) ADPCM_A.STEP_SIZE.
Proof. unfold ADPCM_A.STEP_SIZE. repeat constructor; lia. Qed.

Lemma step_of_bounds (i : Z) : 0 <= i <= 48 -> 16 <= step_of i <= 1552.
Proof.
  intros Hi. unfold step_of.
  apply (proj1 (Forall_nth _ 0 _) step_size_bounds). simpl. lia.
Qed.

Lemma decode_A_code (sgn m : Z) (st : ADPCM_A.state) :
  0 <= ADPCM_A.step_index st <= 48 -> sgn = 0 \/ sgn = 8 -> 0 <= m <= 7 ->
  let q := ((2 * m + 1) * step_of (ADPCM_A.step_index st)) / 8 in
  let decoded := clamp (-2048) (ADPCM_A.sample12 st + (if sgn =? 0 then q else - q)) 2047 in
  ADPCM_A._decode_sample (Z.lor sgn m) st =
  Ok (decoded,
      {| ADPCM_A.step_index := clamp 0 (ADPCM_A.step_index st + spec_adj_A m) 48;
         ADPCM_A.sample12 := decoded |}).
Proof.
  intros Hidx Hs Hm q decoded.
  destruct (code_magnitude sgn m Hs Hm) as (Hmag & Hsgn & _).
  unfold ADPCM_A._decode_sample.
  rewrite (step_size_lookup _ Hidx), bind_Ok. cbv zeta.
  rewrite Hmag, Hsgn, (step_adj_lookup _ Hm), bind_Ok.
  rewrite Z.shiftr_div_pow2 by lia.
  reflexivity.
Qed.

Lemma shiftr_1 (a : Z) : Z.shiftr a 1 = a / 2.
Proof. by rewrite Z.shiftr_div_pow2 by lia. Qed.

Lemma quarter (a : Z) : a / 2 / 2 = a / 4.
Proof. rewrite Z.div_div by lia. reflexivity. Qed.

Lemma spec_magnitude_A_range (d step : Z) : 0 <= spec_magnitude_A d step <= 7.
Proof. unfold spec_magnitude_A. repeat case_decide; lia. Qed.

Lemma encode_A_magnitude (d t : Z) :
  (let '(magnitude, diff) :=
     if d >=? t then (Z.lor 0 4, d - t) else (0, d) in
   let threshold := Z.shiftr t 1 in
   let '(magnitude, diff) :=
     if diff >=? threshold then (Z.lor magnitude 2, diff - threshold)
     else (magnitude, diff) in
   let threshold := Z.shiftr threshold 1 in
   if diff >=? threshold then Z.lor magnitude 1 else magnitude)
  = spec_magnitude_A d t.
Proof.
  unfold spec_magnitude_A. rewrite !shiftr_1, quarter. cbv zeta.
  repeat (match goal with
          | |- context [?a >=? ?b] =>
              rewrite (Z.geb_leb a b); destruct (Z.leb_spec b a); cbv beta iota zeta
          end);
    repeat case_decide; try lia; reflexivity.
Qed.

Lemma encode_A_spec (s : Z) (st : ADPCM_A.state) :
  0 <= ADPCM_A.step_index st <= 48 ->
  ADPCM_A._encode_sample s st = Ok (spec_encode_A s st).
Proof.
  intros Hidx. unfold ADPCM_A._encode_sample.
  rewrite (step_size_lookup _ Hidx), bind_Ok. cbv zeta.
  pose proof (encode_A_magnitude
                (Z.abs (s - ADPCM_A.sample12 st)) (step_of (ADPCM_A.step_index st))) as Hmag.
  cbv zeta in Hmag.
  destruct (if Z.abs (s - ADPCM_A.sample12 st) >=? step_of (ADPCM_A.step_index st)
            then _ else _) as [m1 d1].
  destruct (if d1 >=? _ then _ else _) as [m2 d2].
  rewrite Hmag. clear Hmag.
  set (m := spec_magnitude_A _ _).
  pose proof (spec_magnitude_A_range (Z.abs (s - ADPCM_A.sample12 st))
                (step_of (ADPCM_A.step_index st))) as Hm. fold m in Hm.
  set (sgn := if s - ADPCM_A.sample12 st <? 0 then 8 else 0).
  assert (Hs : sgn = 0 \/ sgn = 8) by (unfold sgn; destruct (_ <? _); auto).
  rewrite (decode_A_code sgn m st Hidx Hs Hm), bind_Ok.
  destruct (code_magnitude sgn m Hs Hm) as (_ & _ & ->).
  unfold spec_encode_A, spec_sign, spec_apply_sign. fold m.
  unfold sgn. destruct (Z.ltb_spec (s - ADPCM_A.sample12 st) 0); case_decide; try lia; reflexivity.
Qed.

Lemma list_comp_st_app {S A B} (f : A -> S -> result (B * S)) xs ys st :
  list_comp_st f (xs ++ ys) st =
  ('(a, s1) ← list_comp_st f xs st;
   '(b, s2) ← list_comp_st f ys s1;
   Ok (a ++ b, s2)).
Proof.
  revert st. induction xs as [|x xs IH]; intros st; simpl.
  - destruct (list_comp_st f ys st) as [[b s2]|e]; reflexivity.
  - destruct (f x st) as [[y s1]|e]; [|reflexivity]. simpl.
    rewrite IH.
    destruct (list_comp_st f xs s1) as [[a s2]|e]; [|reflexivity]. simpl.
    destruct (list_comp_st f ys s2) as [[b s3]|e]; reflexivity.
Qed.



Lemma encode_A_step (s : Z) (st : ADPCM_A.state) :
  valid_A st ->
  exists c st',
    ADPCM_A._encode_sample s st = Ok (c, st') /\
    ADPCM_A._decode_sample c st = Ok (ADPCM_A.sample12 st', st') /\
    valid_A st' /\ in_range12 (ADPCM_A.sample12 st') /\ is_code c.
Proof.
  intros Hv. unfold valid_A in Hv.
  rewrite (encode_A_spec s st Hv). unfold spec_encode_A.
  set (m := spec_magnitude_A _ _).
  pose proof (spec_magnitude_A_range (Z.abs (s - ADPCM_A.sample12 st))
                (step_of (ADPCM_A.step_index st))) as Hm. fold m in Hm.
  assert (Hs : spec_sign (s - ADPCM_A.sample12 st) = 0 \/
               spec_sign (s - ADPCM_A.sample12 st) = 8)
    by (unfold spec_sign; case_decide; auto).
  eexists _, _. split; [reflexivity|].
  destruct (code_magnitude _ m Hs Hm) as (_ & _ & <-).
  rewrite (decode_A_code _ m st Hv Hs Hm). cbn [ADPCM_A.sample12 ADPCM_A.step_index].
  split.
  { unfold spec_apply_sign, spec_sign.
    case_decide; reflexivity. }
  destruct (code_magnitude _ m Hs Hm) as (_ & _ & ->).
  unfold valid_A, in_range12, is_code, clamp; cbn [ADPCM_A.sample12 ADPCM_A.step_index].
  repeat split; try lia.
  all: destruct Hs as [-> | ->]; lia.
Qed.

Lemma encode_A_stream (samples : list Z) (st : ADPCM_A.state) :
  valid_A st ->
  exists codes st',
    list_comp_st ADPCM_A._encode_sample samples st = Ok (codes, st') /\
    valid_A st' /\ length codes = length samples /\ Forall is_code codes.
Proof.
  revert st. induction samples as [|s samples IH]; intros st Hv.
  - exists [], st. simpl. auto.
  - destruct (encode_A_step s st Hv) as (c & st1 & Henc & _ & Hv1 & _ & Hc).
    destruct (IH st1 Hv1) as (codes & st2 & Hrest & Hv2 & Hlen & Hall).
    exists (c :: codes), st2. simpl. rewrite Henc, bind_Ok. cbv beta iota.
    rewrite Hrest, bind_Ok. simpl. auto.
Qed.

Lemma reset_A_valid : valid_A ADPCM_A.reset.
Proof. unfold valid_A. simpl. lia. Qed.

(** ** The variable-rate codec against its specification *)

Lemma step_table_lookup (m : Z) :
  0 <= m <= 7 -> py_index ADPCM_B.STEP_TABLE m = Ok (spec_factor_B m).
Proof. intros Hm; magnitude_cases m; reflexivity. Qed.

Lemma decode_B_code (sgn m : Z) (st : ADPCM_B.state) :
  sgn = 0 \/ sgn = 8 -> 0 <= m <= 7 ->
  let step := ADPCM_B.step_size st in
  let q := ((2 * m + 1) * step) / 8 in
  let decoded := clamp (-32768) (ADPCM_B.sample16 st + (if sgn =? 0 then q else - q)) 32767 in
  ADPCM_B._decode_sample (Z.lor sgn m) st =
  Ok (decoded,
      {| ADPCM_B.step_size := clamp 127 ((step * spec_factor_B m) / 64) 24576;
         ADPCM_B.sample16 := decoded |}).
Proof.
  intros Hs Hm step q decoded.
  destruct (code_magnitude sgn m Hs Hm) as (Hmag & Hsgn & _).
  unfold ADPCM_B._decode_sample. cbv zeta.
  rewrite Hmag, Hsgn, (step_table_lookup _ Hm), bind_Ok.
  rewrite !Z.shiftr_div_pow2 by lia.
  reflexivity.
Qed.


Lemma spec_magnitude_B_range (d step : Z) :
  0 < step -> 0 <= spec_magnitude_B (Z.abs d) step <= 7.
Proof.
  intros Hstep. unfold spec_magnitude_B.
  assert (0 <= Z.abs d * 2 ^ 16 / (step * 2 ^ 14)) by (apply Z.div_pos; lia).
  lia.
Qed.

Lemma encode_B_spec (s : Z) (st : ADPCM_B.state) :
  valid_B st -> ADPCM_B._encode_sample s st = Ok (spec_encode_B s st).
Proof.
  unfold valid_B. intros Hv. unfold ADPCM_B._encode_sample. cbv zeta.
  rewrite Z.shiftl_mul_pow2 by lia.
  destruct (Z.eqb_spec (ADPCM_B.step_size st * 2 ^ 14) 0) as [H0|_]; [lia|].
  rewrite Z.shiftl_mul_pow2 by lia.
  rewrite Z.min_comm. fold (spec_magnitude_B (Z.abs (s - ADPCM_B.sample16 st)) (ADPCM_B.step_size st)).
  set (m := spec_magnitude_B _ _).
  pose proof (spec_magnitude_B_range (s - ADPCM_B.sample16 st) _ Hv) as Hm. fold m in Hm.
  set (sgn := if s - ADPCM_B.sample16 st <? 0 then 8 else 0).
  assert (Hs : sgn = 0 \/ sgn = 8) by (unfold sgn; destruct (_ <? _); auto).
  rewrite (decode_B_code sgn m st Hs Hm), bind_Ok.
  destruct (code_magnitude sgn m Hs Hm) as (_ & _ & ->).
  unfold spec_encode_B, spec_sign, spec_apply_sign. fold m.
  unfold sgn. destruct (Z.ltb_spec (s - ADPCM_B.sample16 st) 0); case_decide; try lia; reflexivity.
Qed.

Lemma encode_B_step (s : Z) (st : ADPCM_B.state) :
  valid_B st ->
  exists c st',
    ADPCM_B._encode_sample s st = Ok (c, st') /\
    ADPCM_B._decode_sample c st = Ok (ADPCM_B.sample16 st', st') /\
    valid_B st' /\ in_range16 (ADPCM_B.sample16 st') /\ is_code c /\
    127 <= ADPCM_B.step_size st' <= 24576.
Proof.
  intros Hv.
  rewrite (encode_B_spec s st Hv). unfold spec_encode_B.
  set (m := spec_magnitude_B _ _).
  pose proof (spec_magnitude_B_range (s - ADPCM_B.sample16 st) _ Hv) as Hm. fold m in Hm.
  assert (Hs : spec_sign (s - ADPCM_B.sample16 st) = 0 \/
               spec_sign (s - ADPCM_B.sample16 st) = 8)
    by (unfold spec_sign; case_decide; auto).
  eexists _, _. split; [reflexivity|].
  destruct (code_magnitude _ m Hs Hm) as (_ & _ & <-).
  rewrite (decode_B_code _ m st Hs Hm). cbn [ADPCM_B.sample16 ADPCM_B.step_size].
  split.
  { unfold spec_apply_sign, spec_sign.
    case_decide; reflexivity. }
  destruct (code_magnitude _ m Hs Hm) as (_ & _ & ->).
  unfold valid_B, in_range16, is_code, clamp; cbn [ADPCM_B.sample16 ADPCM_B.step_size].
  repeat split; try lia.
  all: destruct Hs as [-> | ->]; lia.
Qed.

Lemma encode_B_stream (samples : list Z) (st : ADPCM_B.state) :
  valid_B st ->
  exists codes st',
    list_comp_st ADPCM_B._encode_sample samples st = Ok (codes, st') /\
    valid_B st' /\ length codes = length samples /\ Forall is_code codes.
Proof.
  revert st. induction samples as [|s samples IH]; intros st Hv.
  - exists [], st. simpl. auto.
  - destruct (encode_B_step s st Hv) as (c & st1 & Henc & _ & Hv1 & _ & Hc & _).
    destruct (IH st1 Hv1) as (codes & st2 & Hrest & Hv2 & Hlen & Hall).
    exists (c :: codes), st2. simpl. rewrite Henc, bind_Ok. cbv beta iota.
    rewrite Hrest, bind_Ok. simpl. auto.
Qed.

Lemma reset_B_valid : valid_B ADPCM_B.reset.
Proof. unfold valid_B. simpl. lia. Qed.

(** ** The encoder replays its decoder *)

Lemma list_comp_st_snoc {S A B} (f : A -> S -> result (B * S)) xs x st ys st1 y st2 :
  list_comp_st f xs st = Ok (ys, st1) -> f x st1 = Ok (y, st2) ->
  list_comp_st f (xs ++ [x]) st = Ok (ys ++ [y], st2).
Proof.
  intros Hxs Hx. rewrite list_comp_st_app, Hxs, bind_Ok. cbv beta iota.
  simpl. rewrite Hx. reflexivity.
Qed.

Lemma list_comp_st_cons_app {S A B} (f : A -> S -> result (B * S))
    xs x zs st ys st1 y st2 ws st3 :
  list_comp_st f xs st = Ok (ys, st1) -> f x st1 = Ok (y, st2) ->
  list_comp_st f zs st2 = Ok (ws, st3) ->
  list_comp_st f (xs ++ x :: zs) st = Ok (ys ++ y :: ws, st3).
Proof.
  intros Hxs Hx Hzs. rewrite list_comp_st_app, Hxs, bind_Ok. cbv beta iota.
  simpl. rewrite Hx. simpl. rewrite Hzs. reflexivity.
Qed.

Lemma replay_A (samples : list Z) (st : ADPCM_A.state) codes st' :
  valid_A st ->
  list_comp_st ADPCM_A._encode_sample samples st = Ok (codes, st') ->
  exists decoded, list_comp_st ADPCM_A._decode_sample codes st = Ok (decoded, st').
Proof.
  revert st codes. induction samples as [|s samples IH]; intros st codes Hv Hrun.
  - simpl in Hrun. injection Hrun as <- <-. exists []. reflexivity.
  - destruct (encode_A_step s st Hv) as (c & st1 & Henc & Hdec & Hv1 & _).
    simpl in Hrun. rewrite Henc in Hrun. simpl in Hrun.
    destruct (list_comp_st ADPCM_A._encode_sample samples st1) as [[cs st2]|e] eqn:Hrest;
      [|discriminate].
    simpl in Hrun. injection Hrun as <- <-.
    destruct (IH st1 cs Hv1 Hrest) as (decoded & Hreplay).
    exists (ADPCM_A.sample12 st1 :: decoded). simpl. rewrite Hdec. simpl.
    rewrite Hreplay. reflexivity.
Qed.

Lemma replay_B (samples : list Z) (st : ADPCM_B.state) codes st' :
  valid_B st ->
  list_comp_st ADPCM_B._encode_sample samples st = Ok (codes, st') ->
  exists decoded, list_comp_st ADPCM_B._decode_sample codes st = Ok (decoded, st').
Proof.
  revert st codes. induction samples as [|s samples IH]; intros st codes Hv Hrun.
  - simpl in Hrun. injection Hrun as <- <-. exists []. reflexivity.
  - destruct (encode_B_step s st Hv) as (c & st1 & Henc & Hdec & Hv1 & _).
    simpl in Hrun. rewrite Henc in Hrun. simpl in Hrun.
    destruct (list_comp_st ADPCM_B._encode_sample samples st1) as [[cs st2]|e] eqn:Hrest;
      [|discriminate].
    simpl in Hrun. injection Hrun as <- <-.
    destruct (IH st1 cs Hv1 Hrest) as (decoded & Hreplay).
    exists (ADPCM_B.sample16 st1 :: decoded). simpl. rewrite Hdec. simpl.
    rewrite Hreplay. reflexivity.
Qed.

(** C1. Whatever samples came before ([pre]) and come after ([post]), when
    either encoder emits the code [c] for the sample [s] its new predicted
    sample is the value the decoder's state update returns for [c] from
    the state before, and the state after is the decoder's; a decoder
    replaying the emitted codes from the reset state ends in that same
    state with that same output. The predicted sample lies in
    [-2048, 2047] for the fixed-rate codec and in [-32768, 32767] for the
    variable-rate codec. *)
Theorem adpcm_self_decode (pre : list Z) (s : Z) (post : list Z) :
  (exists codes1 st1 c st2 codes2 st3 decoded,
      list_comp_st ADPCM_A._encode_sample pre ADPCM_A.reset = Ok (codes1, st1) /\
      ADPCM_A._encode_sample s st1 = Ok (c, st2) /\
      list_comp_st ADPCM_A._encode_sample (pre ++ s :: post) ADPCM_A.reset
        = Ok (codes1 ++ c :: codes2, st3) /\
      ADPCM_A._decode_sample c st1 = Ok (ADPCM_A.sample12 st2, st2) /\
      list_comp_st ADPCM_A._decode_sample (codes1 ++ [c]) ADPCM_A.reset
        = Ok (decoded ++ [ADPCM_A.sample12 st2], st2) /\
      in_range12 (ADPCM_A.sample12 st2)) /\
  (exists codes1 st1 c st2 codes2 st3 decoded,
      list_comp_st ADPCM_B._encode_sample pre ADPCM_B.reset = Ok (codes1, st1) /\
      ADPCM_B._encode_sample s st1 = Ok (c, st2) /\
      list_comp_st ADPCM_B._encode_sample (pre ++ s :: post) ADPCM_B.reset
        = Ok (codes1 ++ c :: codes2, st3) /\
      ADPCM_B._decode_sample c st1 = Ok (ADPCM_B.sample16 st2, st2) /\
      list_comp_st ADPCM_B._decode_sample (codes1 ++ [c]) ADPCM_B.reset
        = Ok (decoded ++ [ADPCM_B.sample16 st2], st2) /\
      in_range16 (ADPCM_B.sample16 st2)).
Proof.
  split.
  - destruct (encode_A_stream pre _ reset_A_valid) as (codes1 & st1 & Hpre & Hv1 & _).
    destruct (encode_A_step s st1 Hv1) as (c & st2 & Henc & Hdec & Hv2 & Hr & _).
    destruct (encode_A_stream post st2 Hv2) as (codes2 & st3 & Hpost & _).
    destruct (replay_A pre _ _ _ reset_A_valid Hpre) as (decoded & Hreplay).
    exists codes1, st1, c, st2, codes2, st3, decoded.
    repeat split; try assumption.
    + exact (list_comp_st_cons_app _ _ _ _ _ _ _ _ _ _ _ Hpre Henc Hpost).
    + exact (list_comp_st_snoc _ _ _ _ _ _ _ _ Hreplay Hdec).
    + apply Hr.
    + apply Hr.
  - destruct (encode_B_stream pre _ reset_B_valid) as (codes1 & st1 & Hpre & Hv1 & _).
    destruct (encode_B_step s st1 Hv1) as (c & st2 & Henc & Hdec & Hv2 & Hr & _).
    destruct (encode_B_stream post st2 Hv2) as (codes2 & st3 & Hpost & _).
    destruct (replay_B pre _ _ _ reset_B_valid Hpre) as (decoded & Hreplay).
    exists codes1, st1, c, st2, codes2, st3, decoded.
    repeat split; try assumption.
    + exact (list_comp_st_cons_app _ _ _ _ _ _ _ _ _ _ _ Hpre Henc Hpost).
    + exact (list_comp_st_snoc _ _ _ _ _ _ _ _ Hreplay Hdec).
    + apply Hr.
    + apply Hr.
Qed.


(** ** The step tables *)

Lemma step_of_adjacent (i : Z) : 0 <= i < 48 -> step_of i < step_of (i + 1).
Proof.
  intros Hi.
  assert (Hall : forallb (fun i => step_of i <? step_of (i + 1)) (seqZ 0 48) = true)
    by reflexivity.
  rewrite forallb_forall in Hall.
  apply Z.ltb_lt, Hall, list_elem_of_In, elem_of_seqZ. lia.
Qed.

Lemma step_of_increasing (i j : Z) : 0 <= i -> i < j -> j <= 48 -> step_of i < step_of j.
Proof.
  intros Hi Hij Hj.
  replace j with (i + 1 + Z.of_nat (Z.to_nat (j - i - 1))) in * by lia.
  induction (Z.to_nat (j - i - 1)) as [|n IH].
  - rewrite Z.add_0_r. apply step_of_adjacent. lia.
  - etrans; [apply IH; lia|].
    replace (i + 1 + Z.of_nat (S n)) with (i + 1 + Z.of_nat n + 1) by lia.
    apply step_of_adjacent. lia.
Qed.

(** C2. In every state the fixed-rate encoder reaches, encoding a sample
    gives the code and the state of [spec_encode_A]: the 3-bit magnitude by
    thresholding against the step, half of it and a quarter of it, the
    difference rebuilt as ((2m+1)*step) >> 3 with the sign applied, the
    sample clamped to [-2048, 2047] and the step index moved by the entry
    of (-1,-1,-1,-1,2,5,7,9) for the magnitude and clamped to 0..48; the
    step table has 49 strictly increasing entries. *)
Theorem fixed_rate_encoder (pre : list Z) (s : Z) :
  (exists codes st,
      list_comp_st ADPCM_A._encode_sample pre ADPCM_A.reset = Ok (codes, st) /\
      ADPCM_A._encode_sample s st = Ok (spec_encode_A s st) /\
      0 <= spec_magnitude_A (Z.abs (s - ADPCM_A.sample12 st))
             (step_of (ADPCM_A.step_index st)) <= 7 /\
      0 <= ADPCM_A.step_index st <= 48 /\
      ADPCM_A.STEP_SIZE !! Z.to_nat (ADPCM_A.step_index st)
        = Some (step_of (ADPCM_A.step_index st))) /\
  length ADPCM_A.STEP_SIZE = 49%nat /\
  (forall i j : Z, 0 <= i -> i < j -> j <= 48 -> step_of i < step_of j) /\
  ADPCM_A.STEP_ADJ = [-1; -1; -1; -1; 2; 5; 7; 9].
Proof.
  split; [|split; [reflexivity|split; [exact step_of_increasing|reflexivity]]].
  destruct (encode_A_stream pre _ reset_A_valid) as (codes & st & Hpre & Hv & _).
  exists codes, st. split; [exact Hpre|].
  split; [exact (encode_A_spec s st Hv)|].
  split; [apply spec_magnitude_A_range|].
  split; [exact Hv|].
  unfold step_of. unfold valid_A in Hv.
  destruct (nth_lookup_or_length ADPCM_A.STEP_SIZE (Z.to_nat (ADPCM_A.step_index st)) 0)
    as [H|H]; [exact H|]. simpl in H. lia.
Qed.

Lemma stream_B_bounds (samples : list Z) (st : ADPCM_B.state) codes st' :
  127 <= ADPCM_B.step_size st <= 24576 ->
  list_comp_st ADPCM_B._encode_sample samples st = Ok (codes, st') ->
  127 <= ADPCM_B.step_size st' <= 24576.
Proof.
  revert st codes. induction samples as [|s samples IH]; intros st codes Hb Hrun.
  - simpl in Hrun. injection Hrun as <- <-. exact Hb.
  - assert (Hv : valid_B st) by (unfold valid_B; lia).
    destruct (encode_B_step s st Hv) as (c & st1 & Henc & _ & _ & _ & _ & Hb1).
    simpl in Hrun. rewrite Henc in Hrun. simpl in Hrun.
    destruct (list_comp_st ADPCM_B._encode_sample samples st1) as [[cs st2]|e] eqn:Hrest;
      [|discriminate].
    simpl in Hrun. injection Hrun as <- <-.
    exact (IH st1 cs Hb1 Hrest).
Qed.

(** C3. In every state the variable-rate encoder reaches, encoding a sample
    gives the code and the state of [spec_encode_B]: magnitude
    min(7, (|diff| << 16) / (step << 14)), the difference rebuilt as
    ((2m+1)*step) >> 3 from the running step, the sample clamped to
    [-32768, 32767] and the step replaced by
    clamp((step * T[m]) >> 6, 127, 24576) with T = (57,57,57,57,77,102,128,153);
    the step starts at 127. *)
Theorem variable_rate_encoder (pre : list Z) (s : Z) :
  (exists codes st,
      list_comp_st ADPCM_B._encode_sample pre ADPCM_B.reset = Ok (codes, st) /\
      ADPCM_B._encode_sample s st = Ok (spec_encode_B s st) /\
      0 <= spec_magnitude_B (Z.abs (s - ADPCM_B.sample16 st)) (ADPCM_B.step_size st) <= 7 /\
      127 <= ADPCM_B.step_size st <= 24576) /\
  ADPCM_B.step_size ADPCM_B.reset = 127 /\
  ADPCM_B.STEP_TABLE = [57; 57; 57; 57; 77; 102; 128; 153].
Proof.
  split; [|split; reflexivity].
  destruct (encode_B_stream pre _ reset_B_valid) as (codes & st & Hpre & Hv & _).
  exists codes, st. split; [exact Hpre|].
  split; [exact (encode_B_spec s st Hv)|].
  split; [exact (spec_magnitude_B_range _ _ Hv)|].
  apply (stream_B_bounds pre ADPCM_B.reset codes st); [simpl; lia|exact Hpre].
Qed.


(** ** The 16 to 12 bit conversion *)

Lemma shiftr4_range (s : Z) : in_range16 s -> in_range12 (Z.shiftr s 4).
Proof.
  unfold in_range16, in_range12. intros Hs.
  rewrite Z.shiftr_div_pow2 by lia. change (2 ^ 4) with 16. div_lia.
Qed.

(** C10. For 16-bit samples the shift by 4 of [encode_s16] gives 12-bit
    values, so every sample handed to the fixed-rate encoder, the zero
    padding included, lies in [-2048, 2047]. *)
Theorem encode_s16_precondition (samples : list Z) :
  Forall in_range16 samples ->
  Forall in_range12 ((fun s => Z.shiftr s 4) <$> samples) /\
  Forall in_range12 (pad512 ((fun s => Z.shiftr s 4) <$> samples)) /\
  ADPCM_A.encode_s16 samples =
    ('(adpcms, _) ← list_comp_st ADPCM_A._encode_sample
                      (pad512 ((fun s => Z.shiftr s 4) <$> samples)) ADPCM_A.reset;
     Ok adpcms).
Proof.
  intros Hall.
  assert (H12 : Forall in_range12 ((fun s => Z.shiftr s 4) <$> samples)).
  { apply Forall_fmap. eapply Forall_impl; [exact Hall|]. intros s Hs.
    exact (shiftr4_range s Hs). }
  split; [exact H12|]. split; [|reflexivity].
  unfold pad512. apply Forall_app. split; [exact H12|].
  apply Forall_replicate. unfold in_range12. lia.
Qed.

Lemma encode_s16_precondition_witness :
  Forall in_range16 [-32768; 32767; -1; 0; 4660] /\
  Forall in_range12 (pad512 ((fun s => Z.shiftr s 4) <$> [-32768; 32767; -1; 0; 4660])).
Proof.
  assert (H16 : Forall in_range16 [-32768; 32767; -1; 0; 4660])
    by (unfold in_range16; repeat constructor; lia).
  split; [exact H16|].
  exact (proj1 (proj2 (encode_s16_precondition [-32768; 32767; -1; 0; 4660] H16))).
Defined.


(** ** Padding and nibble packing *)

Lemma pad_amount (samples : list Z) :
  exists k : nat,
    (k < 512)%nat /\ Z.to_nat (pad_len samples - len samples) = k /\
    pad_len samples = Z.of_nat (length samples + k) /\
    ((length samples + k) mod 512 = 0)%nat.
Proof.
  unfold pad_len, len.
  set (n := Z.of_nat (length samples)).
  assert (Hn : 0 <= n) by lia.
  exists (Z.to_nat ((n + 511) / 512 * 512 - n)).
  assert (Hk : 0 <= (n + 511) / 512 * 512 - n < 512) by div_lia.
  split; [lia|]. split; [reflexivity|]. split; [lia|].
  apply Nat2Z.inj. rewrite Nat2Z.inj_mod, Nat2Z.inj_add, Z2Nat.id by lia.
  fold n. replace (n + ((n + 511) / 512 * 512 - n)) with ((n + 511) / 512 * 512) by lia.
  simpl. apply Z.mod_mul. lia.
Qed.

Lemma nibble_byte (hi lo : Z) :
  is_code hi -> is_code lo ->
  Z.lor (Z.shiftl hi 4) lo = hi * 16 + lo /\ is_byte (Z.lor (Z.shiftl hi 4) lo) = true.
Proof.
  unfold is_code. intros Hhi Hlo.
  assert (Hhi' : hi ∈ seqZ 0 16) by (apply elem_of_seqZ; lia).
  assert (Hlo' : lo ∈ seqZ 0 16) by (apply elem_of_seqZ; lia).
  assert (Hall : forallb (fun h => forallb (fun l =>
             (Z.lor (Z.shiftl h 4) l =? h * 16 + l) && is_byte (Z.lor (Z.shiftl h 4) l))
             (seqZ 0 16)) (seqZ 0 16) = true) by reflexivity.
  rewrite forallb_forall in Hall.
  specialize (Hall hi (proj1 (list_elem_of_In _ _) Hhi')).
  rewrite forallb_forall in Hall.
  specialize (Hall lo (proj1 (list_elem_of_In _ _) Hlo')).
  apply andb_true_iff in Hall as [H1 H2]. apply Z.eqb_eq in H1. auto.
Qed.

Lemma pack_pairs_spec (n : nat) (codes : list Z) :
  length codes = (2 * n)%nat -> Forall is_code codes ->
  pack_pairs codes = Ok (spec_pack codes) /\
  length (spec_pack codes) = n /\ forallb is_byte (spec_pack codes) = true.
Proof.
  revert codes. induction n as [|n IH]; intros codes Hlen Hall.
  - destruct codes; [|discriminate]. repeat split; reflexivity.
  - destruct codes as [|hi [|lo rest]]; simpl in Hlen; try lia.
    apply Forall_cons in Hall as [Hhi Hall]. apply Forall_cons in Hall as [Hlo Hall].
    destruct (IH rest ltac:(lia) Hall) as (Hrest & Hlen' & Hbytes).
    destruct (nibble_byte hi lo Hhi Hlo) as [Heq Hb].
    assert (Hspec : spec_pack (hi :: lo :: rest) = (hi * 16 + lo) :: spec_pack rest).
    { unfold spec_pack. cbn [length].
      replace (S (S (length rest)) / 2)%nat with (S (length rest / 2)).
      2:{ change (S (S (length rest))) with (2 + length rest)%nat.
          replace (2 + length rest)%nat with (1 * 2 + length rest)%nat by lia.
          rewrite Nat.div_add_l by lia. lia. }
      cbn [seq fmap list_fmap]. f_equal.
      rewrite <- seq_shift, <- list_fmap_compose.
      apply list_fmap_ext. intros i x _. unfold compose.
      replace (2 * S x)%nat with (S (S (2 * x))) by lia.
      replace (2 * S x + 1)%nat with (S (S (2 * x + 1))) by lia.
      reflexivity. }
    rewrite Hspec. cbn [pack_pairs]. rewrite Hrest, bind_Ok, Heq.
    repeat split.
    + cbn [length]. lia.
    + cbn [forallb]. rewrite <- Heq, Hb. exact Hbytes.
Qed.

Lemma pack_adpcm_spec (n : nat) (codes : list Z) :
  length codes = (2 * n)%nat -> Forall is_code codes ->
  pack_adpcm codes = Ok (spec_pack codes) /\ length (spec_pack codes) = n.
Proof.
  intros Hlen Hall.
  destruct (pack_pairs_spec n codes Hlen Hall) as (Hp & Hl & Hb).
  unfold pack_adpcm. rewrite Hp, bind_Ok. unfold py_bytes. rewrite Hb. auto.
Qed.

Lemma half_of_blocks (m : nat) :
  (m mod 512 = 0)%nat -> (m = 2 * (m / 2) /\ (m / 2) mod 256 = 0)%nat.
Proof.
  intros Hm.
  apply Nat.Div0.div_exact in Hm.
  set (q := (m / 512)%nat) in *.
  assert (Hhalf : (m / 2 = 256 * q)%nat).
  { rewrite Hm. replace (512 * q)%nat with ((256 * q) * 2)%nat by lia.
    apply Nat.div_mul. lia. }
  rewrite Hhalf. split; [lia|].
  rewrite Nat.mul_comm. apply Nat.Div0.mod_mul.
Qed.

(** C4. Both encoders append [k < 512] zero samples so that the length is
    a multiple of 512 and encode the padded list, so they emit that many
    4-bit codes; [pack_adpcm] turns them into half as many bytes, a multiple
    of 256, byte [i] holding code [2i] in its high nibble and code [2i+1]
    in its low nibble. *)
Theorem encode_pads_and_packs (samples : list Z) :
  exists (k : nat) codesA stA codesB stB,
    (k < 512)%nat /\ ((length samples + k) mod 512 = 0)%nat /\
    pad512 samples = samples ++ replicate k 0 /\
    list_comp_st ADPCM_A._encode_sample (samples ++ replicate k 0) ADPCM_A.reset
      = Ok (codesA, stA) /\
    ADPCM_A.encode samples = Ok codesA /\
    list_comp_st ADPCM_B._encode_sample (samples ++ replicate k 0) ADPCM_B.reset
      = Ok (codesB, stB) /\
    ADPCM_B.encode samples = Ok codesB /\
    length codesA = (length samples + k)%nat /\
    length codesB = (length samples + k)%nat /\
    Forall is_code codesA /\ Forall is_code codesB /\
    pack_adpcm codesA = Ok (spec_pack codesA) /\
    pack_adpcm codesB = Ok (spec_pack codesB) /\
    length (spec_pack codesA) = ((length samples + k) / 2)%nat /\
    length (spec_pack codesB) = ((length samples + k) / 2)%nat /\
    (((length samples + k) / 2) mod 256 = 0)%nat.
Proof.
  destruct (pad_amount samples) as (k & Hk & Hpad & _ & Hmod).
  assert (Hpad512 : pad512 samples = samples ++ replicate k 0)
    by (unfold pad512; rewrite Hpad; reflexivity).
  destruct (encode_A_stream (samples ++ replicate k 0) _ reset_A_valid)
    as (codesA & stA & HA & _ & HlenA & HcA).
  destruct (encode_B_stream (samples ++ replicate k 0) _ reset_B_valid)
    as (codesB & stB & HB & _ & HlenB & HcB).
  rewrite length_app, length_replicate in HlenA, HlenB.
  destruct (half_of_blocks _ Hmod) as [Heven H256].
  destruct (pack_adpcm_spec _ codesA (eq_trans HlenA Heven) HcA) as [HpA HlA].
  destruct (pack_adpcm_spec _ codesB (eq_trans HlenB Heven) HcB) as [HpB HlB].
  exists k, codesA, stA, codesB, stB.
  repeat split; try assumption.
  - unfold ADPCM_A.encode. rewrite Hpad512, HA. reflexivity.
  - unfold ADPCM_B.encode. rewrite Hpad512, HB. reflexivity.
Qed.


(** ** Audio addresses *)



























(** ** Sprite tiles *)

Lemma land_shiftr_bit (px k : Z) : 0 <= k -> Z.land (Z.shiftr px k) 1 = plane_bit px k.
Proof.
  intros Hk. unfold plane_bit. rewrite Z.shiftr_div_pow2 by lia.
  change 1 with (Z.ones 1). rewrite Z.land_ones by lia. reflexivity.
Qed.

Lemma plane_bit_01 (px k : Z) : plane_bit px k = 0 \/ plane_bit px k = 1.
Proof. unfold plane_bit. pose proof (Z.mod_pos_bound (px / 2 ^ k) 2). lia. Qed.

Lemma lor_shiftl_bit (acc b i : Z) :
  0 <= i -> 0 <= acc < 2 ^ i -> b = 0 \/ b = 1 ->
  Z.lor acc (Z.shiftl b i) = acc + b * 2 ^ i.
Proof.
  intros Hi Hacc [-> | ->].
  - rewrite Z.shiftl_0_l, Z.lor_0_r. lia.
  - rewrite Z.shiftl_mul_pow2 by lia. symmetry. apply Z.add_nocarry_lor.
    rewrite Z.mul_1_l. apply Z.bits_inj'. intros n Hn.
    rewrite Z.land_spec, Z.bits_0, Z.pow2_bits_eqb by lia.
    destruct (Z.eqb_spec i n) as [<-|Hne]; [|apply andb_false_r].
    rewrite andb_true_r.
    destruct (Z.eq_dec acc 0) as [->|Hnz]; [apply Z.bits_0|].
    apply Z.bits_above_log2; [lia|]. apply Z.log2_lt_pow2; lia.
Qed.

Lemma weigh_bound (n : nat) (k : Z) (l : list Z) :
  0 <= weigh n k l /\ weigh n k l + 2 ^ Z.of_nat n <= 2 ^ Z.of_nat (n + length l).
Proof.
  revert n. induction l as [|px l IH]; intros n; cbn [weigh length].
  - rewrite Nat.add_0_r. lia.
  - destruct (IH (S n)) as [Hlo Hhi].
    replace (n + S (length l))%nat with (S n + length l)%nat by lia.
    assert (Hpow : 2 ^ Z.of_nat (S n) = 2 * 2 ^ Z.of_nat n).
    { rewrite Nat2Z.inj_succ, Z.pow_succ_r by lia. reflexivity. }
    assert (0 < 2 ^ Z.of_nat n) by (apply Z.pow_pos_nonneg; lia).
    destruct (plane_bit_01 px k) as [-> | ->]; lia.
Qed.

Lemma bitplanes_fold (n : nat) (l : list Z) (a0 a1 a2 a3 : Z) :
  0 <= a0 < 2 ^ Z.of_nat n -> 0 <= a1 < 2 ^ Z.of_nat n ->
  0 <= a2 < 2 ^ Z.of_nat n -> 0 <= a3 < 2 ^ Z.of_nat n ->
  fold_left bitplane_step (imap (fun i x => (Z.of_nat (n + i), x)) l) (a0, a1, a2, a3)
  = (a0 + weigh n 0 l, a1 + weigh n 1 l, a2 + weigh n 2 l, a3 + weigh n 3 l).
Proof.
  revert n a0 a1 a2 a3. induction l as [|px l IH]; intros n a0 a1 a2 a3 H0 H1 H2 H3.
  - cbn [imap fold_left weigh]. rewrite !Z.add_0_r. reflexivity.
  - cbn [imap fold_left weigh]. rewrite Nat.add_0_r.
    unfold bitplane_step at 2.
    rewrite !land_shiftr_bit by lia.
    rewrite !lor_shiftl_bit by (try lia; apply plane_bit_01).
    assert (Himap : imap ((fun i x => (Z.of_nat (n + i), x)) ∘ S) l
                    = imap (fun i x => (Z.of_nat (S n + i), x)) l).
    { apply imap_ext. intros i x _. unfold compose.
      replace (n + S i)%nat with (S n + i)%nat by lia. reflexivity. }
    rewrite Himap.
    assert (Hpow : 2 ^ Z.of_nat (S n) = 2 * 2 ^ Z.of_nat n).
    { rewrite Nat2Z.inj_succ, Z.pow_succ_r by lia. reflexivity. }
    rewrite (IH (S n)).
    + rewrite !Z.add_assoc. reflexivity.
    + destruct (plane_bit_01 px 0) as [-> | ->]; lia.
    + destruct (plane_bit_01 px 1) as [-> | ->]; lia.
    + destruct (plane_bit_01 px 2) as [-> | ->]; lia.
    + destruct (plane_bit_01 px 3) as [-> | ->]; lia.
Qed.

Lemma bitplanes_weigh (pixels : list Z) :
  bitplanes pixels = (weigh 0 0 pixels, weigh 0 1 pixels, weigh 0 2 pixels, weigh 0 3 pixels).
Proof.
  unfold bitplanes, enumerate.
  exact (bitplanes_fold 0 pixels 0 0 0 0 ltac:(simpl; lia) ltac:(simpl; lia)
           ltac:(simpl; lia) ltac:(simpl; lia)).
Qed.

Lemma py_index_total `{Inhabited A} (l : list A) (i : Z) :
  0 <= i < len l -> py_index l i = Ok (l !!! Z.to_nat i).
Proof.
  intros [Hlo Hhi]. unfold py_index, len in *.
  destruct (i <? 0) eqn:Hneg; [lia|]. rewrite Hneg.
  destruct (l !! Z.to_nat i) as [x|] eqn:Hx.
  - by rewrite (list_lookup_total_correct _ _ _ Hx).
  - apply lookup_ge_None in Hx. lia.
Qed.

Lemma list_comp_fmap {A B} (f : A -> result B) (g : A -> B) (xs : list A) :
  (forall x, x ∈ xs -> f x = Ok (g x)) -> list_comp f xs = Ok (g <$> xs).
Proof.
  induction xs as [|x xs IH]; intros Hf; [reflexivity|].
  cbn [list_comp]. rewrite (Hf x) by apply list_elem_of_here. rewrite bind_Ok.
  rewrite IH by (intros y Hy; apply Hf, list_elem_of_further, Hy).
  reflexivity.
Qed.

Lemma pixel_lookup (tile : list (list Z)) (x y : Z) :
  tile_grid tile -> 0 <= x < 16 -> 0 <= y < 16 ->
  (tile_row ← py_index tile y; py_index tile_row x) = Ok (pixel_at tile x y).
Proof.
  intros [Hlen Hrows] Hx Hy.
  rewrite py_index_total by (unfold len; lia). rewrite bind_Ok.
  assert (Hrow : length (tile !!! Z.to_nat y) = 16%nat).
  { rewrite Forall_lookup in Hrows. apply (Hrows (Z.to_nat y)).
    apply list_lookup_lookup_total_lt. lia. }
  rewrite py_index_total by (unfold len; lia). reflexivity.
Qed.

Lemma row_pixels_grid (tile : list (list Z)) (bx by_ row : Z) :
  tile_grid tile -> 0 <= bx <= 8 -> 0 <= by_ + row < 16 ->
  row_pixels tile bx by_ row
  = Ok ((fun col => pixel_at tile (bx + (7 - col)) (by_ + row)) <$> seqZ 0 8).
Proof.
  intros Hgrid Hbx Hy. unfold row_pixels. apply list_comp_fmap.
  intros col Hcol. apply elem_of_seqZ in Hcol. cbv zeta.
  apply pixel_lookup; [exact Hgrid|lia|exact Hy].
Qed.

Lemma weigh_row (tile : list (list Z)) (bx y k : Z) :
  weigh 0 k ((fun col => pixel_at tile (bx + (7 - col)) y) <$> seqZ 0 8)
  = spec_row_byte tile bx y k.
Proof.
  unfold spec_row_byte.
  change (seqZ 0 8) with [0; 1; 2; 3; 4; 5; 6; 7].
  cbn [fmap list_fmap weigh foldr].
  fold_consts. rewrite Z.add_0_r. lia.
Qed.

Lemma spec_row_byte_is_byte (tile : list (list Z)) (bx y k : Z) :
  is_byte (spec_row_byte tile bx y k) = true.
Proof.
  rewrite <- weigh_row.
  pose proof (weigh_bound 0 k ((fun col => pixel_at tile (bx + (7 - col)) y) <$> seqZ 0 8))
    as [Hlo Hhi].
  rewrite length_fmap in Hhi. change (length (seqZ 0 8)) with 8%nat in Hhi.
  change (2 ^ Z.of_nat (0 + 8)) with 256 in Hhi. change (2 ^ Z.of_nat 0) with 1 in Hhi.
  unfold is_byte. apply andb_true_iff. split; [apply Z.leb_le|apply Z.ltb_lt]; lia.
Qed.

Lemma bytearray_set_mid (pre : list Z) (x : Z) (post : list Z) (i v : Z) :
  i = len pre -> is_byte v = true ->
  bytearray_set (pre ++ x :: post) i v = Ok (pre ++ v :: post).
Proof.
  intros -> Hv. unfold bytearray_set, len. rewrite length_app. cbn [length].
  destruct (Z.ltb_spec (Z.of_nat (length pre)) 0) as [Hneg|_]; [lia|].
  destruct (Z.ltb_spec (Z.of_nat (length pre)) 0) as [Hneg|_]; [lia|].
  destruct (Z.leb_spec (Z.of_nat (length pre + S (length post))) (Z.of_nat (length pre)))
    as [Hbad|_]; [lia|].
  cbn [orb]. rewrite Hv, Nat2Z.id.
  rewrite insert_app_r_alt by lia. rewrite Nat.sub_diag. reflexivity.
Qed.

Lemma crom_row_step (tile : list (list Z)) (bx by_ row : Z)
    (d1 d2 rest1 rest2 : list Z) (x1 y1 x2 y2 : Z) :
  tile_grid tile -> 0 <= bx <= 8 -> 0 <= by_ + row < 16 -> length d2 = length d1 ->
  crom_row tile bx by_
    {| c1_data := d1 ++ x1 :: y1 :: rest1; c2_data := d2 ++ x2 :: y2 :: rest2;
       byte_idx := len d1 |} row
  = Ok {| c1_data := (d1 ++ row_pair tile 0 1 bx by_ row) ++ rest1;
          c2_data := (d2 ++ row_pair tile 2 3 bx by_ row) ++ rest2;
          byte_idx := len d1 + 2 |}.
Proof.
  intros Hgrid Hbx Hy Hlen. unfold crom_row.
  rewrite (row_pixels_grid tile bx by_ row Hgrid Hbx Hy), bind_Ok.
  rewrite bitplanes_weigh, !weigh_row.
  cbn [c1_data c2_data byte_idx].
  rewrite (bytearray_set_mid d1 x1 (y1 :: rest1)) by
    (try reflexivity; apply spec_row_byte_is_byte).
  rewrite bind_Ok.
  replace (d1 ++ spec_row_byte tile bx (by_ + row) 0 :: y1 :: rest1)
    with ((d1 ++ [spec_row_byte tile bx (by_ + row) 0]) ++ y1 :: rest1)
    by (rewrite <- app_assoc; reflexivity).
  rewrite (bytearray_set_mid _ y1 rest1) by
    (try apply spec_row_byte_is_byte; unfold len; rewrite length_app; cbn [length]; lia).
  rewrite bind_Ok.
  rewrite (bytearray_set_mid d2 x2 (y2 :: rest2)) by
    (try apply spec_row_byte_is_byte; unfold len; lia).
  rewrite bind_Ok.
  replace (d2 ++ spec_row_byte tile bx (by_ + row) 2 :: y2 :: rest2)
    with ((d2 ++ [spec_row_byte tile bx (by_ + row) 2]) ++ y2 :: rest2)
    by (rewrite <- app_assoc; reflexivity).
  rewrite (bytearray_set_mid _ y2 rest2) by
    (try apply spec_row_byte_is_byte; unfold len; rewrite length_app; cbn [length]; lia).
  rewrite bind_Ok. unfold row_pair.
  rewrite <- !app_assoc. reflexivity.
Qed.

Lemma crom_rows (tile : list (list Z)) (bx by_ : Z) (rows : list Z) :
  tile_grid tile -> 0 <= bx <= 8 -> Forall (fun r => 0 <= by_ + r < 16) rows ->
  forall (d1 d2 : list Z) (m : nat), length d2 = length d1 ->
  for_each (crom_row tile bx by_) rows
    {| c1_data := d1 ++ replicate (2 * length rows + m) 0;
       c2_data := d2 ++ replicate (2 * length rows + m) 0;
       byte_idx := len d1 |}
  = Ok {| c1_data := (d1 ++ mjoin (row_pair tile 0 1 bx by_ <$> rows)) ++ replicate m 0;
          c2_data := (d2 ++ mjoin (row_pair tile 2 3 bx by_ <$> rows)) ++ replicate m 0;
          byte_idx := len d1 + 2 * len rows |}.
Proof.
  intros Hgrid Hbx Hrows. induction Hrows as [|r rows Hr Hrows IH]; intros d1 d2 m Hlen.
  - cbn [for_each length fmap list_fmap mjoin list_join]. rewrite !app_nil_r.
    unfold len at 2. cbn [length]. rewrite Z.add_0_r. reflexivity.
  - cbn [for_each length].
    replace (2 * S (length rows) + m)%nat with (S (S (2 * length rows + m))) by lia.
    cbn [replicate].
    rewrite (crom_row_step tile bx by_ r d1 d2 _ _ 0 0 0 0 Hgrid Hbx Hr Hlen), bind_Ok.
    replace (len d1 + 2) with (len (d1 ++ row_pair tile 0 1 bx by_ r))
      by (unfold len; rewrite length_app; cbn [length row_pair]; lia).
    rewrite IH by (rewrite !length_app; cbn [length row_pair]; lia).
    cbn [fmap list_fmap mjoin list_join].
    rewrite <- !app_assoc. do 2 f_equal.
    unfold len. rewrite length_app. cbn [length row_pair]. lia.
Qed.

Lemma crom_blocks (tile : list (list Z)) (blks : list (Z * Z)) :
  tile_grid tile ->
  Forall (fun blk => 0 <= blk.1 <= 8 /\ 0 <= blk.2 <= 8) blks ->
  forall (d1 d2 : list Z) (m : nat), length d2 = length d1 ->
  for_each (crom_block tile) blks
    {| c1_data := d1 ++ replicate (16 * length blks + m) 0;
       c2_data := d2 ++ replicate (16 * length blks + m) 0;
       byte_idx := len d1 |}
  = Ok {| c1_data := (d1 ++ mjoin (block_bytes tile 0 1 <$> blks)) ++ replicate m 0;
          c2_data := (d2 ++ mjoin (block_bytes tile 2 3 <$> blks)) ++ replicate m 0;
          byte_idx := len d1 + 16 * len blks |}.
Proof.
  intros Hgrid Hblks.
  induction Hblks as [|[bx by_] blks [Hbx Hby] Hblks IH]; intros d1 d2 m Hlen.
  - cbn [for_each length fmap list_fmap mjoin list_join]. rewrite !app_nil_r.
    unfold len at 2. cbn [length]. rewrite Z.add_0_r. reflexivity.
  - cbn [for_each length crom_block]. cbn [fst snd] in Hbx, Hby.
    replace (16 * S (length blks) + m)%nat
      with (2 * length (seqZ 0 8) + (16 * length blks + m))%nat
      by (rewrite length_seqZ; lia).
    rewrite (crom_rows tile bx by_ (seqZ 0 8) Hgrid Hbx); [| |exact Hlen].
    2:{ apply Forall_forall. intros r Hr. apply elem_of_seqZ in Hr. lia. }
    rewrite bind_Ok.
    change (mjoin (row_pair tile 0 1 bx by_ <$> seqZ 0 8))
      with (block_bytes tile 0 1 (bx, by_)).
    change (mjoin (row_pair tile 2 3 bx by_ <$> seqZ 0 8))
      with (block_bytes tile 2 3 (bx, by_)).
    assert (Hbb : forall ke ko, length (block_bytes tile ke ko (bx, by_)) = 16%nat)
      by (intros; reflexivity).
    replace (len d1 + 2 * len (seqZ 0 8))
      with (len (d1 ++ block_bytes tile 0 1 (bx, by_)))
      by (unfold len; rewrite length_app, Hbb, length_seqZ; lia).
    rewrite IH by (rewrite !length_app, (Hbb 0 1), (Hbb 2 3); lia).
    cbn [fmap list_fmap mjoin list_join].
    rewrite <- !app_assoc. do 2 f_equal.
    unfold len. rewrite length_app, Hbb. cbn [length]. lia.
Qed.

Lemma spec_plane_blocks (tile : list (list Z)) (ke ko : Z) :
  spec_plane tile ke ko = mjoin (block_bytes tile ke ko <$> blocks).
Proof. reflexivity. Qed.

Lemma spec_plane_bytes (tile : list (list Z)) (ke ko : Z) :
  forallb is_byte (spec_plane tile ke ko) = true.
Proof.
  unfold spec_plane. change (seqZ 0 8) with [0; 1; 2; 3; 4; 5; 6; 7].
  cbn [fmap list_fmap mjoin list_join app forallb].
  rewrite !spec_row_byte_is_byte. reflexivity.
Qed.

(** C5. For a 16 by 16 grid [tile_to_crom] returns two 64-byte planes laid
    out as [spec_plane] says: the blocks top-left, bottom-left, top-right,
    bottom-right; in each the rows 0..7; per row the byte of bitplane 0
    then of bitplane 1 in plane A and of bitplane 2 then of bitplane 3 in
    plane B, column 7 of the block at bit 0 and column 0 at bit 7. The
    uniform tile of index 1 gives 0xFF,0x00 repeated in plane A and zeros
    in plane B. *)
Theorem sprite_tile_layout (tile : list (list Z)) :
  tile_grid tile ->
  tile_to_crom tile = Ok (spec_plane tile 0 1, spec_plane tile 2 3) /\
  length (spec_plane tile 0 1) = 64%nat /\
  length (spec_plane tile 2 3) = 64%nat /\
  tile_to_crom solid_tile = Ok (mjoin (replicate 32 [255; 0]), replicate 64 0).
Proof.
  intros Hgrid. split; [|split; [reflexivity|split; reflexivity]].
  unfold tile_to_crom.
  change (bytearray 64) with ([] ++ replicate (16 * length blocks + 0) 0).
  change 0 with (len (@nil Z)) at 3.
  rewrite (crom_blocks tile blocks Hgrid); [| |reflexivity].
  2:{ unfold blocks. repeat constructor; cbn [fst snd]; lia. }
  rewrite bind_Ok. cbn [c1_data c2_data replicate].
  rewrite !app_nil_r, !app_nil_l, <- !spec_plane_blocks.
  unfold py_bytes. rewrite !spec_plane_bytes, !bind_Ok. reflexivity.
Qed.

Lemma sprite_tile_layout_witness :
  tile_grid striped_tile /\
  tile_to_crom striped_tile = Ok (spec_plane striped_tile 0 1, spec_plane striped_tile 2 3).
Proof.
  assert (Hgrid : tile_grid striped_tile).
  { split; [reflexivity|]. unfold striped_tile. apply Forall_replicate. reflexivity. }
  split; [exact Hgrid|].
  exact (proj1 (sprite_tile_layout striped_tile Hgrid)).
Defined.

(** ** The palette registry *)

Lemma initial_registry_inv : registry_inv [] [] initial_registry.
Proof.
  unfold registry_inv, initial_registry. split; [|split; [|split]].
  - apply lookup_singleton_eq.
  - intros k name Hk. rewrite lookup_nil in Hk. discriminate.
  - intros name. rewrite lookup_singleton_is_Some. split.
    + intros <-. left. reflexivity.
    + intros [-> | Hin]; [reflexivity|]. apply elem_of_nil in Hin. contradiction.
  - intros name Hin. exact Hin.
Qed.

Lemma inv_counter_entry names seen (reg : gmap string regval) name n c seen' :
  registry_inv names seen reg -> name ∉ seen -> name <> NEXT_INDEX ->
  n = 2 + len names ->
  (forall x, x ∈ seen' <-> x = name \/ x ∈ seen) ->
  registry_inv (names ++ [name]) seen'
    (<[NEXT_INDEX := RInt (n + 1)]> (<[name := REntry n c]> reg)).
Proof.
  intros (Hnext & Hnames & Hdom & Hsub) Hfresh Hne -> Hseen'.
  split; [|split; [|split]].
  - rewrite lookup_insert_eq. unfold len. rewrite length_app. cbn [length].
    do 2 f_equal. lia.
  - intros k x Hk. apply lookup_app_Some in Hk as [Hk | [Hlen Hk]].
    + destruct (Hnames k x Hk) as [c' Hc'].
      assert (x <> NEXT_INDEX) by (intros ->; rewrite Hnext in Hc'; discriminate).
      assert (x <> name).
      { intros ->. apply Hfresh, Hsub. apply list_elem_of_lookup. eauto. }
      exists c'. rewrite !lookup_insert_ne by (intros Heq; symmetry in Heq; contradiction). exact Hc'.
    + apply list_lookup_singleton_Some in Hk as [Hk0 <-].
      exists c. rewrite lookup_insert_ne by (intros Heq; symmetry in Heq; contradiction). rewrite lookup_insert_eq.
      unfold len. do 2 f_equal. lia.
  - intros x. rewrite Hseen'. rewrite !lookup_insert_is_Some, Hdom.
    destruct (decide (x = NEXT_INDEX)) as [Hx|Hx]; destruct (decide (x = name)) as [Hy|Hy];
      intuition congruence.
  - intros x Hx. apply Hseen'. apply elem_of_app in Hx as [Hx | Hx].
    + right. apply Hsub, Hx.
    + left. apply list_elem_of_singleton in Hx. exact Hx.
Qed.

Lemma inv_direct_entry names seen (reg : gmap string regval) name n c seen' :
  registry_inv names seen reg -> reg !! name = None ->
  (forall x, x ∈ seen' <-> x = name \/ x ∈ seen) ->
  registry_inv names seen' (<[name := REntry n c]> reg).
Proof.
  intros (Hnext & Hnames & Hdom & Hsub) Hnone Hseen'.
  assert (Hne : name <> NEXT_INDEX) by (intros ->; rewrite Hnext in Hnone; discriminate).
  split; [|split; [|split]].
  - rewrite lookup_insert_ne by exact Hne. exact Hnext.
  - intros k x Hk. destruct (Hnames k x Hk) as [c' Hc'].
    exists c'. rewrite lookup_insert_ne; [exact Hc'|].
    intros ->. rewrite Hnone in Hc'. discriminate.
  - intros x. rewrite Hseen', lookup_insert_is_Some, Hdom.
    destruct (decide (x = name)) as [Hx|Hx]; intuition congruence.
  - intros x Hx. apply Hseen'. right. apply Hsub, Hx.
Qed.

Lemma inv_seen_again names seen (reg : gmap string regval) name seen' :
  registry_inv names seen reg -> is_Some (reg !! name) ->
  (forall x, x ∈ seen' <-> x = name \/ x ∈ seen) ->
  registry_inv names seen' reg.
Proof.
  intros (Hnext & Hnames & Hdom & Hsub) Hsome Hseen'.
  split; [exact Hnext|split; [exact Hnames|split]].
  - intros x. rewrite Hseen', Hdom. split.
    + intros [?|?]; auto.
    + intros [?|[->|?]]; auto. apply Hdom, Hsome.
  - intros x Hx. apply Hseen'. right. apply Hsub, Hx.
Qed.

Lemma seen_cons (name : string) (seen : list string) :
  forall x, x ∈ name :: seen <-> x = name \/ x ∈ seen.
Proof. intros x. apply elem_of_cons. Qed.

Lemma seen_snoc (name : string) (seen : list string) :
  forall x, x ∈ seen ++ [name] <-> x = name \/ x ∈ seen.
Proof.
  intros x. rewrite elem_of_app, list_elem_of_singleton. tauto.
Qed.

Lemma next_index_inv names seen (reg : gmap string regval) :
  registry_inv names seen reg -> next_index reg = Ok (2 + len names).
Proof. intros (Hnext & _). unfold next_index. rewrite Hnext. reflexivity. Qed.

(** A counter assignment that succeeds is for a name other than the counter's key. *)
Lemma counter_assignment names seen (reg reg' : gmap string regval) name c :
  registry_inv names seen reg ->
  (idx ← next_index reg; bump_next_index (<[name := REntry idx c]> reg)) = Ok reg' ->
  name <> NEXT_INDEX /\
  reg' = <[NEXT_INDEX := RInt (2 + len names + 1)]>
           (<[name := REntry (2 + len names) c]> reg).
Proof.
  intros Hinv. rewrite (next_index_inv _ _ _ Hinv), bind_Ok.
  unfold bump_next_index, next_index.
  destruct (decide (name = NEXT_INDEX)) as [->|Hne].
  - rewrite lookup_insert_eq. discriminate.
  - rewrite lookup_insert_ne by exact Hne.
    destruct Hinv as (-> & _). rewrite bind_Ok. intros [= <-]. auto.
Qed.

Lemma register_explicit_inv names seen (reg reg' : gmap string regval) pal_name colors :
  registry_inv names seen reg -> pal_name ∉ seen ->
  register_explicit reg (pal_name, colors) = Ok reg' ->
  registry_inv (names ++ [pal_name]) (seen ++ [pal_name]) reg'.
Proof.
  intros Hinv Hfresh Hrun. unfold register_explicit in Hrun.
  destruct (counter_assignment _ _ _ _ _ _ Hinv Hrun) as [Hne ->].
  apply (inv_counter_entry names seen); auto using seen_snoc.
Qed.

Lemma explicit_loop_inv (pals : list (string * palette)) :
  forall names seen (reg reg' : gmap string regval),
  registry_inv names seen reg -> NoDup pals.*1 ->
  (forall x, x ∈ pals.*1 -> x ∉ seen) ->
  for_each register_explicit pals reg = Ok reg' ->
  registry_inv (names ++ pals.*1) (seen ++ pals.*1) reg'.
Proof.
  induction pals as [|[pal_name colors] pals IH];
    intros names seen reg reg' Hinv Hnodup Hfresh Hrun.
  - cbn in *. injection Hrun as <-. rewrite !app_nil_r. exact Hinv.
  - cbn [for_each] in Hrun.
    destruct (register_explicit reg (pal_name, colors)) as [reg1|e] eqn:Hstep;
      [|discriminate].
    rewrite bind_Ok in Hrun. cbn [fmap list_fmap fst] in *.
    apply NoDup_cons in Hnodup as [Hnotin Hnodup].
    assert (Hinv1 := register_explicit_inv _ _ _ _ _ _ Hinv
                       (Hfresh pal_name (list_elem_of_here _ _)) Hstep).
    rewrite (cons_middle pal_name names), (cons_middle pal_name seen), !app_assoc.
    apply (IH _ _ reg1 reg' Hinv1 Hnodup); [|exact Hrun].
    intros x Hx Hin. apply elem_of_app in Hin as [Hin|Hin].
    + exact (Hfresh x (list_elem_of_further _ _ _ Hx) Hin).
    + apply list_elem_of_singleton in Hin as ->. exact (Hnotin Hx).
Qed.

Lemma entry_index_Ok (reg : gmap string regval) (name : string) (i : Z) :
  entry_index reg name = Ok i -> exists c, reg !! name = Some (REntry i c).
Proof.
  unfold entry_index. destruct (reg !! name) as [[n|j c]|]; try discriminate.
  intros [= <-]. eauto.
Qed.

Lemma entry_seen names seen (reg : gmap string regval) name i c :
  registry_inv names seen reg -> reg !! name = Some (REntry i c) -> name ∈ seen.
Proof.
  intros (Hnext & _ & Hdom & _) Hentry.
  destruct (proj1 (Hdom name) (mk_is_Some _ _ Hentry)) as [-> | Hin]; [|exact Hin].
  rewrite Hnext in Hentry. discriminate.
Qed.

Lemma absent_unseen names seen (reg : gmap string regval) name :
  registry_inv names seen reg -> ~ is_Some (reg !! name) ->
  (name ∉ seen) /\ reg !! name = None.
Proof.
  intros (_ & _ & Hdom & _) Hnone. split.
  - intros Hin. apply Hnone, Hdom. right. exact Hin.
  - destruct (reg !! name) eqn:H; [|reflexivity]. exfalso. apply Hnone. eauto.
Qed.

Lemma visual_loop_inv (assets : list visual_def) :
  forall names seen (reg : gmap string regval) idxs reg' idxs',
  registry_inv names seen reg ->
  for_each register_visual assets (reg, idxs) = Ok (reg', idxs') ->
  exists seen', registry_inv (names ++ counter_names seen assets) seen' reg'.
Proof.
  induction assets as [|[name pref built] rest IH];
    intros names seen reg idxs reg' idxs' Hinv Hrun.
  - cbn in Hrun. injection Hrun as <- <-. exists seen. rewrite app_nil_r. exact Hinv.
  - cbn [for_each] in Hrun.
    destruct (register_visual (reg, idxs) (Visual name pref built))
      as [[reg1 idxs1]|e] eqn:Hstep; [|discriminate].
    rewrite bind_Ok in Hrun.
    unfold register_visual in Hstep. cbn [visual_name visual_palette visual_built] in Hstep.
    destruct (resolve_palette name pref built reg) as [[reg1' [[pn pal] pidx]]|e] eqn:Hres;
      [|discriminate].
    rewrite bind_Ok in Hstep. injection Hstep as <- <-.
    unfold resolve_palette in Hres. cbn [counter_names visual_name visual_palette].
    destruct pref as [|ref|n|].
    + destruct (decide (is_Some (reg !! name))) as [Hsome|Hnone].
      * rewrite bind_Ok in Hres.
        destruct (entry_index reg name) as [i|e] eqn:Hidx; [|discriminate].
        rewrite bind_Ok in Hres. injection Hres as <- _ _ _.
        destruct (entry_index_Ok _ _ _ Hidx) as [c Hc].
        rewrite decide_True by exact (entry_seen _ _ _ _ _ _ Hinv Hc).
        exact (IH _ _ _ _ _ _ Hinv Hrun).
      * destruct (absent_unseen _ _ _ _ Hinv Hnone) as [Hunseen Hlook].
        rewrite decide_False by exact Hunseen.
        destruct (idx ← next_index reg; bump_next_index (<[name:=REntry idx built]> reg))
          as [reg2|e] eqn:Hassign; [|discriminate].
        rewrite bind_Ok in Hres.
        destruct (entry_index reg2 name) as [i|e] eqn:Hidx; [|discriminate].
        rewrite bind_Ok in Hres. injection Hres as <- _ _ _.
        destruct (counter_assignment _ _ _ _ _ _ Hinv Hassign) as [Hne ->].
        rewrite (cons_middle name names), app_assoc.
        refine (IH _ (name :: seen) _ _ _ _ _ Hrun).
        apply (inv_counter_entry names seen); auto using seen_cons.
    + destruct (decide (is_Some (reg !! ref))) as [Hsome|Hnone]; [|discriminate].
      destruct (entry_colors reg ref) as [c|e]; [|discriminate]. rewrite bind_Ok in Hres.
      destruct (entry_index reg ref) as [i|e]; [|discriminate]. rewrite bind_Ok in Hres.
      injection Hres as <- _ _ _. exact (IH _ _ _ _ _ _ Hinv Hrun).
    + injection Hres as <- _ _ _.
      destruct (decide (is_Some (reg !! name))) as [Hsome|Hnone].
      * refine (IH _ (name :: seen) _ _ _ _ _ Hrun).
        apply (inv_seen_again names seen _ name); auto using seen_cons.
      * destruct (absent_unseen _ _ _ _ Hinv Hnone) as [Hunseen Hlook].
        refine (IH _ (name :: seen) _ _ _ _ _ Hrun).
        apply (inv_direct_entry names seen); auto using seen_cons.
    + discriminate.
Qed.

Lemma counter_names_fresh (assets : list visual_def) :
  forall seen, NoDup (counter_names seen assets) /\
               (forall x, x ∈ counter_names seen assets -> x ∉ seen).
Proof.
  induction assets as [|[name pref built] rest IH]; intros seen.
  - cbn. split; [constructor|]. intros x Hx. apply elem_of_nil in Hx. contradiction.
  - cbn [counter_names visual_name visual_palette]. destruct pref as [|ref|n|]; try apply IH.
    + destruct (decide (name ∈ seen)) as [Hin|Hout]; [apply IH|].
      destruct (IH (name :: seen)) as [Hnd Hfresh]. split.
      * apply NoDup_cons. split; [|exact Hnd].
        intros Hin. apply (Hfresh name Hin), list_elem_of_here.
      * intros x Hx. apply elem_of_cons in Hx as [->|Hx]; [exact Hout|].
        intros Hin. apply (Hfresh x Hx), list_elem_of_further, Hin.
    + destruct (IH (name :: seen)) as [Hnd Hfresh]. split; [exact Hnd|].
      intros x Hx Hin. apply (Hfresh x Hx), list_elem_of_further, Hin.
Qed.

Lemma resolve_keeps_entries name pref built (reg reg1 : gmap string regval) r x i c :
  resolve_palette name pref built reg = Ok (reg1, r) ->
  reg !! x = Some (REntry i c) -> reg1 !! x = Some (REntry i c).
Proof.
  intros Hres Hx. unfold resolve_palette in Hres. destruct pref as [|ref|n|].
  - destruct (decide (is_Some (reg !! name))) as [Hsome|Hnone].
    + rewrite bind_Ok in Hres. destruct (entry_index reg name); [|discriminate].
      rewrite bind_Ok in Hres. injection Hres as <- _. exact Hx.
    + unfold next_index, bump_next_index, next_index in Hres.
      destruct (reg !! NEXT_INDEX) as [[k|j c']|] eqn:Hnext; try discriminate.
      rewrite bind_Ok in Hres.
      assert (Hne : name <> NEXT_INDEX).
      { intros ->. apply Hnone. rewrite Hnext. eauto. }
      rewrite lookup_insert_ne, Hnext, !bind_Ok in Hres by exact Hne.
      destruct (entry_index _ name); [|discriminate].
      rewrite bind_Ok in Hres. injection Hres as <- _.
      rewrite !lookup_insert_ne; [exact Hx| |].
      * intros ->. apply Hnone. rewrite Hx. eauto.
      * intros <-. rewrite Hnext in Hx. discriminate.
  - destruct (decide (is_Some (reg !! ref))); [|discriminate].
    destruct (entry_colors reg ref); [|discriminate]. rewrite bind_Ok in Hres.
    destruct (entry_index reg ref); [|discriminate]. rewrite bind_Ok in Hres.
    injection Hres as <- _. exact Hx.
  - injection Hres as <- _.
    destruct (decide (is_Some (reg !! name))) as [Hsome|Hnone]; [exact Hx|].
    rewrite lookup_insert_ne; [exact Hx|].
    intros ->. apply Hnone. rewrite Hx. eauto.
  - discriminate.
Qed.

Lemma visual_loop_keeps_entries (assets : list visual_def) :
  forall (reg : gmap string regval) idxs reg' idxs' x i c,
  for_each register_visual assets (reg, idxs) = Ok (reg', idxs') ->
  reg !! x = Some (REntry i c) -> reg' !! x = Some (REntry i c).
Proof.
  induction assets as [|a rest IH]; intros reg idxs reg' idxs' x i c Hrun Hx.
  - cbn in Hrun. injection Hrun as <- _. exact Hx.
  - cbn [for_each] in Hrun.
    destruct (register_visual (reg, idxs) a) as [[reg1 idxs1]|e] eqn:Hstep; [|discriminate].
    rewrite bind_Ok in Hrun. unfold register_visual in Hstep.
    destruct (resolve_palette _ _ _ reg) as [[reg1' [[pn pal] pidx]]|e] eqn:Hres;
      [|discriminate].
    rewrite bind_Ok in Hstep. injection Hstep as <- <-.
    exact (IH _ _ _ _ _ _ _ Hrun (resolve_keeps_entries _ _ _ _ _ _ _ _ _ Hres Hx)).
Qed.

Lemma resolve_registered (reg : gmap string regval) name i c :
  reg !! name = Some (REntry i c) ->
  (forall built, resolve_palette name PalNone built reg = Ok (reg, (name, built, i))) /\
  (forall built n, resolve_palette name (PalInt n) built reg = Ok (reg, (name, built, n))) /\
  (forall other built,
     resolve_palette other (PalStr name) built reg = Ok (reg, (name, c, i))).
Proof.
  intros Hentry.
  assert (Hsome : is_Some (reg !! name)) by (rewrite Hentry; eauto).
  unfold resolve_palette, entry_index, entry_colors.
  repeat split; intros; rewrite decide_True by exact Hsome;
    rewrite ?bind_Ok, ?Hentry, ?bind_Ok, ?Hentry; reflexivity.
Qed.

(** C7. After the explicit palettes and the visual assets are processed,
    the names that took a counter value hold, in the order of their first
    registration, the indices 2, 3, 4, ... and the counter is 2 plus their
    number; they are pairwise distinct. Resolving a name that has an entry
    again, by any path, returns the registry unchanged (entry and counter),
    and no later registration changes the entry. *)
Theorem palette_registry_stable (palettes_config : list (string * palette))
    (visual_assets : list visual_def) (reg : gmap string regval) (idxs : list Z) :
  NoDup palettes_config.*1 ->
  main_palettes palettes_config visual_assets = Ok (reg, idxs) ->
  let names := palettes_config.*1 ++ counter_names palettes_config.*1 visual_assets in
  reg !! NEXT_INDEX = Some (RInt (2 + len names)) /\
  (forall (k : nat) (name : string), names !! k = Some name ->
     exists c, reg !! name = Some (REntry (2 + Z.of_nat k) c)) /\
  NoDup names /\
  (forall name i c, reg !! name = Some (REntry i c) ->
     (forall built, resolve_palette name PalNone built reg = Ok (reg, (name, built, i))) /\
     (forall built n,
        resolve_palette name (PalInt n) built reg = Ok (reg, (name, built, n))) /\
     (forall other built,
        resolve_palette other (PalStr name) built reg = Ok (reg, (name, c, i)))) /\
  (forall more reg' idxs' name i c,
     reg !! name = Some (REntry i c) ->
     for_each register_visual more (reg, idxs) = Ok (reg', idxs') ->
     reg' !! name = Some (REntry i c)).
Proof.
  intros Hnodup Hrun names. unfold main_palettes in Hrun.
  destruct (for_each register_explicit palettes_config initial_registry)
    as [reg0|e] eqn:Hexplicit; [|discriminate].
  rewrite bind_Ok in Hrun.
  assert (Hinv0 : registry_inv palettes_config.*1 palettes_config.*1 reg0).
  { apply (explicit_loop_inv palettes_config [] [] _ _ initial_registry_inv Hnodup);
      [|exact Hexplicit].
    intros x _ Hin. apply elem_of_nil in Hin. contradiction. }
  destruct (visual_loop_inv _ _ _ _ _ _ _ Hinv0 Hrun) as (seen' & Hnext & Hnames & _).
  split; [exact Hnext|]. split; [exact Hnames|]. split; [|split].
  - apply NoDup_app. split; [exact Hnodup|].
    destruct (counter_names_fresh visual_assets palettes_config.*1) as [Hnd Hfresh].
    split; [|exact Hnd]. intros x Hx Hin. exact (Hfresh x Hin Hx).
  - intros name i c Hentry. exact (resolve_registered reg name i c Hentry).
  - intros more reg' idxs' name i c Hentry Hmore.
    exact (visual_loop_keeps_entries more _ _ _ _ _ _ _ Hmore Hentry).
Qed.

Lemma palette_registry_stable_witness :
  NoDup sample_palettes.*1 /\
  main_palettes sample_palettes sample_visuals = Ok (sample_registry, [3; 7; 3; 2; 7; 4]) /\
  sample_registry !! NEXT_INDEX = Some (RInt 5) /\
  exists c, sample_registry !! "orb" = Some (REntry 4 c).
Proof.
  assert (Hnodup : NoDup sample_palettes.*1) by (repeat constructor; set_solver).
  assert (Hrun : main_palettes sample_palettes sample_visuals
                 = Ok (sample_registry, [3; 7; 3; 2; 7; 4])) by (vm_compute; reflexivity).
  split; [exact Hnodup|]. split; [exact Hrun|].
  destruct (palette_registry_stable _ _ _ _ Hnodup Hrun) as (Hnext & Hnames & _).
  split; [exact Hnext|]. exact (Hnames 2%nat "orb" eq_refl).
Defined.

(** ** Tile grids and collision flags *)

Lemma lor_flags (a b : Z) : is_flags a -> is_flags b -> is_flags (Z.lor a b).
Proof.
  unfold is_flags. intros Ha Hb. split; [apply Z.lor_nonneg; lia|].
  destruct (Z.eq_dec (Z.lor a b) 0) as [->|Hnz]; [lia|].
  assert (Hpos : 0 < Z.lor a b) by (pose proof (proj2 (Z.lor_nonneg a b)); lia).
  change 128 with (2 ^ 7). apply Z.log2_lt_pow2; [exact Hpos|].
  rewrite Z.log2_lor by lia.
  destruct (Z.eq_dec a 0) as [->|Ha0]; destruct (Z.eq_dec b 0) as [->|Hb0];
    cbn [Z.log2]; try lia.
  - assert (Z.log2 b < 7) by (apply Z.log2_lt_pow2; lia). lia.
  - assert (Z.log2 a < 7) by (apply Z.log2_lt_pow2; lia). lia.
  - assert (Z.log2 a < 7) by (apply Z.log2_lt_pow2; lia).
    assert (Z.log2 b < 7) by (apply Z.log2_lt_pow2; lia). lia.
Qed.

Lemma flag_of_name_flags (name : string) : is_flags (flag_of_name name).
Proof. unfold is_flags, flag_of_name. repeat case_decide; lia. Qed.

Lemma is_flags_byte (v : Z) : is_flags v -> is_byte v = true.
Proof.
  unfold is_flags, is_byte. intros Hv.
  apply andb_true_iff. split; [apply Z.leb_le|apply Z.ltb_lt]; lia.
Qed.

Lemma py_bytes_Ok (l : list Z) : Forall (fun v => is_byte v = true) l -> py_bytes l = Ok l.
Proof.
  intros Hall. unfold py_bytes.
  replace (forallb is_byte l) with true; [reflexivity|].
  symmetry. apply forallb_forall. intros x Hx.
  rewrite Forall_forall in Hall. apply Hall, list_elem_of_In, Hx.
Qed.

Lemma get0_flags (m : gmap Z Z) (k : Z) : flags_map m -> is_flags (get0 m k).
Proof.
  intros Hm. unfold get0. destruct (m !! k) as [v|] eqn:Hk; cbn.
  - exact (Hm k v Hk).
  - unfold is_flags. lia.
Qed.

Lemma flags_map_insert (m : gmap Z Z) (k v : Z) :
  flags_map m -> is_flags v -> flags_map (<[k := v]> m).
Proof.
  intros Hm Hv k' v' Hk'. destruct (decide (k = k')) as [<-|Hne].
  - rewrite lookup_insert_eq in Hk'. injection Hk' as <-. exact Hv.
  - rewrite lookup_insert_ne in Hk' by exact Hne. exact (Hm k' v' Hk').
Qed.

Lemma flags_map_empty : flags_map ∅.
Proof. intros k v Hk. rewrite lookup_empty in Hk. discriminate. Qed.

Lemma len_fmap {A B} (f : A -> B) (l : list A) : len (f <$> l) = len l.
Proof. unfold len. rewrite length_fmap. reflexivity. Qed.

Section TmxFacts.
Variable lower : string -> string.

Lemma prop_flags_flags (props : list (string * string)) : is_flags (prop_flags lower props).
Proof.
  unfold prop_flags.
  assert (Hgen : forall acc, is_flags acc ->
    is_flags (fold_left (fun flags '(name, value) =>
      if is_true_value (lower value) then Z.lor flags (flag_of_name (lower name))
      else flags) props acc)).
  { induction props as [|[name value] props IH]; intros acc Hacc; [exact Hacc|].
    cbn [fold_left]. apply IH. destruct (is_true_value _); [|exact Hacc].
    apply lor_flags; [exact Hacc|apply flag_of_name_flags]. }
  apply Hgen. unfold is_flags. lia.
Qed.

Lemma tmx_collision_map_flags (tss : list (list tile_elem)) :
  flags_map (tmx_collision_map lower tss).
Proof.
  unfold tmx_collision_map.
  assert (Htile : forall m t, flags_map m -> flags_map (tile_collision lower m t)).
  { intros m t Hm. unfold tile_collision. destruct (tile_elem_props t) as [props|]; [|exact Hm].
    cbv zeta. destruct (_ =? 0); [exact Hm|].
    apply flags_map_insert; [exact Hm|apply prop_flags_flags]. }
  assert (Hts : forall ts m, flags_map m -> flags_map (fold_left (tile_collision lower) ts m)).
  { induction ts as [|t ts IH]; intros m Hm; [exact Hm|]. cbn [fold_left]. auto. }
  assert (Hgen : forall m, flags_map m ->
    flags_map (fold_left (fun m ts => fold_left (tile_collision lower) ts m) tss m)).
  { induction tss as [|ts tss IH]; intros m Hm; [exact Hm|]. cbn [fold_left]. auto. }
  apply Hgen, flags_map_empty.
Qed.

Lemma tile_data_bytes (gid : Z) (cs : list Z) :
  py_bytes ((fun t => Z.min 255 (Z.max 0 t))
              <$> ((fun tile_id => if tile_id =? 0 then 0 else tile_id - gid) <$> cs))
  = Ok (spec_tile_index gid <$> cs).
Proof.
  rewrite <- list_fmap_compose.
  assert (Heq : ((fun t => Z.min 255 (Z.max 0 t))
                   ∘ (fun tile_id => if tile_id =? 0 then 0 else tile_id - gid)) <$> cs
                = spec_tile_index gid <$> cs).
  { apply list_fmap_ext. intros _ c _. unfold compose, spec_tile_index, clamp.
    destruct (Z.eqb_spec c 0); case_decide; lia. }
  rewrite Heq.
  apply py_bytes_Ok, Forall_fmap, Forall_forall. intros c _.
  unfold spec_tile_index, clamp, is_byte. cbn.
  apply andb_true_iff. split; [apply Z.leb_le|apply Z.ltb_lt]; case_decide; lia.
Qed.

Lemma parse_tmx_file_cases (f : tmx_file) :
  if decide (len (cells f) = layer_width f * layer_height f) then
    exists collision_data,
      parse_tmx_file lower f
      = Ok (layer_width f, layer_height f, spec_tile_index (tileset_firstgid f) <$> cells f,
            collision_data, tileset_firstgid f)
  else parse_tmx_file lower f = Err NGResError.
Proof.
  unfold parse_tmx_file. cbv zeta.
  rewrite len_fmap.
  case_decide as Hlen.
  - rewrite (proj2 (Z.eqb_eq _ _) Hlen). cbn [negb].
    rewrite tile_data_bytes, bind_Ok.
    destruct (decide (tmx_collision_map lower (tilesets f) = ∅)) as [Hempty|Hsome].
    + rewrite bind_Ok. eauto.
    + rewrite py_bytes_Ok.
      * rewrite !bind_Ok. eauto.
      * apply Forall_fmap, Forall_forall. intros t _. cbn.
        apply is_flags_byte, get0_flags, tmx_collision_map_flags.
  - rewrite (proj2 (Z.eqb_neq _ _) Hlen). reflexivity.
Qed.

End TmxFacts.

(** C8. [parse_tmx_file] succeeds exactly when the number of cells is
    width times height, and fails with NGResError otherwise. When it
    succeeds the tile data has width times height bytes: 0 for a cell 0
    whatever the first-id offset, and the cell minus the offset clamped to
    [0, 255] for any other cell. *)
Theorem parse_tmx_tile_indices (lower : string -> string) (f : tmx_file) :
  ((exists r, parse_tmx_file lower f = Ok r) <->
   len (cells f) = layer_width f * layer_height f) /\
  (forall e, parse_tmx_file lower f = Err e -> e = NGResError) /\
  (forall w h tile_data collision_data gid,
     parse_tmx_file lower f = Ok (w, h, tile_data, collision_data, gid) ->
     w = layer_width f /\ h = layer_height f /\ len tile_data = w * h /\
     tile_data = spec_tile_index (tileset_firstgid f) <$> cells f /\
     Forall (fun b => 0 <= b <= 255) tile_data) /\
  (forall gid, spec_tile_index gid 0 = 0).
Proof.
  pose proof (parse_tmx_file_cases lower f) as Hcases.
  case_decide as Hlen.
  - destruct Hcases as [cd Hrun]. rewrite Hrun.
    split; [|split; [|split]].
    + split; [intros _; exact Hlen|eauto].
    + intros e He. discriminate.
    + intros w h tile_data cd' gid Heq. injection Heq as <- <- <- _ _.
      rewrite len_fmap. repeat split; try assumption.
      apply Forall_fmap, Forall_forall. intros c _. cbn.
      unfold spec_tile_index, clamp. case_decide; lia.
    + intros gid. reflexivity.
  - rewrite Hcases. split; [|split; [|split]].
    + split; [intros [r Hr]; discriminate|intros Heq; contradiction].
    + intros e He. injection He as <-. reflexivity.
    + intros w h tile_data cd gid Heq. discriminate.
    + intros gid. reflexivity.
Qed.

Lemma parse_tmx_tile_indices_witness :
  parse_tmx_file (fun s => s) sample_grid = Ok (3, 2, [0; 0; 1; 255; 0; 0], None, 5) /\
  len [0; 0; 1; 255; 0; 0] = 3 * 2 /\
  [0; 0; 1; 255; 0; 0] = spec_tile_index 5 <$> [0; 5; 6; 300; 2; 0].
Proof.
  assert (Hrun : parse_tmx_file (fun s => s) sample_grid
                 = Ok (3, 2, [0; 0; 1; 255; 0; 0], None, 5)) by (vm_compute; reflexivity).
  split; [exact Hrun|].
  destruct (parse_tmx_tile_indices (fun s => s) sample_grid) as (_ & _ & Hok & _).
  destruct (Hok _ _ _ _ _ Hrun) as (_ & _ & Hlen & Hdata & _).
  split; [exact Hlen|exact Hdata].
Defined.


Lemma lor_idem_r (a b : Z) : Z.lor (Z.lor a b) b = Z.lor a b.
Proof. rewrite <- Z.lor_assoc, Z.lor_diag. reflexivity. Qed.

Lemma override_indices (flag : Z) (idxs : list Z) :
  forall (m : gmap Z Z) (t : Z),
  get0 (fold_left (fun m idx => <[idx := Z.lor (get0 m idx) flag]> m) idxs m) t
  = if decide (t ∈ idxs) then Z.lor (get0 m t) flag else get0 m t.
Proof.
  induction idxs as [|idx idxs IH]; intros m t.
  - cbn [fold_left]. rewrite decide_False by apply not_elem_of_nil. reflexivity.
  - cbn [fold_left]. rewrite IH.
    destruct (decide (idx = t)) as [->|Hne].
    + rewrite (decide_True (P := t ∈ t :: idxs)) by apply list_elem_of_here.
      unfold get0 at 1 3. rewrite lookup_insert_eq. cbn [default].
      case_decide; [apply lor_idem_r|reflexivity].
    + unfold get0 at 1 3. rewrite lookup_insert_ne by exact Hne. fold (get0 m t).
      destruct (decide (t ∈ idxs)) as [Hin|Hout].
      * rewrite decide_True by (apply list_elem_of_further; exact Hin). reflexivity.
      * rewrite decide_False; [reflexivity|].
        intros Hin. apply elem_of_cons in Hin as [->|Hin]; [apply Hne; reflexivity|auto].
Qed.

Lemma override_entry_flags (m : gmap Z Z) (item : string * list Z) (t : Z) :
  get0 (override_entry m item) t
  = if decide (t ∈ item.2) then Z.lor (get0 m t) (flag_of_name item.1) else get0 m t.
Proof.
  destruct item as [ty idxs]. unfold override_entry. cbn [fst snd].
  destruct (Z.eqb_spec (flag_of_name ty) 0) as [Hzero|Hnz]; cbn [orb].
  - rewrite Hzero, Z.lor_0_r. case_decide; reflexivity.
  - case_bool_decide as Hnil.
    + subst idxs. rewrite decide_False by apply not_elem_of_nil. reflexivity.
    + apply override_indices.
Qed.

Lemma override_map_flags (config : list (string * list Z)) (t : Z) :
  get0 (override_map config) t = spec_override_flags config t.
Proof.
  unfold override_map, spec_override_flags.
  assert (Hgen : forall m,
    get0 (fold_left override_entry config m) t
    = fold_left (fun acc '(coll_type, tile_indices) =>
        if decide (t ∈ tile_indices) then Z.lor acc (flag_of_name coll_type) else acc)
        config (get0 m t)).
  { induction config as [|[ty idxs] config IH]; intros m; [reflexivity|].
    cbn [fold_left]. rewrite IH, override_entry_flags. reflexivity. }
  rewrite Hgen. unfold get0. rewrite lookup_empty. reflexivity.
Qed.

Lemma spec_override_flags_range (config : list (string * list Z)) (t : Z) :
  is_flags (spec_override_flags config t).
Proof.
  unfold spec_override_flags.
  assert (Hgen : forall acc, is_flags acc ->
    is_flags (fold_left (fun acc '(coll_type, tile_indices) =>
        if decide (t ∈ tile_indices) then Z.lor acc (flag_of_name coll_type) else acc)
        config acc)).
  { induction config as [|[ty idxs] config IH]; intros acc Hacc; [exact Hacc|].
    cbn [fold_left]. apply IH. case_decide; [|exact Hacc].
    apply lor_flags; [exact Hacc|apply flag_of_name_flags]. }
  apply Hgen. unfold is_flags. lia.
Qed.

Lemma spec_override_flags_unlisted (config : list (string * list Z)) (t : Z) :
  (forall ty idxs, (ty, idxs) ∈ config -> t ∉ idxs) -> spec_override_flags config t = 0.
Proof.
  unfold spec_override_flags. generalize 0.
  induction config as [|[ty idxs] config IH]; intros acc Hun; [reflexivity|].
  cbn [fold_left]. rewrite decide_False by (apply (Hun ty), list_elem_of_here).
  apply IH. intros ty' idxs' Hin. apply (Hun ty'), list_elem_of_further, Hin.
Qed.

Lemma includes_lor_l (a b f : Z) : includes a f -> includes (Z.lor a b) f.
Proof.
  unfold includes. intros Ha. apply Z.bits_inj'. intros n Hn.
  apply (f_equal (fun x => Z.testbit x n)) in Ha.
  rewrite Z.land_spec in Ha. rewrite Z.land_spec, Z.lor_spec.
  destruct (Z.testbit a n), (Z.testbit b n), (Z.testbit f n); cbn in *; congruence.
Qed.

Lemma includes_lor_r (a f : Z) : includes (Z.lor a f) f.
Proof.
  unfold includes. apply Z.bits_inj'. intros n Hn.
  rewrite Z.land_spec, Z.lor_spec.
  destruct (Z.testbit a n), (Z.testbit f n); reflexivity.
Qed.

Lemma spec_override_flags_listed (config : list (string * list Z)) ty idxs (t : Z) :
  (ty, idxs) ∈ config -> t ∈ idxs -> includes (spec_override_flags config t) (flag_of_name ty).
Proof.
  intros Hin Ht. unfold spec_override_flags.
  assert (Hkeep : forall (cfg : list (string * list Z)) acc, includes acc (flag_of_name ty) ->
    includes (fold_left (fun acc '(coll_type, tile_indices) =>
        if decide (t ∈ tile_indices) then Z.lor acc (flag_of_name coll_type) else acc)
        cfg acc) (flag_of_name ty)).
  { induction cfg as [|[ty' idxs'] cfg IH]; intros acc Hacc; [exact Hacc|].
    cbn [fold_left]. apply IH. case_decide; [apply includes_lor_l|]; exact Hacc. }
  generalize 0. induction config as [|[ty' idxs'] config IH]; intros acc.
  - apply elem_of_nil in Hin. contradiction.
  - cbn [fold_left]. apply elem_of_cons in Hin as [Heq|Hin].
    + injection Heq as <- <-. rewrite decide_True by exact Ht.
      apply Hkeep, includes_lor_r.
    + apply IH, Hin.
Qed.

Lemma override_map_nonempty (config : list (string * list Z)) :
  has_override config -> override_map config <> ∅.
Proof.
  intros Hex Hempty. apply Exists_exists in Hex as ([ty idxs] & Hin & Hflag & Hidxs).
  cbn [fst snd] in *. destruct idxs as [|t idxs]; [contradiction|].
  pose proof (spec_override_flags_listed config ty (t :: idxs) t Hin
                (list_elem_of_here _ _)) as Hinc.
  rewrite <- override_map_flags, Hempty in Hinc.
  unfold includes, get0 in Hinc. rewrite lookup_empty in Hinc. cbn [default] in Hinc.
  rewrite Z.land_0_l in Hinc. congruence.
Qed.

Lemma override_map_empty (config : list (string * list Z)) :
  ~ has_override config -> override_map config = ∅.
Proof.
  unfold override_map. generalize (∅ : gmap Z Z).
  induction config as [|[ty idxs] config IH]; intros m Hno; [reflexivity|].
  cbn [fold_left].
  assert (Hskip : override_entry m (ty, idxs) = m).
  { unfold override_entry.
    destruct (Z.eqb_spec (flag_of_name ty) 0) as [_|Hnz]; [reflexivity|].
    case_bool_decide as Hnil; [reflexivity|].
    exfalso. apply Hno. apply Exists_cons_hd. cbn. auto. }
  rewrite Hskip. apply IH. intros Hex. apply Hno, Exists_cons_tl, Hex.
Qed.

(** C9, amended. When the overrides list at least one tile index under a
    category of the vocabulary, the flag array is rebuilt from the
    overrides alone: a cell receives the OR of the flags of the categories
    that list its tile index, so 0 when none lists it, and the flags taken
    from the tile properties are dropped. Without such an override the
    flags of the tile properties are kept. The vocabulary is solid=0x01,
    platform=0x02, slope_l=0x04, slope_r=0x08, hazard=0x10, trigger=0x20,
    ladder=0x40. *)
Theorem collision_overrides_rebuild (lower : string -> string) (f : tmx_file)
    (config : list (string * list Z)) (w h : Z) (tile_data : list Z)
    (auto : option (list Z)) (gid : Z) :
  parse_tmx_file lower f = Ok (w, h, tile_data, auto, gid) ->
  (has_override config ->
   process_tilemap_asset lower f (Some config)
   = Ok (tile_data, Some (spec_override_flags config <$> tile_data))) /\
  (~ has_override config ->
   process_tilemap_asset lower f (Some config) = Ok (tile_data, auto)) /\
  process_tilemap_asset lower f None = Ok (tile_data, auto) /\
  (forall t ty idxs, (ty, idxs) ∈ config -> t ∈ idxs ->
     includes (spec_override_flags config t) (flag_of_name ty)) /\
  (forall t, (forall ty idxs, (ty, idxs) ∈ config -> t ∉ idxs) ->
     spec_override_flags config t = 0) /\
  [flag_of_name "solid"; flag_of_name "platform"; flag_of_name "slope_l";
   flag_of_name "slope_r"; flag_of_name "hazard"; flag_of_name "trigger";
   flag_of_name "ladder"] = [0x01; 0x02; 0x04; 0x08; 0x10; 0x20; 0x40].
Proof.
  intros Hparse. unfold process_tilemap_asset. rewrite Hparse, bind_Ok. cbv beta iota.
  split; [|split; [|split; [|split; [|split]]]].
  - intros Hex. unfold apply_collision_config.
    destruct config as [|item config]; [apply Exists_nil in Hex; contradiction|].
    rewrite decide_False by exact (override_map_nonempty _ Hex).
    rewrite py_bytes_Ok.
    + rewrite !bind_Ok. do 3 f_equal. apply list_fmap_ext. intros _ t _.
      apply override_map_flags.
    + apply Forall_fmap, Forall_forall. intros t _. unfold compose.
      rewrite override_map_flags. apply is_flags_byte, spec_override_flags_range.
  - intros Hno. unfold apply_collision_config.
    destruct config as [|item config]; [reflexivity|].
    rewrite decide_True by exact (override_map_empty _ Hno). reflexivity.
  - reflexivity.
  - intros t ty idxs Hin Ht. exact (spec_override_flags_listed config ty idxs t Hin Ht).
  - exact (spec_override_flags_unlisted config).
  - reflexivity.
Qed.

Lemma collision_overrides_rebuild_witness :
  parse_tmx_file (fun s => s) flagged_grid = Ok (2, 1, [0; 1], Some [1; 2], 1) /\
  has_override [("hazard", [0])] /\
  process_tilemap_asset (fun s => s) flagged_grid (Some [("hazard", [0])])
  = Ok ([0; 1], Some (spec_override_flags [("hazard", [0])] <$> [0; 1])).
Proof.
  assert (Hparse : parse_tmx_file (fun s => s) flagged_grid
                   = Ok (2, 1, [0; 1], Some [1; 2], 1)) by (vm_compute; reflexivity).
  assert (Hex : has_override [("hazard", [0])]).
  { apply Exists_cons_hd. split; [intros H; vm_compute in H; discriminate|discriminate]. }
  split; [exact Hparse|]. split; [exact Hex|].
  exact (proj1 (collision_overrides_rebuild (fun s => s) flagged_grid
                  [("hazard", [0])] _ _ _ _ _ Hparse) Hex).
Defined.

(** C9 as stated fails: in [flagged_grid] tile 1 is a platform (flag 2);
    with the override hazard: [0] its cell, which no override lists, gets
    0 instead of keeping 2. *)
Lemma overrides_discard_unlisted_flags :
  process_tilemap_asset (fun s => s) flagged_grid None = Ok ([0; 1], Some [1; 2]) /\
  process_tilemap_asset (fun s => s) flagged_grid (Some [("hazard", [0])])
  = Ok ([0; 1], Some [16; 0]) /\
  ~ unlisted_keep_auto_flags.
Proof.
  assert (Hauto : process_tilemap_asset (fun s => s) flagged_grid None
                  = Ok ([0; 1], Some [1; 2])) by (vm_compute; reflexivity).
  assert (Hover : process_tilemap_asset (fun s => s) flagged_grid (Some [("hazard", [0])])
                  = Ok ([0; 1], Some [16; 0])) by (vm_compute; reflexivity).
  split; [exact Hauto|]. split; [exact Hover|].
  intros Hclaim.
  specialize (Hclaim (fun s => s) flagged_grid [("hazard", [0])] _ _ _ Hauto Hover
                1%nat 1 eq_refl).
  assert (Hunlisted : forall ty idxs, (ty, idxs) ∈ [("hazard", [0])] -> 1 ∉ idxs).
  { intros ty idxs Hin. apply list_elem_of_singleton in Hin. injection Hin as -> ->.
    intros H1. apply list_elem_of_singleton in H1. discriminate. }
  specialize (Hclaim Hunlisted). discriminate.
Qed.

(** * More of the resource compiler: proofs *)

(** ** Hardware colours *)

Lemma lor_add_disjoint (a b k : Z) :
  0 <= k -> 0 <= b < 2 ^ k -> a mod 2 ^ k = 0 -> Z.lor a b = a + b.
Proof.
  intros Hk Hb Ha. symmetry. apply Z.add_nocarry_lor.
  apply Z.bits_inj'. intros n Hn. rewrite Z.land_spec, Z.bits_0.
  destruct (Z.lt_ge_cases n k) as [Hlt|Hge].
  - assert (Hlow : Z.testbit a n = false).
    { rewrite <- (Z.mod_pow2_bits_low a k n) by lia. rewrite Ha. apply Z.bits_0. }
    rewrite Hlow. reflexivity.
  - assert (Hhigh : Z.testbit b n = false).
    { destruct (Z.eq_dec b 0) as [->|Hnz]; [apply Z.bits_0|].
      apply Z.bits_above_log2; [lia|].
      apply Z.lt_le_trans with k; [apply Z.log2_lt_pow2; lia|lia]. }
    rewrite Hhigh. apply andb_false_r.
Qed.

Lemma land_1 (a : Z) : Z.land a 1 = a mod 2.
Proof. change 1 with (Z.ones 1). rewrite Z.land_ones by lia. reflexivity. Qed.

Lemma land_15 (a : Z) : Z.land a 0xF = a mod 16.
Proof. change 0xF with (Z.ones 4). rewrite Z.land_ones by lia. reflexivity. Qed.

Lemma rgb5_to_neogeo_color_sum (r g b : Z) :
  rgb5_to_neogeo_color r g b
  = (r mod 2) * 16384 + (g mod 2) * 8192 + (b mod 2) * 4096
    + (r / 2 mod 16) * 256 + (g / 2 mod 16) * 16 + b / 2 mod 16.
Proof.
  unfold rgb5_to_neogeo_color. cbv zeta.
  rewrite !land_1, !land_15, !Z.shiftr_div_pow2, !Z.shiftl_mul_pow2 by lia.
  change (2 ^ 1) with 2. change (2 ^ 14) with 16384. change (2 ^ 13) with 8192.
  change (2 ^ 12) with 4096. change (2 ^ 8) with 256. change (2 ^ 4) with 16.
  pose proof (Z.mod_pos_bound r 2). pose proof (Z.mod_pos_bound g 2).
  pose proof (Z.mod_pos_bound b 2). pose proof (Z.mod_pos_bound (r / 2) 16).
  pose proof (Z.mod_pos_bound (g / 2) 16). pose proof (Z.mod_pos_bound (b / 2) 16).
  set (r0 := r mod 2) in *. set (g0 := g mod 2) in *. set (b0 := b mod 2) in *.
  set (r1 := r / 2 mod 16) in *. set (g1 := g / 2 mod 16) in *. set (b1 := b / 2 mod 16) in *.
  rewrite (lor_add_disjoint (r0 * 16384) (g0 * 8192) 14) by (try lia; rewrite Z.mod_mul; lia).
  rewrite (lor_add_disjoint _ (b0 * 4096) 13).
  2: lia. 2: change (2 ^ 13) with 8192; lia.
  2:{ change (2 ^ 13) with 8192. replace (r0 * 16384 + g0 * 8192) with ((r0 * 2 + g0) * 8192) by lia.
      apply Z.mod_mul. lia. }
  rewrite (lor_add_disjoint (r1 * 256) (g1 * 16) 8) by
    (try (change (2 ^ 8) with 256); try lia; apply Z.mod_mul; lia).
  rewrite (lor_add_disjoint _ b1 4).
  2: lia. 2: change (2 ^ 4) with 16; lia.
  2:{ change (2 ^ 4) with 16. replace (r1 * 256 + g1 * 16) with ((r1 * 16 + g1) * 16) by lia.
      apply Z.mod_mul. lia. }
  rewrite (lor_add_disjoint _ (r1 * 256 + g1 * 16 + b1) 12).
  - lia.
  - lia.
  - change (2 ^ 12) with 4096. lia.
  - change (2 ^ 12) with 4096.
    replace (r0 * 16384 + g0 * 8192 + b0 * 4096) with ((r0 * 4 + g0 * 2 + b0) * 4096) by lia.
    apply Z.mod_mul. lia.
Qed.

Lemma channel_sum (u l : Z) :
  Z.lor (Z.shiftl (Z.land u 0xF) 1) (Z.land l 1) = 2 * (u mod 16) + l mod 2.
Proof.
  rewrite land_1, land_15, Z.shiftl_mul_pow2 by lia. change (2 ^ 1) with 2.
  pose proof (Z.mod_pos_bound l 2).
  rewrite (lor_add_disjoint _ (l mod 2) 1); [lia|lia|change (2 ^ 1) with 2; lia|].
  change (2 ^ 1) with 2. apply Z.mod_mul. lia.
Qed.

Lemma neogeo_color_to_rgb5_sum (c : Z) :
  neogeo_color_to_rgb5 c
  = (2 * (c / 256 mod 16) + c / 16384 mod 2,
     2 * (c / 16 mod 16) + c / 8192 mod 2,
     2 * (c mod 16) + c / 4096 mod 2).
Proof.
  unfold neogeo_color_to_rgb5. cbv zeta.
  rewrite !channel_sum, !Z.shiftr_div_pow2 by lia. reflexivity.
Qed.

Lemma neogeo_color_to_rgb5_range (c : Z) : is_rgb5 (neogeo_color_to_rgb5 c).
Proof.
  rewrite neogeo_color_to_rgb5_sum. unfold is_rgb5. cbn [fst snd].
  repeat split; Z.to_euclidean_division_equations; lia.
Qed.

(** X1. A colour whose three channels are 5-bit values survives the packing
    of [rgb5_to_neogeo_color] followed by the unpacking of
    [process_palette_def]: the hardware word loses nothing. *)
Theorem rgb5_roundtrip (r g b : Z) :
  is_rgb5 (r, g, b) -> neogeo_color_to_rgb5 (rgb5_to_neogeo_color r g b) = (r, g, b).
Proof.
  unfold is_rgb5. cbn [fst snd]. intros (Hr & Hg & Hb).
  rewrite neogeo_color_to_rgb5_sum, rgb5_to_neogeo_color_sum.
  repeat f_equal; Z.to_euclidean_division_equations; lia.
Qed.

Lemma rgb5_roundtrip_witness :
  is_rgb5 (31, 0, 17) /\
  neogeo_color_to_rgb5 (rgb5_to_neogeo_color 31 0 17) = (31, 0, 17).
Proof.
  assert (Hin : is_rgb5 (31, 0, 17)) by (unfold is_rgb5; cbn [fst snd]; lia).
  split; [exact Hin|exact (rgb5_roundtrip 31 0 17 Hin)].
Defined.

Lemma neogeo_roundtrip (c : Z) :
  (let '(r, g, b) := neogeo_color_to_rgb5 c in rgb5_to_neogeo_color r g b) = Z.land c 0x7FFF.
Proof.
  rewrite neogeo_color_to_rgb5_sum, rgb5_to_neogeo_color_sum.
  change 0x7FFF with (Z.ones 15). rewrite Z.land_ones by lia. change (2 ^ 15) with 32768.
  Z.to_euclidean_division_equations. lia.
Qed.

(** X2. Unpacking any hardware word gives three 5-bit channels, and
    packing them again gives the word without its bit 15 and above: the
    dark bit of a manual colour is dropped. *)
Theorem neogeo_word_roundtrip (c : Z) :
  is_rgb5 (neogeo_color_to_rgb5 c) /\
  (let '(r, g, b) := neogeo_color_to_rgb5 c in rgb5_to_neogeo_color r g b)
  = c mod 32768.
Proof.
  split; [apply neogeo_color_to_rgb5_range|].
  rewrite neogeo_roundtrip. change 0x7FFF with (Z.ones 15).
  rewrite Z.land_ones by lia. reflexivity.
Qed.

(** ** Manual palettes *)

Lemma palette_from_colors_lookup (colors : list Z) (i : nat) :
  (i < 16)%nat ->
  palette_from_colors colors !! i
  = Some (match colors !! i with
          | Some c => if decide (i = 0%nat) then TRANSPARENT else neogeo_color_to_rgb5 c
          | None => (0, 0, 0)
          end).
Proof.
  intros Hi. unfold palette_from_colors. cbv zeta.
  set (cs := if 16 <? len colors then take 16 colors else colors).
  assert (Hcs : cs !! i = colors !! i).
  { unfold cs. destruct (16 <? len colors); [|reflexivity]. apply lookup_take_lt. exact Hi. }
  assert (Hlen : (length cs <= 16)%nat).
  { unfold cs, len. destruct (Z.ltb_spec 16 (Z.of_nat (length colors))).
    - rewrite length_take. lia.
    - lia. }
  rewrite <- Hcs. destruct (cs !! i) as [c|] eqn:Hc.
  - rewrite lookup_app_l by (rewrite length_imap; apply lookup_lt_Some in Hc; exact Hc).
    rewrite list_lookup_imap, Hc. reflexivity.
  - apply lookup_ge_None in Hc.
    rewrite lookup_app_r by (rewrite length_imap; exact Hc).
    rewrite length_imap. apply lookup_replicate. split; [reflexivity|lia].
Qed.

(** X3. A palette given as a list of hardware words always has 16
    entries: slot 0 is the sentinel whatever the first word is (black when
    the list is empty), slots 1..15 hold the decoded words, missing slots
    are black, and every slot after the first is a 5-bit colour. *)
Theorem manual_palette_layout (colors : list Z) :
  let palette := palette_from_colors colors in
  length palette = 16%nat /\
  palette !! 0%nat = Some (if decide (colors = []) then (0, 0, 0) else TRANSPARENT) /\
  (forall (i : nat) c, (1 <= i)%nat -> (i < 16)%nat -> colors !! i = Some c ->
     palette !! i = Some (neogeo_color_to_rgb5 c)) /\
  (forall i : nat, (length colors <= i)%nat -> (i < 16)%nat ->
     palette !! i = Some (0, 0, 0)) /\
  Forall is_rgb5 (drop 1 palette).
Proof.
  cbv zeta. split; [|split; [|split; [|split]]].
  - unfold palette_from_colors. cbv zeta.
    set (cs := if 16 <? len colors then take 16 colors else colors).
    assert (Hlen : (length cs <= 16)%nat).
    { unfold cs, len. destruct (Z.ltb_spec 16 (Z.of_nat (length colors))).
      - rewrite length_take. lia.
      - lia. }
    rewrite length_app, length_imap, length_replicate. lia.
  - rewrite palette_from_colors_lookup by lia. destruct colors; reflexivity.
  - intros i c Hi Hlt Hc. rewrite palette_from_colors_lookup, Hc by exact Hlt.
    rewrite decide_False by lia. reflexivity.
  - intros i Hge Hlt. rewrite palette_from_colors_lookup by exact Hlt.
    rewrite (proj2 (lookup_ge_None colors i) Hge). reflexivity.
  - apply Forall_lookup. intros i c Hc. rewrite lookup_drop in Hc.
    assert (Hi : (1 + i < 16)%nat).
    { apply lookup_lt_Some in Hc. revert Hc. unfold palette_from_colors. cbv zeta.
      set (cs := if 16 <? len colors then take 16 colors else colors).
      assert (Hlen : (length cs <= 16)%nat).
      { unfold cs, len. destruct (Z.ltb_spec 16 (Z.of_nat (length colors))).
        - rewrite length_take. lia.
        - lia. }
      rewrite length_app, length_imap, length_replicate. lia. }
    rewrite palette_from_colors_lookup in Hc by exact Hi. injection Hc as <-.
    cbn [Nat.add]. destruct (colors !! S i) as [c|].
    + try rewrite decide_False by lia. apply neogeo_color_to_rgb5_range.
    + unfold is_rgb5. cbn. lia.
Qed.

(** X4. The words the header generator emits for a manual palette are
    0x8000 for slot 0 and, for the others, the words of the YAML list with
    bit 15 cleared, zero where the list ends. *)
Theorem manual_colors_reach_header (colors : list Z) :
  header_palette_words (palette_from_colors colors)
  = (fun i : nat =>
       if decide (i = 0%nat) then 0x8000
       else match colors !! i with
            | Some c => Z.land c 0x7FFF
            | None => 0
            end) <$> seq 0 16.
Proof.
  unfold header_palette_words. apply list_fmap_ext. intros n i Hn.
  apply lookup_seq in Hn as [-> Hi]. cbn [Nat.add] in *. rename n into i.
  rewrite palette_from_colors_lookup by exact Hi.
  destruct (decide (i = 0%nat)) as [->|Hne].
  - destruct (colors !! 0%nat); reflexivity.
  - destruct (colors !! i) as [c|]; [|reflexivity].
    pose proof (neogeo_roundtrip c) as Hrt.
    destruct (neogeo_color_to_rgb5 c) as [[r g] b]. exact Hrt.
Qed.

(** ** Fix-layer tiles *)

Lemma for_each_fill (body : list Z -> Z -> result (list Z)) (v pos : Z -> Z)
    (rows : list Z) :
  forall (done : list Z) (m : nat),
  (forall (k : nat) r, rows !! k = Some r ->
     pos r = len done + Z.of_nat k /\ is_byte (v r) = true /\
     forall tile, body tile r = bytearray_set tile (pos r) (v r)) ->
  for_each body rows (done ++ replicate (length rows + m) 0)
  = Ok (done ++ (v <$> rows) ++ replicate m 0).
Proof.
  induction rows as [|r rows IH]; intros done m Hrows.
  - reflexivity.
  - destruct (Hrows 0%nat r eq_refl) as (Hpos & Hbyte & Hbody).
    cbn [for_each length Nat.add replicate]. rewrite Hbody.
    rewrite (bytearray_set_mid done 0 _ (pos r) (v r)) by (try exact Hbyte; lia).
    rewrite bind_Ok.
    replace (done ++ v r :: replicate (length rows + m) 0)
      with ((done ++ [v r]) ++ replicate (length rows + m) 0)
      by (rewrite <- app_assoc; reflexivity).
    rewrite IH.
    + rewrite <- app_assoc. reflexivity.
    + intros k r' Hk. destruct (Hrows (S k) r' Hk) as (Hpos' & Hbyte' & Hbody').
      split; [|split; assumption].
      rewrite Hpos'. unfold len. rewrite length_app. cbn [length]. lia.
Qed.

Lemma fix_pixel_lookup (pixels : list (list Z)) (row col : Z) :
  fix_grid pixels -> 0 <= row < 8 -> 0 <= col < 8 ->
  (p_row ← py_index pixels row; py_index p_row col) = Ok (pixel_at pixels col row).
Proof.
  intros [Hlen Hrows] Hr Hc.
  rewrite py_index_total by (unfold len; lia). rewrite bind_Ok.
  assert (Hrow : length (pixels !!! Z.to_nat row) = 8%nat).
  { rewrite Forall_lookup in Hrows. apply (Hrows (Z.to_nat row)).
    apply list_lookup_lookup_total_lt. lia. }
  rewrite py_index_total by (unfold len; lia). reflexivity.
Qed.

Lemma nibble_pair (l r : Z) :
  Z.lor (Z.land l 0xF) (Z.shiftl (Z.land r 0xF) 4) = l mod 16 + 16 * (r mod 16) /\
  is_byte (l mod 16 + 16 * (r mod 16)) = true.
Proof.
  rewrite !land_15, Z.shiftl_mul_pow2 by lia. change (2 ^ 4) with 16.
  pose proof (Z.mod_pos_bound l 16). pose proof (Z.mod_pos_bound r 16).
  split.
  - rewrite Z.lor_comm.
    rewrite (lor_add_disjoint _ (l mod 16) 4); [lia|lia|change (2 ^ 4) with 16; lia|].
    change (2 ^ 4) with 16. apply Z.mod_mul. lia.
  - unfold is_byte. apply andb_true_iff. split; [apply Z.leb_le|apply Z.ltb_lt]; lia.
Qed.

Lemma srom_row_write (pixels : list (list Z)) (pair_idx cl cr row : Z) (tile : list Z) :
  fix_grid pixels -> 0 <= cl < 8 -> 0 <= cr < 8 -> 0 <= row < 8 ->
  srom_row pixels pair_idx cl cr tile row
  = bytearray_set tile (pair_idx * 8 + row)
      (pixel_at pixels cl row mod 16 + 16 * (pixel_at pixels cr row mod 16)).
Proof.
  intros Hgrid Hcl Hcr Hrow. unfold srom_row. cbv zeta.
  pose proof (fix_pixel_lookup pixels row cl Hgrid Hrow Hcl) as Hl.
  pose proof (fix_pixel_lookup pixels row cr Hgrid Hrow Hcr) as Hr.
  destruct (py_index pixels row) as [p_row|e]; [|discriminate].
  rewrite bind_Ok in Hl, Hr. rewrite bind_Ok, Hl, !bind_Ok, Hr, bind_Ok.
  rewrite (proj1 (nibble_pair _ _)). reflexivity.
Qed.

Lemma srom_pair_fill (pixels : list (list Z)) (pair_idx cl cr : Z) (done : list Z) (m : nat) :
  fix_grid pixels -> 0 <= cl < 8 -> 0 <= cr < 8 -> len done = pair_idx * 8 ->
  srom_pair pixels (done ++ replicate (8 + m) 0) (pair_idx, (cl, cr))
  = Ok (done
        ++ ((fun r => pixel_at pixels cl r mod 16 + 16 * (pixel_at pixels cr r mod 16))
              <$> seqZ 0 8)
        ++ replicate m 0).
Proof.
  intros Hgrid Hcl Hcr Hlen. unfold srom_pair.
  change (8 + m)%nat with (length (seqZ 0 8) + m)%nat.
  apply (for_each_fill _ _ (fun r => pair_idx * 8 + r)).
  intros k r Hk. apply lookup_seqZ in Hk as [-> Hk].
  split; [lia|]. split; [apply nibble_pair|].
  intros tile. apply srom_row_write; auto; lia.
Qed.

Lemma pixels_to_srom_tile_spec (pixels : list (list Z)) :
  fix_grid pixels -> pixels_to_srom_tile pixels = Ok (spec_srom_tile pixels).
Proof.
  intros Hgrid. unfold pixels_to_srom_tile.
  change (enumerate col_pairs) with [(0, (4, 5)); (1, (6, 7)); (2, (0, 1)); (3, (2, 3))].
  cbn [for_each].
  change (bytearray 32) with ([] ++ replicate (8 + 24) 0).
  rewrite (srom_pair_fill pixels 0 4 5 [] 24 Hgrid) by (try lia; reflexivity).
  rewrite bind_Ok. cbn [app].
  set (b0 := _ <$> seqZ 0 8).
  change (replicate 24 0) with (replicate (8 + 16) 0).
  rewrite (srom_pair_fill pixels 1 6 7 b0 16 Hgrid) by (try lia; reflexivity).
  rewrite bind_Ok. set (b1 := _ <$> seqZ 0 8).
  change (replicate 16 0) with (replicate (8 + 8) 0). rewrite (app_assoc b0 b1).
  rewrite (srom_pair_fill pixels 2 0 1 (b0 ++ b1) 8 Hgrid) by (try lia; reflexivity).
  rewrite bind_Ok. set (b2 := _ <$> seqZ 0 8).
  change (replicate 8 0) with (replicate (8 + 0) 0). rewrite (app_assoc (b0 ++ b1) b2).
  rewrite (srom_pair_fill pixels 3 2 3 ((b0 ++ b1) ++ b2) 0 Hgrid) by (try lia; reflexivity).
  rewrite bind_Ok. set (b3 := _ <$> seqZ 0 8). cbn [replicate]. rewrite app_nil_r.
  replace (((b0 ++ b1) ++ b2) ++ b3) with (spec_srom_tile pixels)
    by (unfold spec_srom_tile, col_pairs; cbn [fmap list_fmap mjoin list_join];
        rewrite app_nil_r, !app_assoc; reflexivity).
  apply py_bytes_Ok. unfold spec_srom_tile. apply Forall_forall. intros b Hb.
  apply list_elem_of_join in Hb as (chunk & Hb & Hchunk).
  apply list_elem_of_fmap in Hchunk as ([cl cr] & -> & _).
  apply list_elem_of_fmap in Hb as (r & -> & _). apply nibble_pair.
Qed.

Lemma nibble_read (l r : Z) :
  Z.land (Z.shiftr (l mod 16 + 16 * (r mod 16)) 0) 0xF = Z.land l 0xF /\
  Z.land (Z.shiftr (l mod 16 + 16 * (r mod 16)) 4) 0xF = Z.land r 0xF.
Proof.
  rewrite !land_15, Z.shiftr_0_r, Z.shiftr_div_pow2 by lia. change (2 ^ 4) with 16.
  split; Z.to_euclidean_division_equations; lia.
Qed.

Lemma srom_nibble_spec (pixels : list (list Z)) (row col : Z) :
  0 <= row < 8 -> 0 <= col < 8 ->
  srom_nibble (spec_srom_tile pixels) row col = Z.land (pixel_at pixels col row) 0xF.
Proof.
  intros Hrow Hcol. unfold srom_nibble, spec_srom_tile, col_pairs.
  change (seqZ 0 8) with [0; 1; 2; 3; 4; 5; 6; 7].
  cbn [fmap list_fmap mjoin list_join app].
  octal_cases row; octal_cases col; eval_srom_offsets;
    cbn [lookup_total list_lookup_total]; apply nibble_read.
Qed.

(** X12. For an 8 by 8 grid [pixels_to_srom_tile] returns 32 bytes, and
    the nibble at byte [16 (1 - col / 4) + 8 (col mod 4 / 2) + row], low for
    an even column and high for an odd one, is the low four bits of the
    pixel at ([row], [col]). *)
Theorem fix_tile_pixels_recoverable (pixels : list (list Z)) (row col : Z) :
  fix_grid pixels -> 0 <= row < 8 -> 0 <= col < 8 ->
  exists tile,
    pixels_to_srom_tile pixels = Ok tile /\ length tile = 32%nat /\
    srom_nibble tile row col = Z.land (pixel_at pixels col row) 0xF.
Proof.
  intros Hgrid Hrow Hcol. exists (spec_srom_tile pixels).
  split; [exact (pixels_to_srom_tile_spec pixels Hgrid)|]. split; [reflexivity|].
  exact (srom_nibble_spec pixels row col Hrow Hcol).
Qed.

Lemma fix_tile_pixels_recoverable_witness :
  fix_grid sample_fix_tile /\
  exists tile,
    pixels_to_srom_tile sample_fix_tile = Ok tile /\ length tile = 32%nat /\
    srom_nibble tile 2 5 = Z.land (pixel_at sample_fix_tile 5 2) 0xF.
Proof.
  assert (Hgrid : fix_grid sample_fix_tile).
  { split; [reflexivity|]. repeat constructor. }
  split; [exact Hgrid|].
  apply (fix_tile_pixels_recoverable sample_fix_tile 2 5 Hgrid); lia.
Defined.

Lemma land_pow2 (b k : Z) :
  0 <= k -> Z.land b (2 ^ k) = if Z.testbit b k then 2 ^ k else 0.
Proof.
  intros Hk. apply Z.bits_inj'. intros n Hn. rewrite Z.land_spec, Z.pow2_bits_eqb by lia.
  destruct (Z.eqb_spec k n) as [<-|Hne].
  - rewrite andb_true_r. destruct (Z.testbit b k) eqn:Hb.
    + rewrite Z.pow2_bits_true by lia. reflexivity.
    + rewrite Z.bits_0. reflexivity.
  - rewrite andb_false_r. destruct (Z.testbit b k).
    + rewrite Z.pow2_bits_false by lia. reflexivity.
    + rewrite Z.bits_0. reflexivity.
Qed.

Lemma bitmap_pixel (row_byte col : Z) :
  0 <= col < 8 ->
  (if Z.land row_byte (Z.shiftr 0x80 col) =? 0 then 0 else 1)
  = Z.b2z (Z.testbit row_byte (7 - col)).
Proof.
  intros Hcol.
  assert (Hshift : Z.shiftr 0x80 col = 2 ^ (7 - col)) by (octal_cases col; reflexivity).
  rewrite Hshift, land_pow2 by lia.
  assert (0 < 2 ^ (7 - col)) by (apply Z.pow_pos_nonneg; lia).
  destruct (Z.testbit row_byte (7 - col)); cbn [Z.b2z].
  - destruct (Z.eqb_spec (2 ^ (7 - col)) 0); [lia|reflexivity].
  - reflexivity.
Qed.

Lemma bitmap_to_pixels_grid (bitmap : list Z) :
  length bitmap = 8%nat -> fix_grid (bitmap_to_pixels bitmap).
Proof.
  intros Hlen. unfold fix_grid, bitmap_to_pixels. rewrite length_fmap. split; [exact Hlen|].
  apply Forall_fmap, Forall_forall. intros b _. reflexivity.
Qed.

Lemma bitmap_to_pixels_at (bitmap : list Z) (row col : Z) :
  length bitmap = 8%nat -> 0 <= row < 8 -> 0 <= col < 8 ->
  pixel_at (bitmap_to_pixels bitmap) col row
  = Z.b2z (Z.testbit (bitmap !!! Z.to_nat row) (7 - col)).
Proof.
  intros Hlen Hrow Hcol. unfold pixel_at, bitmap_to_pixels.
  destruct (lookup_lt_is_Some_2 bitmap (Z.to_nat row)) as [b Hb]; [lia|].
  rewrite (list_lookup_total_correct bitmap _ b Hb).
  set (f := fun row_byte : Z =>
              (fun c => if Z.land row_byte (Z.shiftr 0x80 c) =? 0 then 0 else 1)
                <$> seqZ 0 8).
  assert (Hrowl : (f <$> bitmap) !! Z.to_nat row = Some (f b))
    by (rewrite list_lookup_fmap, Hb; reflexivity).
  rewrite (list_lookup_total_correct _ _ _ Hrowl). unfold f.
  set (g := fun c : Z => if Z.land b (Z.shiftr 0x80 c) =? 0 then 0 else 1).
  assert (Hcoll : (g <$> seqZ 0 8) !! Z.to_nat col = Some (g col)).
  { rewrite list_lookup_fmap, (lookup_seqZ_lt 0 8 (Z.to_nat col)) by lia.
    cbn [fmap option_fmap option_map]. rewrite Z.add_0_l, Z2Nat.id by lia. reflexivity. }
  rewrite (list_lookup_total_correct _ _ _ Hcoll). unfold g.
  apply bitmap_pixel. exact Hcol.
Qed.

(** X13. A 1-bit bitmap of eight rows, through [bitmap_to_pixels] and
    [pixels_to_srom_tile], gives a tile whose pixel at ([row], [col]) is
    bit [7 - col] of the row's byte. *)
Theorem bitmap_tile_bits (bitmap : list Z) (row col : Z) :
  length bitmap = 8%nat -> 0 <= row < 8 -> 0 <= col < 8 ->
  exists tile,
    pixels_to_srom_tile (bitmap_to_pixels bitmap) = Ok tile /\
    srom_nibble tile row col = Z.b2z (Z.testbit (bitmap !!! Z.to_nat row) (7 - col)).
Proof.
  intros Hlen Hrow Hcol. exists (spec_srom_tile (bitmap_to_pixels bitmap)).
  split; [exact (pixels_to_srom_tile_spec _ (bitmap_to_pixels_grid bitmap Hlen))|].
  rewrite (srom_nibble_spec _ row col Hrow Hcol).
  rewrite (bitmap_to_pixels_at bitmap row col Hlen Hrow Hcol).
  destruct (Z.testbit _ _); reflexivity.
Qed.

(** ** Palettes from frames *)

Lemma bitmap_tile_bits_witness :
  exists tile,
    pixels_to_srom_tile (bitmap_to_pixels [128; 64; 32; 16; 8; 4; 2; 1]) = Ok tile /\
    srom_nibble tile 1 1
    = Z.b2z (Z.testbit ([128; 64; 32; 16; 8; 4; 2; 1] !!! Z.to_nat 1) (7 - 1)).
Proof.
  apply (bitmap_tile_bits [128; 64; 32; 16; 8; 4; 2; 1] 1 1); [reflexivity|lia|lia].
Defined.

Lemma dict_get_bump (colors : list (Z * Z * Z * Z)) (key k : Z * Z * Z) :
  dict_get (dict_bump key colors) k
  = if decide (k = key) then Some (default 0 (dict_get colors key) + 1)
    else dict_get colors k.
Proof.
  induction colors as [|[k0 n0] colors IH]; cbn [dict_bump dict_get].
  - destruct (decide (key = k)) as [->|Hne].
    + rewrite decide_True by reflexivity. reflexivity.
    + rewrite decide_False by congruence. reflexivity.
  - destruct (decide (k0 = key)) as [->|Hne]; cbn [dict_get].
    + destruct (decide (key = k)) as [->|Hne'].
      * rewrite decide_True by reflexivity. reflexivity.
      * rewrite decide_False by congruence. reflexivity.
    + destruct (decide (k0 = k)) as [->|Hne'].
      * rewrite decide_False by congruence. reflexivity.
      * exact IH.
Qed.

Lemma dict_bump_keys (colors : list (Z * Z * Z * Z)) (key : Z * Z * Z) :
  (dict_bump key colors).*1
  = if decide (key ∈ colors.*1) then colors.*1 else colors.*1 ++ [key].
Proof.
  induction colors as [|[k0 n0] colors IH]; cbn [dict_bump fmap list_fmap fst].
  - rewrite decide_False by apply not_elem_of_nil. reflexivity.
  - destruct (decide (k0 = key)) as [->|Hne]; cbn [fmap list_fmap fst].
    + rewrite decide_True by apply list_elem_of_here. reflexivity.
    + fold (colors.*1). fold ((dict_bump key colors).*1). rewrite IH.
      destruct (decide (key ∈ colors.*1)) as [Hin|Hout].
      * rewrite decide_True by (apply list_elem_of_further; exact Hin). reflexivity.
      * rewrite decide_False; [reflexivity|].
        intros Hin. apply elem_of_cons in Hin as [Heq|Hin]; congruence.
Qed.

Lemma dict_get_keys (colors : list (Z * Z * Z * Z)) (key : Z * Z * Z) :
  is_Some (dict_get colors key) <-> key ∈ colors.*1.
Proof.
  induction colors as [|[k0 n0] colors IH]; cbn [dict_get fmap list_fmap fst].
  - split; [intros [x Hx]; discriminate|intros Hin; apply elem_of_nil in Hin; contradiction].
  - fold (colors.*1). destruct (decide (k0 = key)) as [->|Hne].
    + split; [intros _; apply list_elem_of_here|eauto].
    + rewrite IH. split; [apply list_elem_of_further|].
      intros Hin. apply elem_of_cons in Hin as [Heq|Hin]; [congruence|exact Hin].
Qed.

Lemma dict_get_elem (colors : list (Z * Z * Z * Z)) (key : Z * Z * Z) (n : Z) :
  NoDup colors.*1 -> (key, n) ∈ colors -> dict_get colors key = Some n.
Proof.
  induction colors as [|[k0 n0] colors IH]; cbn [dict_get fmap list_fmap fst];
    intros Hnd Hin.
  - apply elem_of_nil in Hin. contradiction.
  - fold (colors.*1) in Hnd. apply NoDup_cons in Hnd as [Hnotin Hnd].
    apply elem_of_cons in Hin as [Heq|Hin].
    + injection Heq as <- <-. rewrite decide_True by reflexivity. reflexivity.
    + destruct (decide (k0 = key)) as [->|Hne]; [|exact (IH Hnd Hin)].
      exfalso. apply Hnotin. apply list_elem_of_fmap. exists (key, n). auto.
Qed.

Lemma pixel_count_snoc (pixels : list pixel) (px : pixel) (key : Z * Z * Z) :
  pixel_count (pixels ++ [px]) key
  = pixel_count pixels key + (if decide (opaque px /\ pixel_key px = key) then 1 else 0).
Proof.
  unfold pixel_count, len. rewrite filter_app, length_app.
  rewrite filter_cons, filter_nil. case_decide; cbn [length]; lia.
Qed.

Lemma pixel_count_nonneg (pixels : list pixel) (key : Z * Z * Z) : 0 <= pixel_count pixels key.
Proof. unfold pixel_count, len. lia. Qed.

Lemma count_colors_flat (frames : list (list pixel)) :
  count_colors frames = fold_left count_pixel (mjoin frames) [].
Proof.
  unfold count_colors. generalize (@nil (Z * Z * Z * Z)).
  induction frames as [|f frames IH]; intros acc; [reflexivity|].
  cbn [fold_left mjoin list_join]. rewrite fold_left_app. apply IH.
Qed.

(** What the counting loop has built after a list of pixels. *)
Lemma count_pixels_inv (pixels : list pixel) :
  let colors := fold_left count_pixel pixels [] in
  NoDup colors.*1 /\
  forall key, dict_get colors key
              = if decide (0 < pixel_count pixels key) then Some (pixel_count pixels key)
                else None.
Proof.
  induction pixels as [|px pixels IH] using rev_ind; cbv zeta.
  - cbn. split; [constructor|]. intros key. reflexivity.
  - rewrite fold_left_app. cbn [fold_left]. cbv zeta in IH. destruct IH as [Hnd Hget].
    set (colors := fold_left count_pixel pixels []) in *.
    destruct px as [[[r g] b] a]. unfold count_pixel.
    destruct (Z.ltb_spec a 128) as [Htransp|Hopaque].
    + split; [exact Hnd|]. intros key. rewrite Hget, pixel_count_snoc.
      rewrite (decide_False (P := opaque _ /\ _)); [rewrite Z.add_0_r; reflexivity|].
      intros [Ho _]. unfold opaque in Ho. cbn in Ho. lia.
    + split.
      * rewrite dict_bump_keys. case_decide as Hin; [exact Hnd|].
        apply NoDup_app. split; [exact Hnd|]. split; [|apply NoDup_singleton].
        intros x Hx Hx'. apply list_elem_of_singleton in Hx'. subst x. exact (Hin Hx).
      * intros key. rewrite dict_get_bump, pixel_count_snoc, !Hget.
        pose proof (pixel_count_nonneg pixels key) as Hnn.
        pose proof (pixel_count_nonneg pixels (quantize r g b)) as Hnn'.
        destruct (decide (key = quantize r g b)) as [->|Hne].
        -- rewrite (decide_True (P := opaque _ /\ _)) by (unfold opaque; cbn; split; [lia|reflexivity]).
           rewrite (decide_True (P := 0 < _ + 1)) by lia.
           case_decide; cbn [default]; f_equal; lia.
        -- rewrite (decide_False (P := opaque _ /\ _));
             [rewrite Z.add_0_r; reflexivity|].
           intros [_ Heq]. apply Hne. symmetry. exact Heq.
Qed.

Lemma count_pixels_inv_flat (frames : list (list pixel)) :
  NoDup (count_colors frames).*1 /\
  forall key, dict_get (count_colors frames) key
              = if decide (0 < color_count frames key) then Some (color_count frames key)
                else None.
Proof. rewrite count_colors_flat. exact (count_pixels_inv (mjoin frames)). Qed.

Lemma enumerate_snoc {A} (l : list A) (x : A) :
  enumerate (l ++ [x]) = enumerate l ++ [(len l, x)].
Proof.
  unfold enumerate, len. rewrite imap_app. cbn [imap]. rewrite Nat.add_0_r. reflexivity.
Qed.

Lemma enumerate_from_snoc {A} (start : Z) (l : list A) (x : A) :
  enumerate_from start (l ++ [x]) = enumerate_from start l ++ [(start + len l, x)].
Proof.
  unfold enumerate_from, len. rewrite imap_app. cbn [imap]. rewrite Nat.add_0_r. reflexivity.
Qed.

(** The lookup table holds, for each colour of the palette, its last slot. *)
Lemma palette_lookup_spec (palette : list (Z * Z * Z)) (key : Z * Z * Z) :
  match palette_lookup palette !! key with
  | Some idx =>
      exists i : nat, idx = Z.of_nat i /\ palette !! i = Some key /\
                      forall j : nat, (i < j)%nat -> palette !! j <> Some key
  | None => key ∉ palette
  end.
Proof.
  unfold palette_lookup. induction palette as [|c palette IH] using rev_ind.
  - cbn. rewrite lookup_empty. apply not_elem_of_nil.
  - rewrite enumerate_snoc, fold_left_app. cbn [fold_left].
    destruct (decide (c = key)) as [->|Hne].
    + rewrite lookup_insert_eq. exists (length palette). split; [reflexivity|]. split.
      * rewrite lookup_app_r by lia. rewrite Nat.sub_diag. reflexivity.
      * intros j Hj Hlook. apply lookup_lt_Some in Hlook. rewrite length_app in Hlook.
        cbn in Hlook. lia.
    + rewrite lookup_insert_ne by exact Hne.
      destruct (fold_left _ _ _ !! key) as [idx|] eqn:Hlook.
      * destruct IH as (i & -> & Hi & Hlast). exists i. split; [reflexivity|]. split.
        -- apply lookup_app_l_Some. exact Hi.
        -- intros j Hj Hlook'. apply lookup_app_Some in Hlook' as [Hl|[Hlen Hr]].
           ++ exact (Hlast j Hj Hl).
           ++ apply list_lookup_singleton_Some in Hr as [_ Heq]. contradiction.
      * intros Hin. apply elem_of_app in Hin as [Hin|Hin]; [exact (IH Hin)|].
        apply list_elem_of_singleton in Hin. congruence.
Qed.

(** The closest-colour loop over the slots 1..n. *)
Lemma nearest_fold (key : Z * Z * Z) (cs : list (Z * Z * Z)) :
  cs <> [] ->
  exists (i : nat) (p : Z * Z * Z),
    fold_left (nearest_step key) (enumerate_from 1 cs) (1, None)
      = (1 + Z.of_nat i, Some (color_dist key p)) /\
    cs !! i = Some p /\
    (forall (j : nat) q, cs !! j = Some q -> color_dist key p <= color_dist key q) /\
    (forall (j : nat) q, (j < i)%nat -> cs !! j = Some q ->
                         color_dist key p < color_dist key q).
Proof.
  induction cs as [|c cs IH] using rev_ind; [congruence|]. intros _.
  rewrite enumerate_from_snoc, fold_left_app. cbn [fold_left].
  destruct cs as [|c0 cs0] eqn:Hcs.
  - cbn. exists 0%nat, c. split; [reflexivity|]. split; [reflexivity|]. split.
    + intros [|j] q Hq; cbn in Hq; [injection Hq as <-; lia|discriminate].
    + intros j q Hj. lia.
  - rewrite <- Hcs in *. destruct (IH ltac:(rewrite Hcs; discriminate)) as (i & p & -> & Hi & Hmin & Hfirst).
    cbn [nearest_step]. destruct (Z.ltb_spec (color_dist key c) (color_dist key p)) as [Hlt|Hge].
    + exists (length cs), c. unfold len. split; [reflexivity|]. split.
      * rewrite lookup_app_r by lia. rewrite Nat.sub_diag. reflexivity.
      * split.
        -- intros j q Hq. apply lookup_app_Some in Hq as [Hl|[_ Hr]].
           ++ specialize (Hmin j q Hl). lia.
           ++ apply list_lookup_singleton_Some in Hr as [_ <-]. lia.
        -- intros j q Hj Hq. rewrite lookup_app_l in Hq by exact Hj.
           specialize (Hmin j q Hq). lia.
    + exists i, p. split; [reflexivity|]. split; [apply lookup_app_l_Some; exact Hi|]. split.
      * intros j q Hq. apply lookup_app_Some in Hq as [Hl|[_ Hr]].
        -- exact (Hmin j q Hl).
        -- apply list_lookup_singleton_Some in Hr as [_ <-]. lia.
      * intros j q Hj Hq. apply lookup_lt_Some in Hi.
        rewrite lookup_app_l in Hq by lia. exact (Hfirst j q Hj Hq).
Qed.

Lemma insert_by_perm {A} (key : A -> Z) (x : A) (l : list A) : insert_by key x l ≡ₚ x :: l.
Proof.
  induction l as [|y l IH]; cbn [insert_by]; [reflexivity|].
  destruct (key x <=? key y); [reflexivity|]. rewrite IH. apply Permutation_swap.
Qed.

Lemma sorted_by_perm {A} (key : A -> Z) (l : list A) : sorted_by key l ≡ₚ l.
Proof.
  unfold sorted_by. induction l as [|x l IH]; cbn [foldr]; [reflexivity|].
  rewrite insert_by_perm, IH. reflexivity.
Qed.

Lemma insert_by_sorted {A} (key : A -> Z) (x : A) (l : list A) :
  StronglySorted (fun a b => key a <= key b) l ->
  StronglySorted (fun a b => key a <= key b) (insert_by key x l).
Proof.
  induction 1 as [|y l Hl IH Hy]; cbn [insert_by].
  - repeat constructor.
  - destruct (Z.leb_spec (key x) (key y)) as [Hle|Hgt].
    + constructor; [constructor; assumption|].
      constructor; [exact Hle|]. eapply Forall_impl; [exact Hy|]. cbn. intros z Hz. lia.
    + constructor; [exact IH|].
      rewrite (insert_by_perm key x l). constructor; [lia|exact Hy].
Qed.

Lemma sorted_by_sorted {A} (key : A -> Z) (l : list A) :
  StronglySorted (fun a b => key a <= key b) (sorted_by key l).
Proof.
  unfold sorted_by. induction l as [|x l IH]; cbn [foldr]; [constructor|].
  apply insert_by_sorted, IH.
Qed.

Lemma sorted_lookup {A} (R : relation A) (l : list A) (i j : nat) (x y : A) :
  StronglySorted R l -> (i < j)%nat -> l !! i = Some x -> l !! j = Some y -> R x y.
Proof.
  intros Hs Hij Hi Hj. rewrite <- (take_drop j l) in Hs.
  apply (StronglySorted_app_1_elem_of R _ _ x y Hs).
  - apply list_elem_of_lookup. exists i. rewrite lookup_take_lt by exact Hij. exact Hi.
  - apply list_elem_of_lookup. exists 0%nat. rewrite lookup_drop, Nat.add_0_r. exact Hj.
Qed.

(** The sorted dict of a set of frames: keys distinct, each with its
    count, counts descending. *)
Lemma sorted_colors_spec (frames : list (list pixel)) :
  let s := sorted_by (fun x : Z * Z * Z * Z => - x.2) (count_colors frames) in
  NoDup s.*1 /\
  (forall k n, (k, n) ∈ s -> n = color_count frames k /\ 0 < n) /\
  (forall k, 0 < color_count frames k -> k ∈ s.*1) /\
  StronglySorted (fun a b : Z * Z * Z * Z => b.2 <= a.2) s.
Proof.
  cbv zeta. set (s := sorted_by _ _).
  assert (Hperm : s ≡ₚ count_colors frames) by apply sorted_by_perm.
  destruct (count_pixels_inv_flat frames) as [Hnd Hget].
  split; [|split; [|split]].
  - rewrite Hperm. exact Hnd.
  - intros k n Hin. rewrite Hperm in Hin.
    pose proof (dict_get_elem _ _ _ Hnd Hin) as Hk. rewrite Hget in Hk.
    case_decide; [|discriminate]. injection Hk as <-. auto.
  - intros k Hk. rewrite Hperm. apply dict_get_keys. rewrite Hget.
    rewrite decide_True by exact Hk. eauto.
  - pose proof (sorted_by_sorted (fun x : Z * Z * Z * Z => - x.2) (count_colors frames)) as Hs.
    fold s in Hs. clear Hperm. induction Hs as [|a l Hl IH Ha]; [constructor|].
    constructor; [exact IH|].
    eapply Forall_impl; [exact Ha|]. cbn. intros b Hab. lia.
Qed.

Lemma color_count_pos (frames : list (list pixel)) (k : Z * Z * Z) :
  0 < color_count frames k <->
  exists f px, f ∈ frames /\ px ∈ f /\ opaque px /\ pixel_key px = k.
Proof.
  unfold color_count, len. split.
  - intros Hpos.
    destruct (filter _ (mjoin frames)) as [|px l] eqn:Hf; [cbn in Hpos; lia|].
    assert (Hin : px ∈ filter (fun px => opaque px /\ pixel_key px = k) (mjoin frames))
      by (rewrite Hf; apply list_elem_of_here).
    apply list_elem_of_filter in Hin as [[Ho Hk] Hin].
    apply list_elem_of_join in Hin as (f & Hpx & Hfr). eauto 10.
  - intros (f & px & Hfr & Hpx & Ho & Hk).
    assert (Hin : px ∈ filter (fun px => opaque px /\ pixel_key px = k) (mjoin frames)).
    { apply list_elem_of_filter. split; [auto|]. apply list_elem_of_join. eauto. }
    destruct (filter _ (mjoin frames)); [apply elem_of_nil in Hin; contradiction|].
    cbn [length]. lia.
Qed.

Lemma build_palette_unfold (frames : list (list pixel)) (max_colors : Z) :
  1 <= max_colors ->
  build_palette_from_frames frames max_colors
  = TRANSPARENT
    :: (take (Z.to_nat (max_colors - 1))
          (sorted_by (fun x : Z * Z * Z * Z => - x.2) (count_colors frames))).*1.
Proof.
  intros Hmax. unfold build_palette_from_frames, py_slice_to. cbv zeta.
  destruct (Z.ltb_spec (max_colors - 1) 0); [lia|reflexivity].
Qed.

Lemma valid_pixel_key (px : pixel) : valid_pixel px -> pixel_key px <> TRANSPARENT.
Proof.
  destruct px as [[[r g] b] a]. unfold valid_pixel, pixel_key, quantize, TRANSPARENT.
  cbn [fst snd]. intros (Hr & _) Heq. injection Heq as Hr' _ _.
  rewrite Z.shiftr_div_pow2 in Hr' by lia. change (2 ^ 3) with 8 in Hr'.
  Z.to_euclidean_division_equations. lia.
Qed.

(** X5. The palette built from frames starts with the sentinel, has at
    most [max_colors] entries, lists no colour twice, lists only colours
    some opaque pixel has, and leaves a colour out only when it is full. *)
Theorem palette_shape (frames : list (list pixel)) (max_colors : Z) :
  1 <= max_colors ->
  let palette := build_palette_from_frames frames max_colors in
  palette !! 0%nat = Some TRANSPARENT /\
  1 <= len palette <= max_colors /\
  NoDup (drop 1 palette) /\
  (forall c, c ∈ drop 1 palette -> 0 < color_count frames c) /\
  (forall c, 0 < color_count frames c -> c ∉ drop 1 palette -> len palette = max_colors).
Proof.
  intros Hmax. cbv zeta. rewrite (build_palette_unfold frames max_colors Hmax).
  destruct (sorted_colors_spec frames) as (Hnd & Hcount & Hall & _).
  set (s := sorted_by _ _) in *. set (m := Z.to_nat (max_colors - 1)).
  cbn [drop]. rewrite drop_0.
  split; [reflexivity|]. split; [|split; [|split]].
  - unfold len. cbn [length]. rewrite length_fmap, length_take. lia.
  - rewrite fmap_take. exact (sublist_NoDup _ _ Hnd (sublist_take _ _)).
  - intros c Hin. apply list_elem_of_fmap in Hin as ([k n] & -> & Hin).
    apply elem_of_take in Hin as (i & Hi & _).
    destruct (Hcount k n) as [Heq Hpos]; [apply list_elem_of_lookup; eauto|].
    cbn [fst]. rewrite <- Heq. exact Hpos.
  - intros c Hpos Hout. unfold len. cbn [length]. rewrite length_fmap, length_take.
    assert (Hlong : (m < length s)%nat).
    { destruct (Nat.lt_ge_cases m (length s)) as [H|H]; [exact H|].
      exfalso. apply Hout. rewrite take_ge by exact H. exact (Hall c Hpos). }
    lia.
Qed.

Lemma palette_shape_witness :
  1 <= 3 /\
  let palette := build_palette_from_frames sample_frames 3 in
  palette !! 0%nat = Some TRANSPARENT /\
  1 <= len palette <= 3 /\
  NoDup (drop 1 palette) /\
  (forall c, c ∈ drop 1 palette -> 0 < color_count sample_frames c) /\
  (forall c, 0 < color_count sample_frames c -> c ∉ drop 1 palette -> len palette = 3).
Proof.
  assert (Hmax : 1 <= 3) by lia.
  split; [exact Hmax|exact (palette_shape sample_frames 3 Hmax)].
Defined.

(** X6. The palette built from frames is ordered by falling pixel
    count, and a colour that is left out is no more frequent than any
    colour that is kept. *)
Theorem palette_keeps_most_frequent (frames : list (list pixel)) (max_colors : Z) :
  1 <= max_colors ->
  let palette := build_palette_from_frames frames max_colors in
  (forall (i j : nat) ci cj, (1 <= i)%nat -> (i <= j)%nat ->
     palette !! i = Some ci -> palette !! j = Some cj ->
     color_count frames cj <= color_count frames ci) /\
  (forall c (k : nat) ck, 0 < color_count frames c -> c ∉ drop 1 palette ->
     (1 <= k)%nat -> palette !! k = Some ck ->
     color_count frames c <= color_count frames ck).
Proof.
  intros Hmax. cbv zeta. rewrite (build_palette_unfold frames max_colors Hmax).
  destruct (sorted_colors_spec frames) as (Hnd & Hcount & Hall & Hsorted).
  set (s := sorted_by _ _) in *. set (m := Z.to_nat (max_colors - 1)).
  assert (Hslot : forall (k : nat) ck, (1 <= k)%nat ->
            (TRANSPARENT :: (take m s).*1) !! k = Some ck ->
            (k - 1 < m)%nat /\ s !! (k - 1)%nat = Some (ck, color_count frames ck)).
  { intros k ck Hk Hlook. destruct k as [|k]; [lia|].
    change ((take m s).*1 !! k = Some ck) in Hlook.
    replace (S k - 1)%nat with k by lia. rewrite list_lookup_fmap in Hlook.
    destruct (take m s !! k) as [[c n]|] eqn:Ht; [|discriminate].
    cbn in Hlook. injection Hlook as <-.
    apply lookup_take_Some in Ht as [Hs Hlt]. split; [exact Hlt|].
    destruct (Hcount c n) as [<- _]; [apply list_elem_of_lookup; eauto|exact Hs]. }
  split.
  - intros i j ci cj Hi Hij Hci Hcj.
    destruct (Hslot i ci Hi Hci) as [_ Hsi].
    destruct (Hslot j cj ltac:(lia) Hcj) as [_ Hsj].
    destruct (decide (i = j)) as [->|Hne].
    + rewrite Hsi in Hsj. injection Hsj as ->. reflexivity.
    + exact (sorted_lookup _ s (i - 1) (j - 1) _ _ Hsorted ltac:(lia) Hsi Hsj).
  - intros c k ck Hpos Hout Hk Hck. cbn [drop] in Hout. rewrite drop_0 in Hout.
    destruct (Hslot k ck Hk Hck) as [Hlt Hsk].
    pose proof (Hall c Hpos) as Hin. apply list_elem_of_fmap in Hin as ([c' n] & Heq & Hin).
    cbn in Heq. subst c'. destruct (Hcount c n Hin) as [-> _].
    apply list_elem_of_lookup in Hin as [i Hi].
    assert (Hge : (m <= i)%nat).
    { destruct (Nat.lt_ge_cases i m) as [H|H]; [|exact H]. exfalso. apply Hout.
      apply list_elem_of_fmap. exists (c, color_count frames c). split; [reflexivity|].
      apply elem_of_take. eauto. }
    exact (sorted_lookup _ s (k - 1) i _ _ Hsorted ltac:(lia) Hsk Hi).
Qed.

Lemma palette_keeps_most_frequent_witness :
  1 <= 3 /\
  let palette := build_palette_from_frames sample_frames 3 in
  (forall (i j : nat) ci cj, (1 <= i)%nat -> (i <= j)%nat ->
     palette !! i = Some ci -> palette !! j = Some cj ->
     color_count sample_frames cj <= color_count sample_frames ci) /\
  (forall c (k : nat) ck, 0 < color_count sample_frames c -> c ∉ drop 1 palette ->
     (1 <= k)%nat -> palette !! k = Some ck ->
     color_count sample_frames c <= color_count sample_frames ck).
Proof.
  assert (Hmax : 1 <= 3) by lia.
  split; [exact Hmax|exact (palette_keeps_most_frequent sample_frames 3 Hmax)].
Defined.

(** X7. When the frames hold at most [max_colors - 1] colours, every
    opaque pixel is indexed to a slot from 1 on that holds exactly its
    quantized colour, and every transparent pixel to slot 0. *)
Theorem small_palette_indexes_exactly (frames : list (list pixel)) (max_colors : Z)
    (cs : list (Z * Z * Z)) (f : list pixel) (i : nat) (px : pixel) :
  1 <= max_colors ->
  (forall f px, f ∈ frames -> px ∈ f -> valid_pixel px) ->
  (forall f px, f ∈ frames -> px ∈ f -> opaque px -> pixel_key px ∈ cs) ->
  len cs <= max_colors - 1 ->
  f ∈ frames -> f !! i = Some px ->
  let palette := build_palette_from_frames frames max_colors in
  exists k : nat,
    index_frame_with_palette f palette !! i = Some (Z.of_nat k) /\
    if decide (opaque px) then (1 <= k)%nat /\ palette !! k = Some (pixel_key px)
    else k = 0%nat.
Proof.
  intros Hmax Hvalid Hcs Hlen Hf Hpx. cbv zeta.
  unfold index_frame_with_palette. rewrite list_lookup_fmap, Hpx. cbn [fmap option_fmap option_map].
  assert (Hinf : px ∈ f) by (apply list_elem_of_lookup; eauto).
  destruct px as [[[r g] b] a]. unfold index_pixel.
  destruct (decide (opaque (r, g, b, a))) as [Ho|Ht].
  - unfold opaque in Ho. cbn [snd] in Ho.
    destruct (Z.ltb_spec a 128) as [Hbad|_]; [lia|].
    change (quantize r g b) with (pixel_key (r, g, b, a)).
    set (key := pixel_key (r, g, b, a)).
    set (palette := build_palette_from_frames frames max_colors).
    assert (Hkey : key ∈ palette).
    { unfold palette. rewrite (build_palette_unfold frames max_colors Hmax).
      destruct (sorted_colors_spec frames) as (Hnd & Hcount & Hall & _).
      set (s := sorted_by _ _) in *.
      assert (Hshort : (length s <= Z.to_nat (max_colors - 1))%nat).
      { assert (Hsub : s.*1 ⊆+ cs).
        { apply NoDup_submseteq; [exact Hnd|]. intros c Hc.
          apply list_elem_of_fmap in Hc as ([c' n] & -> & Hin).
          destruct (Hcount c' n Hin) as [_ Hpos]. destruct (Hcount c' n Hin) as [Hn _].
          rewrite Hn in Hpos. apply color_count_pos in Hpos as (f' & px' & Hf' & Hpx' & Ho' & <-).
          exact (Hcs f' px' Hf' Hpx' Ho'). }
        apply submseteq_length in Hsub. rewrite length_fmap in Hsub. unfold len in Hlen. lia. }
      rewrite take_ge by exact Hshort. apply list_elem_of_further, Hall.
      apply color_count_pos. exists f, (r, g, b, a). unfold opaque. cbn [snd]. auto. }
    pose proof (palette_lookup_spec palette key) as Hspec.
    destruct (palette_lookup palette !! key) as [idx|]; [|contradiction].
    destruct Hspec as (k & -> & Hk & _). exists k. split; [reflexivity|].
    split; [|exact Hk]. destruct k as [|k]; [|lia].
    exfalso. unfold palette in Hk. rewrite (build_palette_unfold frames max_colors Hmax) in Hk.
    change (Some TRANSPARENT = Some key) in Hk.
    apply (valid_pixel_key _ (Hvalid f _ Hf Hinf)). unfold key in Hk. congruence.
  - unfold opaque in Ht. cbn [snd] in Ht.
    destruct (Z.ltb_spec a 128) as [_|Hbad]; [|lia]. exists 0%nat. auto.
Qed.

(** ** Indexing pixels *)

Lemma small_palette_indexes_exactly_witness :
  sample_frame ∈ sample_frames /\
  exists k : nat,
    index_frame_with_palette sample_frame (build_palette_from_frames sample_frames 16) !! 2%nat
    = Some (Z.of_nat k) /\
    if decide (opaque (0, 255, 0, 255))
    then (1 <= k)%nat /\
         build_palette_from_frames sample_frames 16 !! k = Some (pixel_key (0, 255, 0, 255))
    else k = 0%nat.
Proof.
  assert (Hin : sample_frame ∈ sample_frames) by apply list_elem_of_here.
  assert (Hall : Forall (Forall (fun px => valid_pixel px /\
                                   pixel_key px ∈ [(31, 0, 0); (0, 31, 0); (0, 0, 31); (1, 1, 1)]))
                   sample_frames).
  { repeat constructor; cbn; try lia; set_solver. }
  split; [exact Hin|].
  apply (small_palette_indexes_exactly sample_frames 16
           [(31, 0, 0); (0, 31, 0); (0, 0, 31); (1, 1, 1)] sample_frame 2 (0, 255, 0, 255)).
  - lia.
  - intros f px Hf Hpx.
    exact (proj1 (proj1 (Forall_forall _ _) (proj1 (Forall_forall _ _) Hall f Hf) px Hpx)).
  - intros f px Hf Hpx _.
    exact (proj2 (proj1 (Forall_forall _ _) (proj1 (Forall_forall _ _) Hall f Hf) px Hpx)).
  - unfold len. cbn [length]. lia.
  - exact Hin.
  - reflexivity.
Defined.

(** X8. Indexing keeps the number of pixels, and a pixel whose alpha
    is below 128 gets index 0 whatever the palette. *)
Theorem transparent_pixels_index_zero (frame : list pixel) (palette : list (Z * Z * Z))
    (i : nat) (px : pixel) :
  frame !! i = Some px -> px.2 < 128 ->
  length (index_frame_with_palette frame palette) = length frame /\
  index_frame_with_palette frame palette !! i = Some 0.
Proof.
  intros Hpx Ha. unfold index_frame_with_palette. split; [apply length_fmap|].
  rewrite list_lookup_fmap, Hpx. destruct px as [[[r g] b] a]. cbn [snd] in Ha.
  cbn [fmap option_fmap option_map index_pixel].
  destruct (Z.ltb_spec a 128); [reflexivity|lia].
Qed.

Lemma transparent_pixels_index_zero_witness :
  length (index_frame_with_palette sample_frame sample_palette) = length sample_frame /\
  index_frame_with_palette sample_frame sample_palette !! 3%nat = Some 0.
Proof.
  apply (transparent_pixels_index_zero sample_frame sample_palette 3 (9, 9, 9, 0));
    [reflexivity|cbn [snd]; lia].
Defined.

(** X9. An opaque pixel whose quantized colour is in the palette gets
    the last slot that holds this colour. *)
Theorem exact_match_takes_last_slot (frame : list pixel) (palette : list (Z * Z * Z))
    (i : nat) (px : pixel) :
  frame !! i = Some px -> opaque px -> pixel_key px ∈ palette ->
  exists k : nat,
    index_frame_with_palette frame palette !! i = Some (Z.of_nat k) /\
    palette !! k = Some (pixel_key px) /\
    forall j : nat, (k < j)%nat -> palette !! j <> Some (pixel_key px).
Proof.
  intros Hpx Ho Hin. unfold index_frame_with_palette.
  rewrite list_lookup_fmap, Hpx. destruct px as [[[r g] b] a].
  unfold opaque in Ho. cbn [snd] in Ho.
  cbn [fmap option_fmap option_map index_pixel].
  destruct (Z.ltb_spec a 128); [lia|].
  change (quantize r g b) with (pixel_key (r, g, b, a)).
  pose proof (palette_lookup_spec palette (pixel_key (r, g, b, a))) as Hspec.
  destruct (palette_lookup palette !! _) as [idx|]; [|contradiction].
  destruct Hspec as (k & -> & Hk & Hlast). eauto.
Qed.

Lemma exact_match_takes_last_slot_witness :
  exists k : nat,
    index_frame_with_palette sample_frame sample_palette !! 0%nat = Some (Z.of_nat k) /\
    sample_palette !! k = Some (pixel_key (255, 0, 0, 255)) /\
    forall j : nat, (k < j)%nat -> sample_palette !! j <> Some (pixel_key (255, 0, 0, 255)).
Proof.
  apply (exact_match_takes_last_slot sample_frame sample_palette 0 (255, 0, 0, 255)).
  - reflexivity.
  - unfold opaque. cbn [snd]. lia.
  - apply list_elem_of_further, list_elem_of_here.
Defined.

(** X10. An opaque pixel whose colour is not in the palette gets the
    first slot from 1 on at the smallest squared distance; with no slot
    beyond the sentinel it gets index 1. *)
Theorem nearest_color_first_minimum (frame : list pixel) (palette : list (Z * Z * Z))
    (i : nat) (px : pixel) :
  frame !! i = Some px -> opaque px -> pixel_key px ∉ palette ->
  ((length palette <= 1)%nat ->
   index_frame_with_palette frame palette !! i = Some 1) /\
  ((2 <= length palette)%nat ->
   exists (k : nat) (p : Z * Z * Z),
     index_frame_with_palette frame palette !! i = Some (Z.of_nat k) /\
     (1 <= k)%nat /\ palette !! k = Some p /\
     (forall (j : nat) q, (1 <= j)%nat -> palette !! j = Some q ->
        color_dist (pixel_key px) p <= color_dist (pixel_key px) q) /\
     (forall (j : nat) q, (1 <= j)%nat -> (j < k)%nat -> palette !! j = Some q ->
        color_dist (pixel_key px) p < color_dist (pixel_key px) q)).
Proof.
  intros Hpx Ho Hout. unfold index_frame_with_palette.
  rewrite list_lookup_fmap, Hpx. destruct px as [[[r g] b] a].
  unfold opaque in Ho. cbn [snd] in Ho.
  cbn [fmap option_fmap option_map index_pixel].
  destruct (Z.ltb_spec a 128); [lia|].
  change (quantize r g b) with (pixel_key (r, g, b, a)).
  set (key := pixel_key (r, g, b, a)) in *.
  pose proof (palette_lookup_spec palette key) as Hspec.
  destruct (palette_lookup palette !! key) as [idx|].
  { destruct Hspec as (k & _ & Hk & _). exfalso. apply Hout.
    apply list_elem_of_lookup. eauto. }
  unfold nearest_color. split.
  - intros Hshort. destruct palette as [|c [|c' palette]]; cbn in Hshort; try lia; reflexivity.
  - intros Hlong.
    assert (Hne : drop 1 palette <> []).
    { intros Hnil. apply (f_equal length) in Hnil. rewrite length_drop in Hnil.
      cbn in Hnil. lia. }
    destruct (nearest_fold key (drop 1 palette) Hne) as (n & p & -> & Hn & Hmin & Hfirst).
    cbn [fst]. exists (S n), p. rewrite lookup_drop in Hn.
    split; [f_equal; lia|]. split; [lia|]. split; [exact Hn|]. split.
    + intros j q Hj Hq. destruct j as [|j]; [lia|].
      apply (Hmin j q). rewrite lookup_drop. exact Hq.
    + intros j q Hj Hjk Hq. destruct j as [|j]; [lia|].
      apply (Hfirst j q); [lia|]. rewrite lookup_drop. exact Hq.
Qed.

(** ** Cartridge images *)

Lemma nearest_color_first_minimum_witness :
  (pixel_key (0, 255, 0, 255) ∉ sample_palette) /\
  ((length sample_palette <= 1)%nat ->
   index_frame_with_palette sample_frame sample_palette !! 2%nat = Some 1) /\
  ((2 <= length sample_palette)%nat ->
   exists (k : nat) (p : Z * Z * Z),
     index_frame_with_palette sample_frame sample_palette !! 2%nat = Some (Z.of_nat k) /\
     (1 <= k)%nat /\ sample_palette !! k = Some p /\
     (forall (j : nat) q, (1 <= j)%nat -> sample_palette !! j = Some q ->
        color_dist (pixel_key (0, 255, 0, 255)) p <= color_dist (pixel_key (0, 255, 0, 255)) q) /\
     (forall (j : nat) q, (1 <= j)%nat -> (j < k)%nat -> sample_palette !! j = Some q ->
        color_dist (pixel_key (0, 255, 0, 255)) p < color_dist (pixel_key (0, 255, 0, 255)) q)).
Proof.
  assert (Hout : pixel_key (0, 255, 0, 255) ∉ sample_palette).
  { intros Hin. unfold sample_palette in Hin.
    repeat (apply elem_of_cons in Hin as [Hin|Hin]; [vm_compute in Hin; discriminate|]).
    exact (not_elem_of_nil _ Hin). }
  split; [exact Hout|].
  apply (nearest_color_first_minimum sample_frame sample_palette 2 (0, 255, 0, 255)).
  - reflexivity.
  - unfold opaque. cbn [snd]. lia.
  - exact Hout.
Defined.


Lemma bytes_like_replicate (n : nat) : bytes_like (replicate n 0).
Proof. apply Forall_replicate. reflexivity. Qed.


Lemma ljust_len (data : list Z) (width : Z) :
  len (ljust data width) = Z.max (len data) width.
Proof. unfold ljust, len. rewrite length_app, length_replicate. lia. Qed.

Lemma ljust_lookup (data : list Z) (width : Z) (i : nat) :
  Z.of_nat i < Z.max (len data) width ->
  ljust data width !! i = Some (default 0 (data !! i)).
Proof.
  intros Hi. unfold ljust, len in *.
  destruct (data !! i) as [x|] eqn:Hx.
  - rewrite (lookup_app_l_Some _ _ _ _ Hx). reflexivity.
  - apply lookup_ge_None in Hx. rewrite lookup_app_r by lia.
    rewrite lookup_replicate_2 by lia. reflexivity.
Qed.

Lemma ljust_bytes (data : list Z) (width : Z) :
  bytes_like data -> bytes_like (ljust data width).
Proof.
  intros Hd. apply Forall_app. split; [exact Hd|apply bytes_like_replicate].
Qed.

Lemma interleaved_length (c1 c2 : list Z) :
  length c1 = length c2 -> length (interleaved c1 c2) = (2 * length c1)%nat.
Proof.
  revert c2. induction c1 as [|a c1 IH]; intros [|b c2] Hlen; try discriminate.
  - reflexivity.
  - cbn [interleaved length]. rewrite (IH c2) by (cbn in Hlen; lia). lia.
Qed.

Lemma interleaved_app (l1 l2 r1 r2 : list Z) :
  length l1 = length l2 ->
  interleaved (l1 ++ r1) (l2 ++ r2) = interleaved l1 l2 ++ interleaved r1 r2.
Proof.
  revert l2. induction l1 as [|a l1 IH]; intros [|b l2] Hlen; try discriminate.
  - reflexivity.
  - cbn [interleaved app]. rewrite (IH l2) by (cbn in Hlen; lia). reflexivity.
Qed.

Lemma interleaved_lookup (c1 c2 : list Z) (i : nat) :
  length c1 = length c2 ->
  interleaved c1 c2 !! (2 * i)%nat = c1 !! i /\
  interleaved c1 c2 !! (2 * i + 1)%nat = c2 !! i.
Proof.
  revert c2 i. induction c1 as [|a c1 IH]; intros [|b c2] i Hlen; try discriminate.
  - split; reflexivity.
  - destruct i as [|i].
    + split; reflexivity.
    + replace (2 * S i)%nat with (S (S (2 * i))) by lia.
      replace (S (S (2 * i)) + 1)%nat with (S (S (2 * i + 1))) by lia.
      cbn [interleaved lookup list_lookup]. apply IH. cbn in Hlen. lia.
Qed.

Lemma interleaved_bytes (c1 c2 : list Z) :
  bytes_like c1 -> bytes_like c2 -> bytes_like (interleaved c1 c2).
Proof.
  intros H1. revert c2. induction H1 as [|a c1 Ha _ IH]; intros c2 H2.
  - constructor.
  - destruct H2 as [|b c2 Hb H2]; [constructor|].
    cbn [interleaved]. constructor; [exact Ha|]. constructor; [exact Hb|]. apply IH, H2.
Qed.

Lemma interleave_step_write (c1 c2 pre post : list Z) (k : nat) (a b : Z) :
  c1 !! k = Some a -> c2 !! k = Some b -> is_byte a = true -> is_byte b = true ->
  length pre = (2 * k)%nat ->
  interleave_step c1 c2 (pre ++ 0 :: 0 :: post) (Z.of_nat k)
  = Ok ((pre ++ [a; b]) ++ post).
Proof.
  intros Ha Hb Hba Hbb Hpre. unfold interleave_step.
  pose proof (lookup_lt_Some _ _ _ Ha). pose proof (lookup_lt_Some _ _ _ Hb).
  rewrite !py_index_total by (unfold len; lia).
  rewrite Nat2Z.id, (list_lookup_total_correct _ _ _ Ha),
    (list_lookup_total_correct _ _ _ Hb), bind_Ok.
  rewrite (bytearray_set_mid _ 0 _ _ a); [|unfold len; lia|exact Hba].
  rewrite !bind_Ok.
  replace (pre ++ a :: 0 :: post) with ((pre ++ [a]) ++ 0 :: post)
    by (rewrite <- app_assoc; reflexivity).
  rewrite (bytearray_set_mid _ 0 _ _ b);
    [|unfold len; rewrite length_app; cbn [length]; lia|exact Hbb].
  rewrite <- !app_assoc. reflexivity.
Qed.

(** The interleaving loop, from round [k] on. *)
Lemma interleave_loop (c1 c2 : list Z) :
  bytes_like c1 -> bytes_like c2 -> length c1 = length c2 ->
  forall (m k : nat), (k + m)%nat = length c1 ->
  for_each (interleave_step c1 c2) (seqZ (Z.of_nat k) (Z.of_nat m))
    (interleaved (take k c1) (take k c2) ++ replicate (2 * m) 0)
  = Ok (interleaved c1 c2).
Proof.
  intros Hb1 Hb2 Hlen. induction m as [|m IH]; intros k Hk.
  - cbn. rewrite !take_ge by lia. rewrite app_nil_r. reflexivity.
  - rewrite Nat2Z.inj_succ, seqZ_cons by lia. cbn [for_each].
    destruct (lookup_lt_is_Some_2 c1 k) as [a Ha]; [lia|].
    destruct (lookup_lt_is_Some_2 c2 k) as [b Hb]; [lia|].
    assert (Hpre : length (interleaved (take k c1) (take k c2)) = (2 * k)%nat).
    { rewrite interleaved_length; rewrite !length_take; lia. }
    replace (2 * S m)%nat with (S (S (2 * m))) by lia. cbn [replicate].
    rewrite (interleave_step_write c1 c2 _ _ k a b Ha Hb
               (proj1 (Forall_lookup _ _) Hb1 _ _ Ha)
               (proj1 (Forall_lookup _ _) Hb2 _ _ Hb) Hpre), bind_Ok.
    replace (Z.succ (Z.of_nat k)) with (Z.of_nat (S k)) by lia.
    replace (Z.pred (Z.succ (Z.of_nat m))) with (Z.of_nat m) by lia.
    rewrite <- (IH (S k)) by lia.
    rewrite (take_S_r _ _ _ Ha), (take_S_r _ _ _ Hb).
    rewrite interleaved_app by (rewrite !length_take; lia).
    reflexivity.
Qed.

Lemma interleave_c_roms_spec (c1 c2 : list Z) :
  bytes_like c1 -> bytes_like c2 ->
  interleave_c_roms c1 c2
  = Ok (interleaved (ljust c1 (Z.max (len c1) (len c2)))
          (ljust c2 (Z.max (len c1) (len c2)))).
Proof.
  intros Hb1 Hb2. unfold interleave_c_roms. cbv zeta.
  set (n := Z.max (len c1) (len c2)).
  assert (Hl1 : len (ljust c1 n) = n) by (rewrite ljust_len; unfold n; lia).
  assert (Hl2 : len (ljust c2 n) = n) by (rewrite ljust_len; unfold n; lia).
  assert (Hn : 0 <= n) by (unfold n, len; lia).
  pose proof (interleave_loop (ljust c1 n) (ljust c2 n) (ljust_bytes _ _ Hb1)
                (ljust_bytes _ _ Hb2)) as Hloop.
  specialize (Hloop ltac:(unfold len in *; lia) (Z.to_nat n) 0%nat
                ltac:(unfold len in *; lia)).
  rewrite Z2Nat.id, !take_0 in Hloop by lia. cbn [interleaved app] in Hloop.
  unfold bytearray. replace (Z.to_nat (n * 2)) with (2 * Z.to_nat n)%nat by lia.
  change (Z.of_nat 0) with 0 in Hloop. rewrite Hloop, bind_Ok.
  apply py_bytes_Ok, interleaved_bytes; apply ljust_bytes; assumption.
Qed.

(** X20. [interleave_c_roms] returns twice the longer length: byte [2 i]
    is byte [i] of C1 and byte [2 i + 1] is byte [i] of C2, zero where a
    ROM has ended. *)
Theorem interleave_layout (c1 c2 : list Z) :
  bytes_like c1 -> bytes_like c2 ->
  exists out,
    interleave_c_roms c1 c2 = Ok out /\
    len out = 2 * Z.max (len c1) (len c2) /\
    forall i : nat, Z.of_nat i < Z.max (len c1) (len c2) ->
      out !! (2 * i)%nat = Some (default 0 (c1 !! i)) /\
      out !! (2 * i + 1)%nat = Some (default 0 (c2 !! i)).
Proof.
  intros Hb1 Hb2. eexists. split; [exact (interleave_c_roms_spec c1 c2 Hb1 Hb2)|].
  set (n := Z.max (len c1) (len c2)).
  assert (Hl1 : len (ljust c1 n) = n) by (rewrite ljust_len; unfold n; lia).
  assert (Hl2 : len (ljust c2 n) = n) by (rewrite ljust_len; unfold n; lia).
  assert (Hlen : length (ljust c1 n) = length (ljust c2 n)) by (unfold len in *; lia).
  split.
  - unfold len at 1. rewrite (interleaved_length _ _ Hlen). unfold len in Hl1. lia.
  - intros i Hi. destruct (interleaved_lookup _ _ i Hlen) as [-> ->].
    split; apply ljust_lookup; unfold n in *; lia.
Qed.

Lemma interleave_layout_witness :
  bytes_like [1; 2; 3] /\ bytes_like [4; 5] /\
  exists out,
    interleave_c_roms [1; 2; 3] [4; 5] = Ok out /\
    len out = 2 * Z.max (len [1; 2; 3]) (len [4; 5]) /\
    forall i : nat, Z.of_nat i < Z.max (len [1; 2; 3]) (len [4; 5]) ->
      out !! (2 * i)%nat = Some (default 0 ([1; 2; 3] !! i)) /\
      out !! (2 * i + 1)%nat = Some (default 0 ([4; 5] !! i)).
Proof.
  assert (H1 : bytes_like [1; 2; 3]) by (repeat constructor).
  assert (H2 : bytes_like [4; 5]) by (repeat constructor).
  split; [exact H1|]. split; [exact H2|].
  exact (interleave_layout [1; 2; 3] [4; 5] H1 H2).
Defined.

Lemma pack_u32_le32 (v : Z) : is_u32 v -> pack_u32 v = Some (le32 v).
Proof.
  intros [Hlo Hhi]. unfold pack_u32, le32.
  destruct (Z.leb_spec 0 v); [|lia]. destruct (Z.ltb_spec v (2 ^ 32)); [|lia].
  cbn [andb]. change 0xFF with (Z.ones 8).
  rewrite !Z.land_ones, !Z.shiftr_div_pow2 by lia. reflexivity.
Qed.

Lemma pack_u32_None (v : Z) : ~ is_u32 v -> pack_u32 v = None.
Proof.
  intros Hv. unfold pack_u32, is_u32 in *.
  destruct (Z.leb_spec 0 v); [|reflexivity].
  destruct (Z.ltb_spec v (2 ^ 32)); [lia|reflexivity].
Qed.

Lemma pack_into_None (buffer : list Z) (offset v : Z) :
  ~ is_u32 v -> pack_into buffer offset v = None.
Proof. intros Hv. unfold pack_into. rewrite (pack_u32_None v Hv). reflexivity. Qed.

Lemma pack_into_mid (pre old post : list Z) (offset v : Z) :
  is_u32 v -> offset = len pre -> length old = 4%nat ->
  pack_into (pre ++ old ++ post) offset v = Some (pre ++ le32 v ++ post).
Proof.
  intros Hv -> Hold. unfold pack_into. rewrite (pack_u32_le32 v Hv).
  cbn [mbind option_bind]. unfold len. rewrite !length_app, Hold.
  destruct (Z.ltb_spec (Z.of_nat (length pre)) 0); [lia|].
  destruct (Z.ltb_spec (Z.of_nat (length pre)) 0); [lia|].
  destruct (Z.ltb_spec (Z.of_nat (length pre + (4 + length post)))
              (Z.of_nat (length pre) + 4)); [lia|].
  cbn [orb]. rewrite Nat2Z.id, take_app_length.
  replace (Z.to_nat (Z.of_nat (length pre) + 4)) with (length pre + length old)%nat by lia.
  rewrite drop_app_add', drop_app_length by reflexivity. reflexivity.
Qed.

Lemma pack_into_cells (pre post : list Z) (a b c d offset v : Z) :
  is_u32 v -> offset = len pre ->
  pack_into (pre ++ a :: b :: c :: d :: post) offset v = Some (pre ++ le32 v ++ post).
Proof. intros Hv Hoff. exact (pack_into_mid pre [a; b; c; d] post offset v Hv Hoff eq_refl). Qed.

Lemma slice_assign_mid (pre old post : list Z) (lo hi : Z) (data : list Z) :
  lo = len pre -> hi = lo + len old ->
  slice_assign (pre ++ old ++ post) lo hi data = pre ++ data ++ post.
Proof.
  intros -> ->. unfold slice_assign, len. cbv zeta. rewrite !length_app.
  rewrite Z.min_l by lia.
  rewrite Z.min_l by lia. rewrite Z.max_r by lia.
  rewrite Nat2Z.id, take_app_length.
  replace (Z.to_nat (Z.of_nat (length pre) + Z.of_nat (length old)))
    with (length pre + length old)%nat by lia.
  rewrite drop_app_add', drop_app_length by reflexivity. reflexivity.
Qed.

Lemma pack_sizes_fill (sizes : list Z) :
  forall (pre post : list Z) (offset : Z),
  Forall is_u32 sizes -> offset = len pre ->
  pack_sizes sizes (pre ++ replicate (4 * length sizes) 0 ++ post) offset
  = Some (pre ++ mjoin (le32 <$> sizes) ++ post, offset + 4 * len sizes).
Proof.
  induction sizes as [|size sizes IH]; intros pre post offset Hall Hoff.
  - cbn. rewrite Z.add_0_r. reflexivity.
  - apply Forall_cons in Hall as [Hsize Hall].
    cbn [pack_sizes length]. replace (4 * S (length sizes))%nat
      with (4 + 4 * length sizes)%nat by lia.
    rewrite replicate_add, <- app_assoc.
    rewrite (pack_into_mid pre (replicate 4 0) _ offset size Hsize Hoff eq_refl).
    cbn [mbind option_bind].
    replace (pre ++ le32 size ++ replicate (4 * length sizes) 0 ++ post)
      with ((pre ++ le32 size) ++ replicate (4 * length sizes) 0 ++ post)
      by (rewrite <- app_assoc; reflexivity).
    rewrite IH; [|exact Hall|unfold len in *; rewrite length_app; cbn [le32 length]; lia].
    cbn [fmap list_fmap mjoin list_join]. rewrite <- !app_assoc.
    f_equal. f_equal. unfold len. cbn [length]. lia.
Qed.

Lemma encoded_len (s : list Z) (n : nat) : (length (take n (encode_ascii s)) <= n)%nat.
Proof. rewrite length_take. lia. Qed.

Lemma build_neo_header_spec (p_size s_size m_size v1_size v2_size c_size : Z)
    (name manufacturer : list Z) (year genre screenshot ngh : Z) :
  Forall is_u32 [p_size; s_size; m_size; v1_size; v2_size; c_size;
                 year; genre; screenshot; ngh] ->
  build_neo_header p_size s_size m_size v1_size v2_size c_size
    name manufacturer year genre screenshot ngh
  = Some (spec_neo_header [p_size; s_size; m_size; v1_size; v2_size; c_size;
                           year; genre; screenshot; ngh] name manufacturer).
Proof.
  intros Hall. unfold build_neo_header, spec_neo_header. cbv zeta.
  set (nb := take 32 (encode_ascii name)).
  set (mb := take 16 (encode_ascii manufacturer)).
  pose proof (encoded_len name 32) as Hnb. fold nb in Hnb.
  pose proof (encoded_len manufacturer 16) as Hmb. fold mb in Hmb.
  repeat (apply Forall_cons in Hall as [? Hall]).
  unfold bytearray.
  replace (Z.to_nat HEADER_SIZE)
    with (3 + (1 + (4 * 6 + (4 + (4 + (4 + (4 + (length nb + ((33 - length nb)
            + (length mb + (4019 - length mb)))))))))))%nat
    by (unfold HEADER_SIZE; lia).
  rewrite !replicate_add.
  match goal with
  | |- context [slice_assign (replicate 3 0 ++ ?post) 0 3 NEO_HEADER_MAGIC] =>
      pose proof (slice_assign_mid [] (replicate 3 0) post 0 3 NEO_HEADER_MAGIC
                    eq_refl eq_refl) as Hmagic
  end.
  cbn [app] in Hmagic. rewrite Hmagic. clear Hmagic.
  cbn [app NEO_HEADER_MAGIC replicate list_insert insert].
  change (78 :: 69 :: 79 :: NEO_VERSION :: ?l) with ([78; 69; 79; 1] ++ l).
  rewrite (pack_sizes_fill [p_size; s_size; m_size; v1_size; v2_size; c_size]
             [78; 69; 79; 1] _ 4)
    by (try reflexivity; repeat (constructor; [assumption|]); constructor).
  cbn [mbind option_bind]. change (4 + 4 * len [p_size; s_size; m_size; v1_size; v2_size; c_size])
    with 28.
  set (sizes := mjoin (le32 <$> [p_size; s_size; m_size; v1_size; v2_size; c_size])).
  assert (Hsizes : length sizes = 24%nat) by reflexivity.
  rewrite app_assoc.
  rewrite (pack_into_cells _ _ 0 0 0 0 28 year)
    by (try assumption; try reflexivity; unfold len; rewrite length_app, Hsizes; reflexivity).
  cbn [mbind option_bind].
  rewrite (app_assoc _ (le32 year)).
  rewrite (pack_into_cells _ _ 0 0 0 0 (28 + 4) genre)
    by (try assumption; try reflexivity;
        unfold len; rewrite !length_app, Hsizes; reflexivity).
  cbn [mbind option_bind].
  rewrite (app_assoc _ (le32 genre)).
  rewrite (pack_into_cells _ _ 0 0 0 0 (28 + 4 + 4) screenshot)
    by (try assumption; try reflexivity;
        unfold len; rewrite !length_app, Hsizes; reflexivity).
  cbn [mbind option_bind].
  rewrite (app_assoc _ (le32 screenshot)).
  rewrite (pack_into_cells _ _ 0 0 0 0 (28 + 4 + 4 + 4) ngh)
    by (try assumption; try reflexivity;
        unfold len; rewrite !length_app, Hsizes; reflexivity).
  cbn [mbind option_bind].
  rewrite (app_assoc _ (le32 ngh)).
  rewrite (slice_assign_mid _ (replicate (length nb) 0) _ _ _ nb);
    [|unfold len; rewrite !length_app, Hsizes; reflexivity
     |unfold len; rewrite length_replicate; reflexivity].
  rewrite (app_assoc _ nb), (app_assoc _ (replicate (33 - length nb) 0)).
  rewrite (slice_assign_mid _ (replicate (length mb) 0) _ _ _ mb);
    [|unfold len; rewrite !length_app, Hsizes, length_replicate; cbn [le32 length]; lia
     |unfold len; rewrite length_replicate; reflexivity].
  f_equal. unfold sizes. cbn [fmap list_fmap mjoin list_join].
  rewrite <- !app_assoc. reflexivity.
Qed.

Lemma le32_value (v : Z) :
  is_u32 v ->
  v mod 256 + 256 * (v / 256 mod 256) + 65536 * (v / 65536 mod 256)
  + 16777216 * (v / 16777216 mod 256) = v.
Proof. unfold is_u32. intros Hv. div_lia. Qed.

Lemma read_u32_at (pre post : list Z) (v : Z) :
  is_u32 v -> read_u32 (pre ++ le32 v ++ post) (len pre) = v.
Proof.
  intros Hv. unfold read_u32, len. cbv zeta.
  assert (Hat : forall j : Z, 0 <= j ->
            (pre ++ le32 v ++ post) !!! Z.to_nat (Z.of_nat (length pre) + j)
            = (le32 v ++ post) !!! Z.to_nat j).
  { intros j Hj. rewrite lookup_total_app_r by lia. f_equal. lia. }
  rewrite (Hat 0), (Hat 1), (Hat 2), (Hat 3) by lia.
  change (Z.to_nat 0) with 0%nat. change (Z.to_nat 1) with 1%nat.
  change (Z.to_nat 2) with 2%nat. change (Z.to_nat 3) with 3%nat.
  cbn [le32 app lookup_total list_lookup_total]. apply le32_value, Hv.
Qed.

Lemma read_u32_field (fields : list Z) :
  forall (pre post : list Z) (k : nat) (f : Z),
  fields !! k = Some f -> is_u32 f ->
  read_u32 (pre ++ mjoin (le32 <$> fields) ++ post) (len pre + 4 * Z.of_nat k) = f.
Proof.
  induction fields as [|f0 fields IH]; intros pre post k f Hk Hf; [discriminate|].
  cbn [fmap list_fmap mjoin list_join]. rewrite <- app_assoc.
  destruct k as [|k].
  - injection Hk as ->. rewrite Z.add_0_r. apply read_u32_at, Hf.
  - rewrite (app_assoc pre).
    replace (len pre + 4 * Z.of_nat (S k)) with (len (pre ++ le32 f0) + 4 * Z.of_nat k)
      by (unfold len; rewrite length_app; cbn [le32 length]; lia).
    apply IH; assumption.
Qed.

Lemma spec_neo_header_length (fields name manufacturer : list Z) :
  length fields = 10%nat -> length (spec_neo_header fields name manufacturer) = 4096%nat.
Proof.
  intros Hlen. unfold spec_neo_header. cbv zeta.
  pose proof (encoded_len name 32). pose proof (encoded_len manufacturer 16).
  assert (Hj : forall l : list Z, length (mjoin (le32 <$> l)) = (4 * length l)%nat).
  { induction l as [|x l IHl]; [reflexivity|].
    change (mjoin (le32 <$> x :: l)) with (le32 x ++ mjoin (le32 <$> l)).
    rewrite length_app, IHl. cbn [le32 length]. lia. }
  rewrite !length_app, Hj, !length_replicate, Hlen. cbn [length]. lia.
Qed.

(** X21. With ten fields that fit 32 bits [build_neo_header] returns
    4096 bytes that start with N, E, O and the version 1, and field [k]
    reads back as the little-endian word at byte [4 + 4 k]. *)
Theorem neo_header_fields (p_size s_size m_size v1_size v2_size c_size : Z)
    (name manufacturer : list Z) (year genre screenshot ngh : Z) :
  let fields := [p_size; s_size; m_size; v1_size; v2_size; c_size;
                 year; genre; screenshot; ngh] in
  Forall is_u32 fields ->
  exists header,
    build_neo_header p_size s_size m_size v1_size v2_size c_size
      name manufacturer year genre screenshot ngh = Some header /\
    len header = HEADER_SIZE /\
    take 4 header = NEO_HEADER_MAGIC ++ [NEO_VERSION] /\
    forall (k : nat) (f : Z), fields !! k = Some f ->
      read_u32 header (4 + 4 * Z.of_nat k) = f.
Proof.
  intros fields Hall. eexists. split; [exact (build_neo_header_spec _ _ _ _ _ _ _ _ _ _ _ _ Hall)|].
  fold fields. split; [|split].
  - unfold len. rewrite spec_neo_header_length by reflexivity. reflexivity.
  - reflexivity.
  - intros k f Hk. unfold spec_neo_header. cbv zeta.
    apply (read_u32_field fields [78; 69; 79; 1] _ k f Hk).
    exact (proj1 (Forall_lookup _ _) Hall k f Hk).
Qed.

Lemma neo_header_fields_witness :
  exists header,
    build_neo_header 524288 131072 131072 2097152 0 2097152
      [80; 111; 110; 103] [77; 101] 2024 0 0 9999 = Some header /\
    len header = HEADER_SIZE /\
    take 4 header = NEO_HEADER_MAGIC ++ [NEO_VERSION] /\
    forall (k : nat) (f : Z),
      [524288; 131072; 131072; 2097152; 0; 2097152; 2024; 0; 0; 9999] !! k = Some f ->
      read_u32 header (4 + 4 * Z.of_nat k) = f.
Proof.
  apply (neo_header_fields 524288 131072 131072 2097152 0 2097152
           [80; 111; 110; 103] [77; 101] 2024 0 0 9999).
  repeat (constructor; [unfold is_u32; lia|]). constructor.
Defined.

(** X22. The name goes to byte 44 and the maker to byte 77, cut to 32 and
    16 bytes with [?] for a character outside ASCII; all bytes between
    them and after them up to 4096 are zero, so both are terminated. *)
Theorem neo_header_text (p_size s_size m_size v1_size v2_size c_size : Z)
    (name manufacturer : list Z) (year genre screenshot ngh : Z) :
  let name_bytes := take 32 (encode_ascii name) in
  let manu_bytes := take 16 (encode_ascii manufacturer) in
  Forall is_u32 [p_size; s_size; m_size; v1_size; v2_size; c_size;
                 year; genre; screenshot; ngh] ->
  exists header,
    build_neo_header p_size s_size m_size v1_size v2_size c_size
      name manufacturer year genre screenshot ngh = Some header /\
    take (length name_bytes) (drop 44 header) = name_bytes /\
    (forall i : nat, (44 + length name_bytes <= i < 77)%nat -> header !! i = Some 0) /\
    take (length manu_bytes) (drop 77 header) = manu_bytes /\
    (forall i : nat, (77 + length manu_bytes <= i < 4096)%nat -> header !! i = Some 0).
Proof.
  intros nb mb Hall. eexists.
  split; [exact (build_neo_header_spec _ _ _ _ _ _ _ _ _ _ _ _ Hall)|].
  unfold spec_neo_header. cbv zeta. fold nb mb.
  pose proof (encoded_len name 32) as Hnb. fold nb in Hnb.
  pose proof (encoded_len manufacturer 16) as Hmb. fold mb in Hmb.
  set (fields := mjoin (le32 <$> _)).
  assert (Hf : length ([78; 69; 79; 1] ++ fields) = 44%nat) by reflexivity.
  rewrite (app_assoc [78; 69; 79; 1]).
  set (pre := [78; 69; 79; 1] ++ fields) in *.
  split; [|split; [|split]].
  - rewrite <- Hf, drop_app_length, take_app_length. reflexivity.
  - intros i Hi. rewrite lookup_app_r by lia. rewrite lookup_app_r by lia.
    rewrite lookup_app_l by (rewrite length_replicate; lia).
    apply lookup_replicate_2. lia.
  - rewrite (app_assoc pre), (app_assoc (pre ++ nb)).
    replace 77%nat with (length ((pre ++ nb) ++ replicate (33 - length nb) 0))
      by (rewrite !length_app, length_replicate; lia).
    rewrite drop_app_length, take_app_length. reflexivity.
  - intros i Hi. rewrite lookup_app_r by lia. rewrite lookup_app_r by lia.
    rewrite lookup_app_r by (rewrite length_replicate; lia).
    rewrite lookup_app_r by (rewrite length_replicate; lia).
    apply lookup_replicate_2. rewrite length_replicate. lia.
Qed.

Lemma neo_header_text_witness :
  exists header,
    build_neo_header 524288 131072 131072 2097152 0 2097152
      sample_name sample_maker 2024 0 0 9999 = Some header /\
    take (length (take 32 (encode_ascii sample_name))) (drop 44 header)
    = take 32 (encode_ascii sample_name) /\
    (forall i : nat,
       (44 + length (take 32 (encode_ascii sample_name)) <= i < 77)%nat ->
       header !! i = Some 0) /\
    take (length (take 16 (encode_ascii sample_maker))) (drop 77 header)
    = take 16 (encode_ascii sample_maker) /\
    (forall i : nat, (77 + length (take 16 (encode_ascii sample_maker)) <= i < 4096)%nat ->
       header !! i = Some 0).
Proof.
  apply (neo_header_text 524288 131072 131072 2097152 0 2097152
           sample_name sample_maker 2024 0 0 9999).
  repeat (constructor; [unfold is_u32; lia|]). constructor.
Defined.

(** X23. When one of the ten fields is negative or does not fit 32
    bits, [build_neo_header] fails with struct.error. *)
Theorem neo_header_rejects (p_size s_size m_size v1_size v2_size c_size : Z)
    (name manufacturer : list Z) (year genre screenshot ngh : Z) :
  Exists (fun v => ~ is_u32 v) [p_size; s_size; m_size; v1_size; v2_size; c_size;
                                year; genre; screenshot; ngh] ->
  build_neo_header p_size s_size m_size v1_size v2_size c_size
    name manufacturer year genre screenshot ngh = None.
Proof.
  intros Hbad. unfold build_neo_header. cbv zeta. cbn [pack_sizes].
  repeat match goal with
  | |- context [pack_into ?h ?o ?v] =>
      let Hp := fresh "Hp" in
      destruct (pack_into h o v) eqn:Hp; cbn [mbind option_bind pack_sizes];
      [|reflexivity]
  end.
  exfalso.
  repeat match goal with
  | H : pack_into _ _ ?v = Some _ |- _ =>
      assert (is_u32 v)
        by (destruct (decide (0 <= v < 2 ^ 32)) as [Hin|Hout];
            [exact Hin|rewrite (pack_into_None _ _ v Hout) in H; discriminate]);
      clear H
  end.
  repeat (apply Exists_cons in Hbad as [Hbad|Hbad]; [contradiction|]).
  inversion Hbad.
Qed.

Lemma neo_header_rejects_witness :
  build_neo_header 524288 131072 131072 2097152 0 2097152
    [80; 111; 110; 103] [77; 101] 2024 0 0 (-1) = None.
Proof.
  apply (neo_header_rejects 524288 131072 131072 2097152 0 2097152
           [80; 111; 110; 103] [77; 101] 2024 0 0 (-1)).
  do 9 apply Exists_cons_tl. apply Exists_cons_hd. unfold is_u32. lia.
Defined.


(** ** Sample tables *)


Lemma bytearray_set_Ok (t : list Z) (i v : Z) :
  0 <= i < len t -> is_byte v = true ->
  bytearray_set t i v = Ok (<[Z.to_nat i := v]> t).
Proof.
  intros Hi Hv. unfold bytearray_set. cbv zeta.
  destruct (Z.ltb_spec i 0); [lia|]. destruct (Z.ltb_spec i 0); [lia|].
  destruct (Z.leb_spec (len t) i); [lia|]. cbn [orb]. rewrite Hv. reflexivity.
Qed.

Lemma for_each_app {S A : Type} (body : S -> A -> result S) (xs ys : list A) (acc : S) :
  for_each body (xs ++ ys) acc = (for_each body xs acc ≫= for_each body ys).
Proof.
  revert acc. induction xs as [|x xs IH]; intros acc; [reflexivity|].
  cbn [app for_each]. destruct (body acc x) as [acc1|e]; [|reflexivity].
  rewrite !bind_Ok. apply IH.
Qed.

Lemma slot_of_nil {A : Type} (index : A -> Z) (entry : A -> list Z) (width : nat) (i : Z) :
  slot_of index entry width [] i = replicate width 0.
Proof. reflexivity. Qed.

Lemma slot_of_snoc {A : Type} (index : A -> Z) (entry : A -> list Z) (width : nat)
    (records : list A) (x : A) (i : Z) :
  slot_of index entry width (records ++ [x]) i
  = if decide (index x = i) then entry x else slot_of index entry width records i.
Proof.
  unfold slot_of. rewrite filter_app, (filter_singleton _ x []).
  destruct (decide (index x = i)).
  - rewrite last_snoc. reflexivity.
  - rewrite app_nil_r. reflexivity.
Qed.

Lemma table_inv_empty {A : Type} (index : A -> Z) (entry : A -> list Z) (width : nat) :
  table_inv width (slot_of index entry width []) (bytearray (32 * width)).
Proof.
  unfold table_inv, bytearray. split; [apply length_replicate|].
  split; [apply bytes_like_replicate|].
  intros i j Hi Hj. rewrite slot_of_nil.
  rewrite lookup_replicate_2 by nia.
  rewrite (list_lookup_total_correct _ _ 0); [reflexivity|].
  apply lookup_replicate_2, Hj.
Qed.

Lemma sfx_table_step_inv (records : list sfx_info) (t : list Z) (x : sfx_info) :
  table_inv 4 (slot_of sfx_index sfx_entry 4 records) t -> sfx_ok x ->
  exists t', sfx_table_step t x = Ok t' /\
             table_inv 4 (slot_of sfx_index sfx_entry 4 (records ++ [x])) t'.
Proof.
  intros (Hlen & Hbytes & Hslots) [Hidx Hentry]. unfold sfx_table_step. cbv zeta.
  destruct (Z.ltb_spec (sfx_index x) 32) as [Hlt|Hge].
  - unfold sfx_entry in Hentry.
    apply Forall_cons in Hentry as [Ha Hentry]. apply Forall_cons in Hentry as [Hb Hentry].
    apply Forall_cons in Hentry as [Hc Hentry]. apply Forall_cons in Hentry as [Hd _].
    set (n := Z.to_nat (sfx_index x)).
    rewrite bytearray_set_Ok by (try exact Ha; unfold len; lia). rewrite bind_Ok.
    rewrite bytearray_set_Ok by (try exact Hb; unfold len; rewrite length_insert; lia).
    rewrite bind_Ok.
    rewrite bytearray_set_Ok by (try exact Hc; unfold len; rewrite !length_insert; lia).
    rewrite bind_Ok.
    rewrite bytearray_set_Ok by (try exact Hd; unfold len; rewrite !length_insert; lia).
    eexists. split; [reflexivity|].
    replace (Z.to_nat (sfx_index x * 4)) with (4 * n)%nat by lia.
    replace (Z.to_nat (sfx_index x * 4 + 1)) with (4 * n + 1)%nat by lia.
    replace (Z.to_nat (sfx_index x * 4 + 2)) with (4 * n + 2)%nat by lia.
    replace (Z.to_nat (sfx_index x * 4 + 3)) with (4 * n + 3)%nat by lia.
    split; [rewrite !length_insert; exact Hlen|].
    split; [repeat apply Forall_insert; assumption|].
    intros i j Hi Hj. rewrite slot_of_snoc, !list_lookup_insert, !length_insert.
    destruct (decide (sfx_index x = Z.of_nat i)) as [Heq|Hne].
    + assert (i = n) as -> by lia.
      destruct j as [|[|[|[|j]]]]; [| | |  |lia];
        repeat case_decide; try lia; reflexivity.
    + repeat case_decide; try lia. apply Hslots; assumption.
  - exists t. split; [reflexivity|]. split; [exact Hlen|]. split; [exact Hbytes|].
    intros i j Hi Hj. rewrite slot_of_snoc, decide_False by lia. apply Hslots; assumption.
Qed.

Lemma music_table_step_inv (records : list music_info) (t : list Z) (x : music_info) :
  table_inv 6 (slot_of music_index music_entry 6 records) t -> music_ok x ->
  exists t', music_table_step t x = Ok t' /\
             table_inv 6 (slot_of music_index music_entry 6 (records ++ [x])) t'.
Proof.
  intros (Hlen & Hbytes & Hslots) [Hidx Hentry]. unfold music_table_step. cbv zeta.
  destruct (Z.ltb_spec (music_index x) 32) as [Hlt|Hge].
  - unfold music_entry in Hentry.
    apply Forall_cons in Hentry as [Ha Hentry]. apply Forall_cons in Hentry as [Hb Hentry].
    apply Forall_cons in Hentry as [Hc Hentry]. apply Forall_cons in Hentry as [Hd Hentry].
    apply Forall_cons in Hentry as [He Hentry]. apply Forall_cons in Hentry as [Hf _].
    set (n := Z.to_nat (music_index x)).
    rewrite bytearray_set_Ok by (try exact Ha; unfold len; lia). rewrite bind_Ok.
    rewrite bytearray_set_Ok by (try exact Hb; unfold len; rewrite length_insert; lia).
    rewrite bind_Ok.
    rewrite bytearray_set_Ok by (try exact Hc; unfold len; rewrite !length_insert; lia).
    rewrite bind_Ok.
    rewrite bytearray_set_Ok by (try exact Hd; unfold len; rewrite !length_insert; lia).
    rewrite bind_Ok.
    rewrite bytearray_set_Ok by (try exact He; unfold len; rewrite !length_insert; lia).
    rewrite bind_Ok.
    rewrite bytearray_set_Ok by (try exact Hf; unfold len; rewrite !length_insert; lia).
    eexists. split; [reflexivity|].
    replace (Z.to_nat (music_index x * 6)) with (6 * n)%nat by lia.
    replace (Z.to_nat (music_index x * 6 + 1)) with (6 * n + 1)%nat by lia.
    replace (Z.to_nat (music_index x * 6 + 2)) with (6 * n + 2)%nat by lia.
    replace (Z.to_nat (music_index x * 6 + 3)) with (6 * n + 3)%nat by lia.
    replace (Z.to_nat (music_index x * 6 + 4)) with (6 * n + 4)%nat by lia.
    replace (Z.to_nat (music_index x * 6 + 5)) with (6 * n + 5)%nat by lia.
    split; [rewrite !length_insert; exact Hlen|].
    split; [repeat apply Forall_insert; assumption|].
    intros i j Hi Hj. rewrite slot_of_snoc, !list_lookup_insert, !length_insert.
    destruct (decide (music_index x = Z.of_nat i)) as [Heq|Hne].
    + assert (i = n) as -> by lia.
      destruct j as [|[|[|[|[|[|j]]]]]]; [| | | | | |lia];
        repeat case_decide; try lia; reflexivity.
    + repeat case_decide; try lia. apply Hslots; assumption.
  - exists t. split; [reflexivity|]. split; [exact Hlen|]. split; [exact Hbytes|].
    intros i j Hi Hj. rewrite slot_of_snoc, decide_False by lia. apply Hslots; assumption.
Qed.

Lemma sfx_table_fill (records : list sfx_info) :
  Forall sfx_ok records ->
  exists t, for_each sfx_table_step records (bytearray 128) = Ok t /\
            table_inv 4 (slot_of sfx_index sfx_entry 4 records) t.
Proof.
  induction records as [|x records IH] using rev_ind; intros Hok.
  - exists (bytearray 128). split; [reflexivity|].
    exact (table_inv_empty sfx_index sfx_entry 4).
  - apply Forall_app in Hok as [Hrecords Hx]. apply Forall_cons in Hx as [Hx _].
    destruct (IH Hrecords) as (t & Hrun & Hinv).
    destruct (sfx_table_step_inv records t x Hinv Hx) as (t' & Hstep & Hinv').
    exists t'. split; [|exact Hinv'].
    rewrite for_each_app, Hrun, bind_Ok. cbn [for_each]. rewrite Hstep. reflexivity.
Qed.

Lemma music_table_fill (records : list music_info) :
  Forall music_ok records ->
  exists t, for_each music_table_step records (bytearray 192) = Ok t /\
            table_inv 6 (slot_of music_index music_entry 6 records) t.
Proof.
  induction records as [|x records IH] using rev_ind; intros Hok.
  - exists (bytearray 192). split; [reflexivity|].
    exact (table_inv_empty music_index music_entry 6).
  - apply Forall_app in Hok as [Hrecords Hx]. apply Forall_cons in Hx as [Hx _].
    destruct (IH Hrecords) as (t & Hrun & Hinv).
    destruct (music_table_step_inv records t x Hinv Hx) as (t' & Hstep & Hinv').
    exists t'. split; [|exact Hinv'].
    rewrite for_each_app, Hrun, bind_Ok. cbn [for_each]. rewrite Hstep. reflexivity.
Qed.

Lemma generate_z80_sample_tables_spec (sfx : list sfx_info) (music : list music_info) :
  Forall sfx_ok sfx -> Forall music_ok music ->
  exists t1 t2,
    generate_z80_sample_tables sfx music = Ok (t1 ++ t2) /\
    table_inv 4 (slot_of sfx_index sfx_entry 4 sfx) t1 /\
    table_inv 6 (slot_of music_index music_entry 6 music) t2.
Proof.
  intros Hsfx Hmusic.
  destruct (sfx_table_fill sfx Hsfx) as (t1 & Hrun1 & Hinv1).
  destruct (music_table_fill music Hmusic) as (t2 & Hrun2 & Hinv2).
  exists t1, t2. split; [|split; assumption].
  unfold generate_z80_sample_tables. rewrite Hrun1, bind_Ok, Hrun2, bind_Ok.
  apply py_bytes_Ok, Forall_app. split; [apply Hinv1|apply Hinv2].
Qed.

(** X17. For records with byte fields and indices that are not negative
    [generate_z80_sample_tables] returns 320 bytes: 32 slots of 4 bytes,
    then 32 slots of 6 bytes; a slot holds the entry of the last record
    with its index and zeros when there is none, and a record with an index
    of 32 or more is left out. *)
Theorem z80_tables_layout (sfx : list sfx_info) (music : list music_info) :
  Forall sfx_ok sfx -> Forall music_ok music ->
  exists out,
    generate_z80_sample_tables sfx music = Ok out /\
    len out = 320 /\
    (forall i j : nat, (i < 32)%nat -> (j < 4)%nat ->
       out !! (4 * i + j)%nat = Some (slot_of sfx_index sfx_entry 4 sfx (Z.of_nat i) !!! j)) /\
    (forall i j : nat, (i < 32)%nat -> (j < 6)%nat ->
       out !! (128 + 6 * i + j)%nat
       = Some (slot_of music_index music_entry 6 music (Z.of_nat i) !!! j)).
Proof.
  intros Hsfx Hmusic.
  destruct (generate_z80_sample_tables_spec sfx music Hsfx Hmusic)
    as (t1 & t2 & Hrun & (Hlen1 & _ & Hslots1) & (Hlen2 & _ & Hslots2)).
  exists (t1 ++ t2). split; [exact Hrun|]. split; [|split].
  - unfold len. rewrite length_app, Hlen1, Hlen2. reflexivity.
  - intros i j Hi Hj. rewrite lookup_app_l by lia. apply Hslots1; assumption.
  - intros i j Hi Hj. rewrite lookup_app_r by lia.
    replace (128 + 6 * i + j - length t1)%nat with (6 * i + j)%nat by lia.
    apply Hslots2; assumption.
Qed.

Lemma z80_tables_layout_witness :
  Forall sfx_ok sample_sfx_records /\ Forall music_ok sample_music_records /\
  exists out,
    generate_z80_sample_tables sample_sfx_records sample_music_records = Ok out /\
    len out = 320 /\
    (forall i j : nat, (i < 32)%nat -> (j < 4)%nat ->
       out !! (4 * i + j)%nat
       = Some (slot_of sfx_index sfx_entry 4 sample_sfx_records (Z.of_nat i) !!! j)) /\
    (forall i j : nat, (i < 32)%nat -> (j < 6)%nat ->
       out !! (128 + 6 * i + j)%nat
       = Some (slot_of music_index music_entry 6 sample_music_records (Z.of_nat i) !!! j)).
Proof.
  assert (H1 : Forall sfx_ok sample_sfx_records).
  { repeat (constructor; [split; [cbn; lia|repeat constructor]|]). constructor. }
  assert (H2 : Forall music_ok sample_music_records).
  { repeat (constructor; [split; [cbn; lia|repeat constructor]|]). constructor. }
  split; [exact H1|]. split; [exact H2|].
  exact (z80_tables_layout sample_sfx_records sample_music_records H1 H2).
Defined.

Lemma land_byte (x : Z) : is_byte (Z.land x 0xFF) = true.
Proof.
  change 0xFF with (Z.ones 8). rewrite Z.land_ones by lia.
  pose proof (Z.mod_pos_bound x (2 ^ 8) ltac:(lia)) as Hm. change (2 ^ 8) with 256 in *.
  unfold is_byte. apply andb_true_iff. split; [apply Z.leb_le|apply Z.ltb_lt]; lia.
Qed.

Lemma process_sound_effect_info (samples : list Z) (i off : Z) (data : list Z)
    (info : sfx_info) :
  process_sound_effect samples i off = Ok (data, info) ->
  sfx_index info = i /\ bytes_like (sfx_entry info).
Proof.
  unfold process_sound_effect.
  destruct (ADPCM_A.encode_s16 samples) as [nibbles|e]; [|discriminate].
  rewrite bind_Ok. destruct (pack_adpcm nibbles) as [packed|e]; [|discriminate].
  rewrite bind_Ok. cbv zeta. destruct (0xFFFF <? _); [discriminate|].
  intros Hrun. injection Hrun as _ <-. split; [reflexivity|].
  unfold sfx_entry. cbn [sfx_start_addr_l sfx_start_addr_h sfx_stop_addr_l sfx_stop_addr_h].
  repeat (constructor; [apply land_byte|]). constructor.
Qed.

Lemma process_music_info (delta : Z -> Z) (def : music_def) (i off : Z) (data : list Z)
    (info : music_info) :
  process_music delta def i off = Ok (data, info) ->
  music_index info = i /\ bytes_like (music_entry info).
Proof.
  unfold process_music. cbv zeta.
  destruct (ADPCM_B.encode_s16 (music_samples def)) as [nibbles|e]; [|discriminate].
  rewrite bind_Ok. destruct (pack_adpcm nibbles) as [packed|e]; [|discriminate].
  rewrite bind_Ok. destruct (0xFFFF <? _); [discriminate|].
  intros Hrun. injection Hrun as _ <-. split; [reflexivity|].
  unfold music_entry.
  cbn [music_start_addr_l music_start_addr_h music_stop_addr_l music_stop_addr_h
       music_delta_n_l music_delta_n_h].
  repeat (constructor; [apply land_byte|]). constructor.
Qed.

Lemma sfx_loop_records (defs : list (list Z)) :
  forall (i : Z) (st st' : audio_state),
  sfx_loop i defs st = Ok st' ->
  exists infos,
    sfx_info_list st' = sfx_info_list st ++ infos /\
    music_info_list st' = music_info_list st /\
    forall (k : nat) (info : sfx_info), infos !! k = Some info ->
      sfx_index info = i + Z.of_nat k /\ i + Z.of_nat k < 32 /\
      bytes_like (sfx_entry info).
Proof.
  induction defs as [|def defs IH]; intros i st st' Hrun.
  - injection Hrun as <-. exists []. rewrite app_nil_r. repeat split; discriminate.
  - cbn [sfx_loop] in Hrun. destruct (Z.leb_spec 32 i) as [Hfull|Hroom].
    + injection Hrun as <-. exists []. rewrite app_nil_r. repeat split; discriminate.
    + destruct (process_sound_effect def i (audio_offset st)) as [[data info]|e] eqn:Hone;
        [|discriminate].
      rewrite bind_Ok in Hrun. apply IH in Hrun as (infos & Hsfx & Hmusic & Hinfos).
      cbn [sfx_info_list music_info_list] in Hsfx, Hmusic.
      exists (info :: infos). split; [rewrite Hsfx, <- app_assoc; reflexivity|].
      split; [exact Hmusic|].
      destruct (process_sound_effect_info _ _ _ _ _ Hone) as [Hidx Hbytes].
      intros [|k] info' Hk.
      * injection Hk as <-. rewrite Z.add_0_r. repeat split; assumption || lia.
      * destruct (Hinfos k info' Hk) as (Hidx' & Hlt' & Hbytes').
        repeat split; assumption || lia.
Qed.

Lemma music_loop_records (delta : Z -> Z) (defs : list music_def) :
  forall (i : Z) (st st' : audio_state),
  music_loop delta i defs st = Ok st' ->
  exists infos,
    music_info_list st' = music_info_list st ++ infos /\
    sfx_info_list st' = sfx_info_list st /\
    forall (k : nat) (info : music_info), infos !! k = Some info ->
      music_index info = i + Z.of_nat k /\ i + Z.of_nat k < 32 /\
      bytes_like (music_entry info).
Proof.
  induction defs as [|def defs IH]; intros i st st' Hrun.
  - injection Hrun as <-. exists []. rewrite app_nil_r. repeat split; discriminate.
  - cbn [music_loop] in Hrun. destruct (Z.leb_spec 32 i) as [Hfull|Hroom].
    + injection Hrun as <-. exists []. rewrite app_nil_r. repeat split; discriminate.
    + destruct (process_music delta def i (audio_offset st)) as [[data info]|e] eqn:Hone;
        [|discriminate].
      rewrite bind_Ok in Hrun. apply IH in Hrun as (infos & Hmusic & Hsfx & Hinfos).
      cbn [sfx_info_list music_info_list] in Hsfx, Hmusic.
      exists (info :: infos). split; [rewrite Hmusic, <- app_assoc; reflexivity|].
      split; [exact Hsfx|].
      destruct (process_music_info _ _ _ _ _ _ Hone) as [Hidx Hbytes].
      intros [|k] info' Hk.
      * injection Hk as <-. rewrite Z.add_0_r. repeat split; assumption || lia.
      * destruct (Hinfos k info' Hk) as (Hidx' & Hlt' & Hbytes').
        repeat split; assumption || lia.
Qed.

Lemma process_audio_records (delta : Z -> Z) (sfx : list (list Z)) (music : list music_def)
    (st : audio_state) :
  process_audio delta sfx music = Ok st ->
  (forall (k : nat) (info : sfx_info), sfx_info_list st !! k = Some info ->
     sfx_index info = Z.of_nat k /\ (k < 32)%nat /\ bytes_like (sfx_entry info)) /\
  (forall (k : nat) (info : music_info), music_info_list st !! k = Some info ->
     music_index info = Z.of_nat k /\ (k < 32)%nat /\ bytes_like (music_entry info)).
Proof.
  unfold process_audio. intros Hrun.
  destruct (sfx_loop 0 sfx _) as [st1|e] eqn:Hsfx; [|discriminate].
  rewrite bind_Ok in Hrun.
  apply sfx_loop_records in Hsfx as (infos1 & Hsfx1 & Hmusic1 & Hinfos1).
  apply music_loop_records in Hrun as (infos2 & Hmusic2 & Hsfx2 & Hinfos2).
  cbn [sfx_info_list music_info_list app] in Hsfx1, Hmusic1.
  rewrite Hsfx2, Hsfx1, Hmusic2, Hmusic1. cbn [app]. split.
  - intros k info Hk. destruct (Hinfos1 k info Hk) as (Hidx & Hlt & Hbytes).
    repeat split; assumption || lia.
  - intros k info Hk. destruct (Hinfos2 k info Hk) as (Hidx & Hlt & Hbytes).
    repeat split; assumption || lia.
Qed.

Lemma slot_of_sequential {A : Type} (index : A -> Z) (entry : A -> list Z) (width : nat)
    (records : list A) :
  (forall (k : nat) (r : A), records !! k = Some r -> index r = Z.of_nat k) ->
  forall (k : nat) (r : A), records !! k = Some r ->
    slot_of index entry width records (Z.of_nat k) = entry r.
Proof.
  induction records as [|x records IH] using rev_ind; intros Hseq k r Hk; [discriminate|].
  rewrite slot_of_snoc.
  assert (Hx : index x = Z.of_nat (length records)).
  { apply Hseq. rewrite lookup_app_r, Nat.sub_diag by lia. reflexivity. }
  destruct (decide (k = length records)) as [->|Hne].
  - rewrite lookup_app_r, Nat.sub_diag in Hk by lia. injection Hk as <-.
    rewrite decide_True by exact Hx. reflexivity.
  - assert (Hlt : (k < length records)%nat).
    { apply lookup_lt_Some in Hk. rewrite length_app in Hk. cbn [length] in Hk. lia. }
    rewrite lookup_app_l in Hk by exact Hlt.
    rewrite decide_False by lia. apply IH; [|exact Hk].
    intros k' r' Hk'. apply Hseq. rewrite lookup_app_l by (eapply lookup_lt_Some, Hk').
    exact Hk'.
Qed.

Lemma read_entry (out : list Z) (off : nat) (e : list Z) :
  (forall j : nat, (j < length e)%nat -> out !! (off + j)%nat = Some (e !!! j)) ->
  take (length e) (drop off out) = e.
Proof.
  intros Hread. apply list_eq. intros j.
  destruct (decide (j < length e)%nat) as [Hj|Hj].
  - rewrite lookup_take_lt, lookup_drop, (Hread j Hj) by exact Hj.
    symmetry. apply list_lookup_lookup_total_lt, Hj.
  - rewrite lookup_take_ge by lia. symmetry. apply lookup_ge_None. lia.
Qed.

(** X18. The records the audio loops produce go into the tables in
    order: the entry of the [k]-th sound effect is at bytes [4 k .. 4 k + 3]
    and that of the [k]-th music track at bytes [128 + 6 k .. 128 + 6 k + 5],
    and the table generator does not fail on them. *)
Theorem audio_tables_in_order (delta : Z -> Z) (sound_effects_config : list (list Z))
    (music_config : list music_def) (st : audio_state) :
  process_audio delta sound_effects_config music_config = Ok st ->
  exists out,
    generate_z80_sample_tables (sfx_info_list st) (music_info_list st) = Ok out /\
    (forall (k : nat) (info : sfx_info), sfx_info_list st !! k = Some info ->
       take 4 (drop (4 * k) out) = sfx_entry info) /\
    (forall (k : nat) (info : music_info), music_info_list st !! k = Some info ->
       take 6 (drop (128 + 6 * k) out) = music_entry info).
Proof.
  intros Hrun. destruct (process_audio_records _ _ _ _ Hrun) as [Hsfx Hmusic].
  assert (Hok1 : Forall sfx_ok (sfx_info_list st)).
  { apply Forall_lookup. intros k info Hk. destruct (Hsfx k info Hk) as (Hidx & _ & Hb).
    split; [lia|exact Hb]. }
  assert (Hok2 : Forall music_ok (music_info_list st)).
  { apply Forall_lookup. intros k info Hk. destruct (Hmusic k info Hk) as (Hidx & _ & Hb).
    split; [lia|exact Hb]. }
  destruct (generate_z80_sample_tables_spec _ _ Hok1 Hok2)
    as (t1 & t2 & Hgen & (Hlen1 & _ & Hslots1) & (Hlen2 & _ & Hslots2)).
  exists (t1 ++ t2). split; [exact Hgen|]. split.
  - intros k info Hk. destruct (Hsfx k info Hk) as (_ & Hlt & _).
    apply (read_entry _ (4 * k) (sfx_entry info)). intros j Hj.
    change (length (sfx_entry info)) with 4%nat in Hj.
    rewrite lookup_app_l by lia. rewrite (Hslots1 k j Hlt Hj).
    rewrite (slot_of_sequential sfx_index sfx_entry 4 (sfx_info_list st)
               (fun k' r Hr => proj1 (Hsfx k' r Hr)) k info Hk).
    reflexivity.
  - intros k info Hk. destruct (Hmusic k info Hk) as (_ & Hlt & _).
    apply (read_entry _ (128 + 6 * k) (music_entry info)). intros j Hj.
    change (length (music_entry info)) with 6%nat in Hj.
    rewrite lookup_app_r by lia.
    replace (128 + 6 * k + j - length t1)%nat with (6 * k + j)%nat by lia.
    rewrite (Hslots2 k j Hlt Hj).
    rewrite (slot_of_sequential music_index music_entry 6 (music_info_list st)
               (fun k' r Hr => proj1 (Hmusic k' r Hr)) k info Hk).
    reflexivity.
Qed.

(** ** The palette table of a tilemap *)

Lemma audio_tables_in_order_witness :
  exists st,
    process_audio (fun rate => rate) [[100; -200]; []] [MusicDef [5; 6] 22050] = Ok st /\
    exists out,
      generate_z80_sample_tables (sfx_info_list st) (music_info_list st) = Ok out /\
      (forall (k : nat) (info : sfx_info), sfx_info_list st !! k = Some info ->
         take 4 (drop (4 * k) out) = sfx_entry info) /\
      (forall (k : nat) (info : music_info), music_info_list st !! k = Some info ->
         take 6 (drop (128 + 6 * k) out) = music_entry info).
Proof.
  destruct (process_audio (fun rate => rate) [[100; -200]; []] [MusicDef [5; 6] 22050])
    as [st|e] eqn:Hrun; [|vm_compute in Hrun; discriminate].
  exists st. split; [reflexivity|].
  exact (audio_tables_in_order (fun rate => rate) [[100; -200]; []] [MusicDef [5; 6] 22050]
           st Hrun).
Defined.

Lemma list_set_Ok (l : list Z) (i v : Z) :
  0 <= i < len l -> list_set l i v = Ok (<[Z.to_nat i := v]> l).
Proof.
  intros Hi. unfold list_set. cbv zeta.
  destruct (Z.ltb_spec i 0); [lia|]. destruct (Z.ltb_spec i 0); [lia|].
  destruct (Z.leb_spec (len l) i); [lia|]. reflexivity.
Qed.

(** Writing [v] to the cells [start], ..., [start + n - 1]. *)
Lemma list_set_run (v : Z) (n : nat) :
  forall (start : Z) (l : list Z),
  0 <= start -> start + Z.of_nat n <= len l ->
  exists l',
    for_each (fun t i => list_set t i v) (seqZ start (Z.of_nat n)) l = Ok l' /\
    length l' = length l /\
    forall i : Z, 0 <= i ->
      l' !! Z.to_nat i
      = if (start <=? i) && (i <? start + Z.of_nat n) then Some v else l !! Z.to_nat i.
Proof.
  induction n as [|n IH]; intros start l Hstart Hfit.
  - exists l. split; [reflexivity|]. split; [reflexivity|].
    intros i Hi. destruct (Z.leb_spec start i); destruct (Z.ltb_spec i (start + Z.of_nat 0));
      try reflexivity; lia.
  - rewrite Nat2Z.inj_succ, seqZ_cons by lia. cbn [for_each].
    rewrite list_set_Ok, bind_Ok by lia.
    replace (Z.pred (Z.succ (Z.of_nat n))) with (Z.of_nat n) by lia.
    destruct (IH (Z.succ start) (<[Z.to_nat start := v]> l)) as (l' & Hrun & Hlen & Hget);
      [lia|unfold len in *; rewrite length_insert; lia|].
    exists l'. split; [exact Hrun|]. split; [rewrite Hlen; apply length_insert|].
    intros i Hi. rewrite (Hget i Hi), list_lookup_insert.
    destruct (Z.leb_spec (Z.succ start) i); destruct (Z.leb_spec start i);
      destruct (Z.ltb_spec i (Z.succ start + Z.of_nat n));
      destruct (Z.ltb_spec i (start + Z.succ (Z.of_nat n))); cbn [andb];
      try lia; try reflexivity;
      case_decide; try reflexivity; unfold len in *; lia.
Qed.

Lemma palette_range_step_spec (default_palette : Z) (t : list Z) (r : pal_range) :
  length t = 256%nat -> range_ok default_palette r ->
  exists t',
    palette_range_step default_palette t r = Ok t' /\ length t' = 256%nat /\
    forall i : Z, 0 <= i < 256 ->
      t' !! Z.to_nat i
      = if range_covers r i then Some (default default_palette (range_palette r))
        else t !! Z.to_nat i.
Proof.
  intros Hlen [Hstart _]. unfold palette_range_step, range_covers. cbv zeta.
  destruct (default [0; 0] (range_tiles r)) as [|start [|end_ [|x rest]]];
    try (exists t; split; [reflexivity|]; split; [exact Hlen|]; reflexivity).
  unfold py_range.
  destruct (Z.le_gt_cases (Z.min (end_ + 1) 256) start) as [Hempty|Hsome].
  - exists t. split; [|split; [exact Hlen|]].
    + replace (seqZ start (Z.min (end_ + 1) 256 - start)) with (@nil Z); [reflexivity|].
      unfold seqZ. replace (Z.to_nat (Z.min (end_ + 1) 256 - start)) with 0%nat by lia.
      reflexivity.
    + intros i Hi. destruct (Z.leb_spec start i); destruct (Z.leb_spec i end_);
        destruct (Z.ltb_spec i 256); cbn [andb]; try reflexivity; lia.
  - destruct (list_set_run (default default_palette (range_palette r))
                (Z.to_nat (Z.min (end_ + 1) 256 - start)) start t)
      as (t' & Hrun & Hlen' & Hget); [lia|unfold len; lia|].
    rewrite Z2Nat.id in Hrun, Hget by lia.
    exists t'. split; [exact Hrun|]. split; [lia|].
    intros i Hi. rewrite (Hget i) by lia.
    destruct (Z.leb_spec start i); destruct (Z.leb_spec i end_);
      destruct (Z.ltb_spec i 256);
      destruct (Z.ltb_spec i (start + (Z.min (end_ + 1) 256 - start)));
      cbn [andb]; try reflexivity; lia.
Qed.

Lemma palette_for_snoc (ranges : list pal_range) (r : pal_range) (d i : Z) :
  palette_for (ranges ++ [r]) d i
  = if range_covers r i then default d (range_palette r) else palette_for ranges d i.
Proof. unfold palette_for. rewrite fold_left_app. reflexivity. Qed.

Lemma palette_for_byte (ranges : list pal_range) (d i : Z) :
  is_byte d = true -> Forall (range_ok d) ranges -> is_byte (palette_for ranges d i) = true.
Proof.
  intros Hd. induction ranges as [|r ranges IH] using rev_ind; intros Hok; [exact Hd|].
  apply Forall_app in Hok as [Hranges Hr]. apply Forall_cons in Hr as [[_ Hr] _].
  rewrite palette_for_snoc. destruct (range_covers r i); [exact Hr|apply IH, Hranges].
Qed.

Lemma palette_ranges_fill (ranges : list pal_range) (d : Z) :
  Forall (range_ok d) ranges ->
  exists t,
    for_each (palette_range_step d) ranges (replicate 256 d) = Ok t /\
    length t = 256%nat /\
    forall i : Z, 0 <= i < 256 -> t !! Z.to_nat i = Some (palette_for ranges d i).
Proof.
  induction ranges as [|r ranges IH] using rev_ind; intros Hok.
  - exists (replicate 256 d). split; [reflexivity|]. split; [apply length_replicate|].
    intros i Hi. apply lookup_replicate_2. lia.
  - apply Forall_app in Hok as [Hranges Hr]. apply Forall_cons in Hr as [Hr _].
    destruct (IH Hranges) as (t & Hrun & Hlen & Hget).
    destruct (palette_range_step_spec d t r Hlen Hr) as (t' & Hstep & Hlen' & Hget').
    exists t'. split; [|split; [exact Hlen'|]].
    + rewrite for_each_app, Hrun, bind_Ok. cbn [for_each]. rewrite Hstep. reflexivity.
    + intros i Hi. rewrite (Hget' i Hi), palette_for_snoc.
      destruct (range_covers r i); [reflexivity|apply Hget, Hi].
Qed.

(** X19. The palette table of a tilemap has 256 bytes; tile [i] gets the
    palette of the last entry whose range holds [i], the default palette
    otherwise; a range is cut at tile 255, an entry without [tiles] stands
    for tile 0 and one whose [tiles] is not a pair is skipped. *)
Theorem tile_palette_table (tileset_palettes : list pal_range) (default_palette : Z) :
  is_byte default_palette = true ->
  Forall (range_ok default_palette) tileset_palettes ->
  exists t,
    tile_to_palette_table tileset_palettes default_palette = Ok t /\
    len t = 256 /\
    forall i : Z, 0 <= i < 256 ->
      t !! Z.to_nat i = Some (palette_for tileset_palettes default_palette i).
Proof.
  intros Hd Hok.
  destruct (palette_ranges_fill tileset_palettes default_palette Hok)
    as (t & Hrun & Hlen & Hget).
  exists t. split; [|split; [unfold len; lia|exact Hget]].
  unfold tile_to_palette_table. rewrite Hrun, bind_Ok.
  apply py_bytes_Ok, Forall_lookup. intros k x Hk.
  pose proof (lookup_lt_Some _ _ _ Hk) as Hlt.
  rewrite <- (Nat2Z.id k), (Hget (Z.of_nat k)) in Hk by lia.
  injection Hk as <-. apply palette_for_byte; assumption.
Qed.

(** ** WAV samples *)

Lemma tile_palette_table_witness :
  is_byte 7 = true /\ Forall (range_ok 7) sample_ranges /\
  exists t,
    tile_to_palette_table sample_ranges 7 = Ok t /\
    len t = 256 /\
    forall i : Z, 0 <= i < 256 -> t !! Z.to_nat i = Some (palette_for sample_ranges 7 i).
Proof.
  assert (Hranges : Forall (range_ok 7) sample_ranges).
  { repeat (constructor; [split; [cbn; lia|reflexivity]|]). constructor. }
  split; [reflexivity|]. split; [exact Hranges|].
  exact (tile_palette_table sample_ranges 7 eq_refl Hranges).
Defined.

Lemma is_byte_range (v : Z) : is_byte v = true <-> 0 <= v < 256.
Proof.
  unfold is_byte. rewrite andb_true_iff, Z.leb_le, Z.ltb_lt. reflexivity.
Qed.




Lemma sample24_top (low mid high : Z) :
  0 <= low < 256 -> 0 <= mid < 256 -> 0 <= high < 256 ->
  sample24 low mid high = unpack_h mid high.
Proof.
  intros Hlow Hmid Hhigh. unfold sample24, unpack_h. cbv zeta.
  rewrite !Z.shiftl_mul_pow2 by lia. change (2 ^ 8) with 256. change (2 ^ 16) with 65536.
  rewrite (Z.lor_comm low), (lor_add_disjoint (mid * 256) low 8);
    [|lia|change (2 ^ 8) with 256; lia|apply Z.mod_mul; lia].
  rewrite Z.lor_comm, (lor_add_disjoint (high * 65536) _ 16);
    [|lia|change (2 ^ 16) with 65536; lia
     |change (2 ^ 16) with 65536; apply Z.mod_mul; lia].
  rewrite Z.shiftr_div_pow2 by lia. change (2 ^ 8) with 256.
  destruct (Z.geb_spec (high * 65536 + (mid * 256 + low)) 0x800000);
    destruct (Z.geb_spec (mid + 256 * high) 0x8000); div_lia.
Qed.

Lemma sample32_top (b0 b1 b2 b3 : Z) :
  0 <= b0 < 256 -> 0 <= b1 < 256 -> 0 <= b2 < 256 -> 0 <= b3 < 256 ->
  Z.shiftr (unpack_i b0 b1 b2 b3) 16 = unpack_h b2 b3.
Proof.
  intros H0 H1 H2 H3. unfold unpack_i, unpack_h. cbv zeta.
  rewrite Z.shiftr_div_pow2 by lia. change (2 ^ 16) with 65536.
  destruct (Z.geb_spec (b0 + 256 * b1 + 65536 * b2 + 16777216 * b3) 0x80000000);
    destruct (Z.geb_spec (b2 + 256 * b3) 0x8000); div_lia.
Qed.





(** X15. A 24-bit and a 32-bit sample decode to what their two top
    bytes decode to as a 16-bit sample. *)
Theorem wav_keeps_top_bytes (b0 b1 b2 b3 : Z) :
  bytes_like [b0; b1; b2; b3] ->
  decode_samples 3 [b1; b2; b3] = decode_samples 2 [b2; b3] /\
  decode_samples 4 [b0; b1; b2; b3] = decode_samples 2 [b2; b3].
Proof.
  intros Hb. apply Forall_cons in Hb as [H0 Hb]. apply Forall_cons in Hb as [H1 Hb].
  apply Forall_cons in Hb as [H2 Hb]. apply Forall_cons in Hb as [H3 _].
  apply is_byte_range in H0, H1, H2, H3.
  split.
  - change (decode_samples 3 [b1; b2; b3]) with (Loaded [sample24 b1 b2 b3]).
    change (decode_samples 2 [b2; b3]) with (Loaded [unpack_h b2 b3]).
    rewrite sample24_top by assumption. reflexivity.
  - change (decode_samples 4 [b0; b1; b2; b3])
      with (Loaded [Z.shiftr (unpack_i b0 b1 b2 b3) 16]).
    change (decode_samples 2 [b2; b3]) with (Loaded [unpack_h b2 b3]).
    rewrite sample32_top by assumption. reflexivity.
Qed.

Lemma wav_keeps_top_bytes_witness :
  decode_samples 3 [2; 3; 255] = decode_samples 2 [3; 255] /\
  decode_samples 4 [1; 2; 3; 255] = decode_samples 2 [3; 255].
Proof.
  apply (wav_keeps_top_bytes 1 2 3 255). repeat constructor.
Defined.

Lemma list_comp_snoc_Err {A B : Type} (f : A -> result B) (xs : list A) (x : A)
    (ys : list B) (e : exn) :
  list_comp f xs = Ok ys -> f x = Err e -> list_comp f (xs ++ [x]) = Err e.
Proof.
  revert ys. induction xs as [|x0 xs IH]; intros ys Hxs Hx.
  - cbn [app list_comp]. rewrite Hx. reflexivity.
  - cbn [app list_comp] in *. destruct (f x0) as [y0|e0]; [|discriminate].
    rewrite bind_Ok in *. destruct (list_comp f xs) as [ys0|e0]; [|discriminate].
    rewrite (IH ys0 eq_refl Hx). reflexivity.
Qed.

(** X16. The stereo loop raises IndexError on an odd number of
    samples. *)
Theorem stereo_odd_raises (samples : list Z) :
  len samples mod 2 = 1 -> stereo_to_mono samples = Err IndexError.
Proof.
  intros Hodd. unfold stereo_to_mono, even_range.
  assert (Hlen : 0 <= len samples) by (unfold len; lia).
  set (m := len samples / 2).
  assert (Hm : len samples = 2 * m + 1) by (unfold m; div_lia).
  clearbody m. rewrite Hm in *.
  replace ((2 * m + 1 + 1) / 2) with (Z.of_nat (S (Z.to_nat m))) by div_lia.
  rewrite seqZ_S, Z2Nat.id by lia.
  rewrite fmap_app. cbn [fmap list_fmap]. rewrite Z.add_0_l.
  eapply list_comp_snoc_Err.
  - apply list_comp_fmap
      with (g := fun i => (samples !!! Z.to_nat i + samples !!! Z.to_nat (i + 1)) / 2).
    intros i Hi. apply list_elem_of_fmap in Hi as (k & -> & Hk). apply elem_of_seqZ in Hk.
    rewrite !py_index_total by lia. reflexivity.
  - rewrite (py_index_total samples (2 * m)) by lia. rewrite bind_Ok.
    unfold py_index. destruct (Z.ltb_spec (2 * m + 1) 0); [lia|].
    destruct (Z.ltb_spec (2 * m + 1) 0); [lia|].
    rewrite (proj2 (lookup_ge_None samples (Z.to_nat (2 * m + 1))))
      by (unfold len in Hm; lia).
    reflexivity.
Qed.

(** ** Frames to sprite tiles *)

Lemma stereo_odd_raises_witness : stereo_to_mono [10; 20; 30] = Err IndexError.
Proof. apply (stereo_odd_raises [10; 20; 30]). reflexivity. Defined.























